(** * ReDocs import pipeline: a shallow embedding of the backend and its properties

    The development follows the backend sources:
    - [packages/backend/src/utils/fileDetection.ts]   (module [FileDetection])
    - [packages/backend/src/parsers/environment.ts]   (module [Environment])
    - [packages/backend/src/parsers/postman.ts]       (module [Postman])
    - [packages/backend/src/parsers/openapi.ts]       (module [OpenAPI])
    - [packages/backend/src/replay/sessionCreator.ts] (module [SessionCreator])
    - [packages/backend/src/utils/environmentCreation.ts]
                                                      (module [EnvironmentCreation])
    - [packages/backend/src/index.ts]                 (the entry points)

    Conventions of the embedding.
    - A JavaScript string is a [string]: the sequence of the bytes of its
      UTF-8 text, a surrogate without its partner being written in three
      bytes like any other code unit of its range.  Where the code counts or
      reads UTF-16 code units ([length], [charCodeAt], indices) the embedding
      does so through [JsString.units]; where it iterates over characters,
      through [JsString.characters].  White space, for [\s] and [trim], is
      the white space of Unicode, told by its bytes.
    - [toLowerCase] is the function of the host, a parameter of every function
      whose result can depend on what it does outside ASCII.  Where its result
      is only searched for letters that nothing outside ASCII lowers to, and
      for [toUpperCase], the embedding uses the mapping of the letters of
      ASCII.
    - A value built by [JSON.parse] is a [value]; a number is the decimal
      [mantissa * 10 ^ exponent] that its literal denotes, without the
      rounding to binary floating point.  A read under a fixed name sees the
      own properties of such a value (and the [length] and indices of arrays
      and strings); where the name comes from the document, the [in] operator
      and the read also see the members inherited from the built-in
      prototypes, which are objects of the host ([Js.reached]).
    - [async] functions never suspend on anything but each other, so they are
      embedded as ordinary functions.
    - A function that may throw returns a [completion]; a recursion that is not
      structural carries a fuel argument and answers [OutOfFuel] when it is
      exhausted. *)

From Stdlib Require Import String Ascii ZArith NArith Lia List Bool DecimalString.
From stdpp Require Import gmap strings list.

Local Open Scope Z_scope.
Local Open Scope nat_scope.

(* ===================================================================== *)
(** * Part I: definitions *)
(* ===================================================================== *)

(** ** Strings: the [String.prototype] methods the backend calls *)

Module JsString.

(** A string is falsy exactly when it is empty. *)
Definition truthy (s : string) : bool :=
  match s with EmptyString => false | String _ _ => true end.

(** [s.length] *)
Definition len (s : string) : nat := String.length s.

(** [s.startsWith(pat)] *)
Fixpoint startsWith (s pat : string) {struct pat} : bool :=
  match pat with
  | EmptyString => true
  | String p pat' =>
      match s with
      | EmptyString => false
      | String c s' => if Ascii.eqb c p then startsWith s' pat' else false
      end
  end.

(** [s.indexOf(pat)]; [None] stands for [-1]. *)
Fixpoint indexOf (s pat : string) : option nat :=
  if startsWith s pat then Some 0
  else match s with
       | EmptyString => None
       | String _ s' => S <$> indexOf s' pat
       end.

(** [s.lastIndexOf(pat)]; [None] stands for [-1]. *)
Fixpoint lastIndexOf (s pat : string) : option nat :=
  match s with
  | EmptyString => if startsWith s pat then Some 0 else None
  | String _ s' =>
      match lastIndexOf s' pat with
      | Some i => Some (S i)
      | None => if startsWith s pat then Some 0 else None
      end
  end.

(** [s.includes(pat)] *)
Definition includes (s pat : string) : bool :=
  match indexOf s pat with Some _ => true | None => false end.

(** [s.substring(n)] *)
Fixpoint drop (n : nat) (s : string) : string :=
  match n, s with
  | 0, _ => s
  | S _, EmptyString => EmptyString
  | S n', String _ s' => drop n' s'
  end.

(** [s.substring(0, n)] *)
Fixpoint take (n : nat) (s : string) : string :=
  match n, s with
  | 0, _ => EmptyString
  | S _, EmptyString => EmptyString
  | S n', String c s' => String c (take n' s')
  end.

(** [s.endsWith(pat)] *)
Definition endsWith (s pat : string) : bool :=
  (len pat <=? len s) && String.eqb (drop (len s - len pat) s) pat.

(** [s.split(sep)] for a non-empty separator.  Every round consumes at least
    the separator, so [len s] rounds are enough. *)
Fixpoint split_fuel (fuel : nat) (s sep : string) : list string :=
  match indexOf s sep with
  | None => [s]
  | Some i =>
      take i s ::
      match fuel with
      | 0 => []
      | S fuel' => split_fuel fuel' (drop (i + len sep) s) sep
      end
  end.

Definition split (s sep : string) : list string := split_fuel (len s) s sep.

(** [parts.join(sep)] *)
Fixpoint join (sep : string) (parts : list string) : string :=
  match parts with
  | [] => ""
  | [p] => p
  | p :: rest => p +:+ sep +:+ join sep rest
  end.

Definition map_chars (f : ascii -> ascii) : string -> string :=
  fix go s :=
    match s with
    | EmptyString => EmptyString
    | String c s' => String (f c) (go s')
    end.

Definition between (lo hi : nat) (c : ascii) : bool :=
  (lo <=? nat_of_ascii c) && (nat_of_ascii c <=? hi).

Definition is_upper (c : ascii) : bool := between 65 90 c.
Definition is_lower (c : ascii) : bool := between 97 122 c.
Definition is_digit (c : ascii) : bool := between 48 57 c.

(** [\w] of a regular expression *)
Definition is_word (c : ascii) : bool :=
  is_upper c || is_lower c || is_digit c || Ascii.eqb c "_".

(** The blanks of ASCII: tab, line feed, vertical tab, form feed, carriage
    return, space. *)
Definition is_space (c : ascii) : bool :=
  between 9 13 c || Ascii.eqb c " ".

(** The white space outside ASCII, by the three bytes of its UTF-8 text:
    U+1680, U+2000 to U+200A, U+2028, U+2029, U+202F, U+205F, U+3000 and
    U+FEFF. *)
Definition wide_space (a b c : ascii) : bool :=
  let a := nat_of_ascii a in
  let b := nat_of_ascii b in
  let c := nat_of_ascii c in
  ((a =? 225) && (b =? 154) && (c =? 128))
  || ((a =? 226) && (b =? 128)
      && (((128 <=? c) && (c <=? 138)) || (c =? 168) || (c =? 169) || (c =? 175)))
  || ((a =? 226) && (b =? 129) && (c =? 159))
  || ((a =? 227) && (b =? 128) && (c =? 128))
  || ((a =? 239) && (b =? 187) && (c =? 191)).

(** [\s] of a regular expression and the white space of [trim]: the number of
    bytes of the white-space character at the head of [s], and 0 when [s]
    does not start with one.  The characters are the blanks of ASCII, U+00A0
    and the wide ones above (the WhiteSpace and LineTerminator productions
    of ECMAScript). *)
Definition space_width (s : string) : nat :=
  match s with
  | EmptyString => 0
  | String a s1 =>
      if is_space a then 1
      else
        match s1 with
        | EmptyString => 0
        | String b s2 =>
            if (nat_of_ascii a =? 194) && (nat_of_ascii b =? 160) then 2
            else
              match s2 with
              | EmptyString => 0
              | String c _ => if wide_space a b c then 3 else 0
              end
        end
  end.

(** The same for the character at the end of a text, read off the reverse
    [r] of the text. *)
Definition space_width_end (r : string) : nat :=
  match r with
  | EmptyString => 0
  | String c r1 =>
      if is_space c then 1
      else
        match r1 with
        | EmptyString => 0
        | String b r2 =>
            if (nat_of_ascii b =? 194) && (nat_of_ascii c =? 160) then 2
            else
              match r2 with
              | EmptyString => 0
              | String a _ => if wide_space a b c then 3 else 0
              end
        end
  end.

(** A line terminator, for [^] and [$] under the [m] flag: line feed,
    carriage return, U+2028 and U+2029; as above, the number of its bytes at
    the head of [s] and at the end of the text whose reverse is [r]. *)
Definition is_newline (c : ascii) : bool :=
  (nat_of_ascii c =? 10) || (nat_of_ascii c =? 13).

Definition line_separator (a b c : ascii) : bool :=
  (nat_of_ascii a =? 226) && (nat_of_ascii b =? 128)
  && ((nat_of_ascii c =? 168) || (nat_of_ascii c =? 169)).

Definition newline_width (s : string) : nat :=
  match s with
  | String a s1 =>
      if is_newline a then 1
      else match s1 with
           | String b (String c _) => if line_separator a b c then 3 else 0
           | _ => 0
           end
  | EmptyString => 0
  end.

Definition newline_width_end (r : string) : nat :=
  match r with
  | String c r1 =>
      if is_newline c then 1
      else match r1 with
           | String b (String a _) => if line_separator a b c then 3 else 0
           | _ => 0
           end
  | EmptyString => 0
  end.

Definition lower_char (c : ascii) : ascii :=
  if is_upper c then ascii_of_nat (nat_of_ascii c + 32) else c.

Definition upper_char (c : ascii) : ascii :=
  if is_lower c then ascii_of_nat (nat_of_ascii c - 32) else c.

(** [s.toLowerCase()] and [s.toUpperCase()] as far as the letters of ASCII
    go.  The functions of the host also map the letters outside ASCII: where
    that can change what the code does, the embedding takes the function of
    the host as a parameter. *)
Definition toLowerCase : string -> string := map_chars lower_char.
Definition toUpperCase : string -> string := map_chars upper_char.

Fixpoint forallb (p : ascii -> bool) (s : string) : bool :=
  match s with
  | EmptyString => true
  | String c s' => p c && forallb p s'
  end.

(** The longest prefix of [s] whose characters satisfy [p], and the rest. *)
Fixpoint span (p : ascii -> bool) (s : string) : string * string :=
  match s with
  | EmptyString => (EmptyString, EmptyString)
  | String c s' =>
      if p c then let '(a, b) := span p s' in (String c a, b)
      else (EmptyString, s)
  end.

Fixpoint rev_onto (acc s : string) : string :=
  match s with
  | EmptyString => acc
  | String c s' => rev_onto (String c acc) s'
  end.

Definition rev (s : string) : string := rev_onto EmptyString s.

(** The character [c] does not occur in [p]. *)
Fixpoint absent (c : ascii) (p : string) : bool :=
  match p with
  | EmptyString => true
  | String q p' => negb (Ascii.eqb c q) && absent c p'
  end.

(** The longest prefix of [s] up to a position that [stop] accepts, and the
    rest: the run of a negated character class, whose members [stop] tells by
    the text they start. *)
Fixpoint span_to (stop : string -> bool) (s : string) : string * string :=
  match s with
  | EmptyString => (EmptyString, EmptyString)
  | String c s' =>
      if stop s then (EmptyString, s)
      else let '(a, b) := span_to stop s' in (String c a, b)
  end.

(** The text starts with a character of [set]. *)
Definition starts_in (set : string) (s : string) : bool :=
  match s with
  | EmptyString => false
  | String c _ => match indexOf set (String c "") with Some _ => true | None => false end
  end.

(** [s] without the white space at its head; [width] tells the white space.
    Every round drops a byte at least. *)
Fixpoint strip (width : string -> nat) (fuel : nat) (s : string) : string :=
  match fuel with
  | 0 => s
  | S fuel' =>
      match width s with
      | 0 => s
      | n => strip width fuel' (drop n s)
      end
  end.

(** [s.trimStart()], [s.trimEnd()] and [s.trim()] *)
Definition trimStart (s : string) : string := strip space_width (len s) s.

Definition trimEnd (s : string) : string :=
  rev (strip space_width_end (len s) (rev s)).

Definition trim (s : string) : string := trimEnd (trimStart s).

(** The UTF-16 code units of a text, which [length] counts and [charCodeAt]
    reads: one for a character of one, two or three bytes, the two
    surrogates for a character of four.  A byte that is not part of a
    well-formed sequence stands for itself. *)
Definition continuation (c : ascii) : bool := between 128 191 c.

Definition code (c : ascii) : Z := Z.of_nat (nat_of_ascii c).

Fixpoint units (s : string) : list Z :=
  match s with
  | EmptyString => []
  | String a s1 =>
      let alone := code a :: units s1 in
      if nat_of_ascii a <? 192 then alone
      else if nat_of_ascii a <? 224 then
        match s1 with
        | String b s2 =>
            if continuation b
            then ((code a - 192) * 64 + (code b - 128))%Z :: units s2
            else alone
        | _ => alone
        end
      else if nat_of_ascii a <? 240 then
        match s1 with
        | String b (String c s3) =>
            if continuation b && continuation c
            then (((code a - 224) * 64 + (code b - 128)) * 64 + (code c - 128))%Z
                 :: units s3
            else alone
        | _ => alone
        end
      else
        match s1 with
        | String b (String c (String d s4)) =>
            if continuation b && continuation c && continuation d then
              let point :=
                ((((code a - 240) * 64 + (code b - 128)) * 64 + (code c - 128)) * 64
                 + (code d - 128))%Z in
              (55296 + (point - 65536) / 1024)%Z
              :: (56320 + (point - 65536) mod 1024)%Z
              :: units s4
            else alone
        | _ => alone
        end
  end.

(** The text of one code unit: the UTF-8 bytes of its character, and for a
    surrogate the three bytes that stand for it alone. *)
Definition byte (z : Z) : ascii := ascii_of_nat (Z.to_nat z).

Definition unit_text (u : Z) : string :=
  if (u <? 128)%Z then String (byte u) ""
  else if (u <? 2048)%Z then
    String (byte (192 + u / 64)) (String (byte (128 + u mod 64)) "")
  else
    String (byte (224 + u / 4096))
      (String (byte (128 + (u / 64) mod 64)) (String (byte (128 + u mod 64)) "")).

(** A surrogate is a code unit of its own, written in three bytes: [ED], a
    byte from [A0] to [AF] for a high one or from [B0] to [BF] for a low one,
    and a third byte.  A high one followed by a low one stands for a
    character of four bytes. *)
Definition high_surrogate (a b : ascii) : bool :=
  (nat_of_ascii a =? 237) && between 160 175 b.

Definition low_surrogate (a b : ascii) : bool :=
  (nat_of_ascii a =? 237) && between 176 191 b.

(** The characters of a text, which [for ... of] iterates over: the number
    of bytes of the character at the head of [s], a pair of surrogates being
    one character. *)
Definition head_width (s : string) : nat :=
  match s with
  | EmptyString => 0
  | String a s1 =>
      if nat_of_ascii a <? 192 then 1
      else if nat_of_ascii a <? 224 then
        match s1 with
        | String b _ => if continuation b then 2 else 1
        | _ => 1
        end
      else if nat_of_ascii a <? 240 then
        match s1 with
        | String b (String c s3) =>
            if continuation b && continuation c then
              if high_surrogate a b then
                match s3 with
                | String a' (String b' (String c' _)) =>
                    if low_surrogate a' b' && continuation c' then 6 else 3
                | _ => 3
                end
              else 3
            else 1
        | _ => 1
        end
      else
        match s1 with
        | String b (String c (String d _)) =>
            if continuation b && continuation c && continuation d then 4 else 1
        | _ => 1
        end
  end.

Fixpoint characters_fuel (fuel : nat) (s : string) : list string :=
  match fuel with
  | 0 => []
  | S fuel' =>
      match s with
      | EmptyString => []
      | _ => take (head_width s) s
             :: characters_fuel fuel' (drop (head_width s) s)
      end
  end.

Definition characters (s : string) : list string := characters_fuel (len s) s.

End JsString.

(** ** JavaScript values, as [JSON.parse] builds them *)

Module Js.

(** A number: [mantissa * 10 ^ exponent].  In normal form the mantissa is not
    a multiple of ten, and zero is [0 * 10 ^ 0]. *)
Record number : Type := Dec { mantissa : Z; exponent : Z }.

(** Normal form of [m * 10 ^ e]: trailing zeros of the mantissa move into the
    exponent; [fuel] bounds the number of digits of [m]. *)
Fixpoint normalize_fuel (fuel : nat) (m e : Z) : number :=
  match fuel with
  | 0 => Dec m e
  | S fuel' =>
      if (m =? 0)%Z then Dec 0 0
      else if (m mod 10 =? 0)%Z then normalize_fuel fuel' (m / 10) (e + 1)
      else Dec m e
  end.

Definition normalize (m e : Z) : number :=
  normalize_fuel (S (Z.to_nat (Z.log2 (Z.abs m)))) m e.

Definition of_Z (z : Z) : number := normalize z 0.

(** An object is the list of its own properties in enumeration order. *)
#[warnings="-register-all"]
Inductive value : Type :=
| VUndefined
| VNull
| VBool (b : bool)
| VNum (n : number)
| VStr (s : string)
| VArr (items : list value)
| VObj (props : list (string * value)).

(** What a [throw] carries: the error class and its [message]. *)
Inductive error : Type :=
| SyntaxError (message : string)
| TypeError (message : string)
| Error (message : string).

Definition message (e : error) : string :=
  match e with SyntaxError m | TypeError m | Error m => m end.

(** The result of running a function body. *)
Inductive completion (A : Type) : Type :=
| Return (a : A)
| Throw (e : error)
| OutOfFuel.

Arguments Return {A} a.
Arguments Throw {A} e.
Arguments OutOfFuel {A}.

Definition bind {A B} (c : completion A) (k : A -> completion B) : completion B :=
  match c with
  | Return a => k a
  | Throw e => Throw e
  | OutOfFuel => OutOfFuel
  end.

Notation "'let*' x ':=' c 'in' k" := (bind c (fun x => k))
  (at level 10, x name, c at level 100, k at level 200).
Notation "'let*' ' pat ':=' c 'in' k" :=
  (bind c (fun x => match x with pat => k end))
  (at level 10, pat pattern, c at level 100, k at level 200).

(** [try { c } catch (e) { handler e }] *)
Definition try_catch {A} (c : completion A) (handler : error -> completion A)
  : completion A :=
  match c with
  | Throw e => handler e
  | other => other
  end.

(** The computation completes: it does not run out of fuel, and when it
    returns, its result satisfies [P]. *)
Definition completes {A} (P : A -> Prop) (c : completion A) : Prop :=
  match c with
  | Return a => P a
  | Throw _ => True
  | OutOfFuel => False
  end.

(** ToBoolean *)
Definition truthy (v : value) : bool :=
  match v with
  | VUndefined | VNull => false
  | VBool b => b
  | VNum n => negb (mantissa n =? 0)%Z
  | VStr s => JsString.truthy s
  | VArr _ | VObj _ => true
  end.

(** [typeof v === 'object'] (true of [null], arrays and objects) *)
Definition typeof_object (v : value) : bool :=
  match v with VNull | VArr _ | VObj _ => true | _ => false end.

(** The value is an object or an array. *)
Definition compound (v : value) : Prop :=
  truthy v && typeof_object v = true.

(** [typeof v === 'string'] *)
Definition typeof_string (v : value) : bool :=
  match v with VStr _ => true | _ => false end.

(** [Array.isArray(v)] *)
Definition isArray (v : value) : bool :=
  match v with VArr _ => true | _ => false end.

(** [a || b] *)
Definition or_else (a b : value) : value := if truthy a then a else b.

Fixpoint assoc (k : string) (props : list (string * value)) : option value :=
  match props with
  | [] => None
  | (k', v) :: rest => if String.eqb k' k then Some v else assoc k rest
  end.

(** Decimal text of a natural number. *)
Definition string_of_N (n : N) : string :=
  NilZero.string_of_uint (N.to_uint n).

Definition string_of_nat (n : nat) : string := string_of_N (N.of_nat n).

(** The value of a run of decimal digits. *)
Definition N_of_digits (ds : string) : N :=
  fold_left (fun acc d => (10 * acc + (N.of_nat (nat_of_ascii d) - 48))%N)
            (list_ascii_of_string ds) 0%N.

(** The array index that [k] names, if [k] is the canonical text of one
    (an integer below [2 ^ 32 - 1]). *)
Definition parse_index (k : string) : option N :=
  match k with
  | EmptyString => None
  | String c rest =>
      if JsString.forallb JsString.is_digit k
         && (negb (Ascii.eqb c "0") || negb (JsString.truthy rest))
         && (JsString.len k <=? 10)
         && (N_of_digits k <? 4294967295)%N
      then Some (N_of_digits k)
      else None
  end.

(** [items[i]] *)
Definition item (i : N) (items : list value) : option value :=
  if (i <? N.of_nat (length items))%N then items !! N.to_nat i else None.

(** Replace the value of the property [k], which exists. *)
Fixpoint update (k : string) (v : value) (props : list (string * value))
  : list (string * value) :=
  match props with
  | [] => []
  | (k', v') :: rest =>
      if String.eqb k' k then (k', v) :: rest else (k', v') :: update k v rest
  end.

(** Add the property [k], which does not exist: index keys come first, in
    ascending order, the other keys follow in the order of their creation. *)
Fixpoint add (k : string) (v : value) (props : list (string * value))
  : list (string * value) :=
  match props with
  | [] => [(k, v)]
  | (k', v') :: rest =>
      match parse_index k, parse_index k' with
      | Some i, Some i' =>
          if (i <? i')%N then (k, v) :: props else (k', v') :: add k v rest
      | Some _, None => (k, v) :: props
      | None, _ => (k', v') :: add k v rest
      end
  end.

(** CreateDataProperty, as [JSON.parse] and object literals use it. *)
Definition define_prop (k : string) (v : value) (props : list (string * value))
  : list (string * value) :=
  match assoc k props with
  | Some _ => update k v props
  | None => add k v props
  end.

(** [obj[k] = v].  The key [__proto__] is special on an object that has no
    own property of that name: the assignment reaches the prototype setter
    and leaves the own properties as they are. *)
Definition set_prop (k : string) (v : value) (props : list (string * value))
  : list (string * value) :=
  match assoc k props with
  | None => if String.eqb k "__proto__" then props else add k v props
  | Some _ => update k v props
  end.

(** [v[k]] for a value that is neither [undefined] nor [null] (reading a
    property of those throws; see [get]). *)
Definition get_prop (v : value) (k : string) : value :=
  match v with
  | VObj props => default VUndefined (assoc k props)
  | VArr items =>
      if String.eqb k "length" then VNum (of_Z (Z.of_nat (length items)))
      else match parse_index k with
           | Some i => default VUndefined (item i items)
           | None => VUndefined
           end
  | VStr s =>
      if String.eqb k "length"
      then VNum (of_Z (Z.of_nat (length (JsString.units s))))
      else match parse_index k with
           | Some i =>
               match JsString.units s !! N.to_nat i with
               | Some unit => VStr (JsString.unit_text unit)
               | None => VUndefined
               end
           | None => VUndefined
           end
  | _ => VUndefined
  end.

(** [v.k], throwing the [TypeError] of a read on [undefined] or [null]. *)
Definition get (v : value) (k : string) : completion value :=
  match v with
  | VUndefined | VNull =>
      Throw (TypeError ("Cannot read properties of " +:+
                        (if v is VNull then "null" else "undefined") +:+
                        " (reading '" +:+ k +:+ "')"))
  | _ => Return (get_prop v k)
  end.

(** [v?.k] *)
Definition get_opt (v : value) (k : string) : value :=
  match v with
  | VUndefined | VNull => VUndefined
  | _ => get_prop v k
  end.

(** [v] has an own property [k]. *)
Definition has_own (k : string) (v : value) : bool :=
  match v with
  | VObj props => match assoc k props with Some _ => true | None => false end
  | VArr items =>
      String.eqb k "length"
      || match parse_index k with
         | Some i => (i <? N.of_nat (length items))%N
         | None => false
         end
  | VStr s =>
      String.eqb k "length"
      || match parse_index k with
         | Some i => (i <? N.of_nat (length (JsString.units s)))%N
         | None => false
         end
  | _ => false
  end.

(** *** Inherited members *)

(** A value that [JSON.parse] has built inherits the members of the
    prototype of its kind, and through it those of [Object.prototype].  The
    objects of the host that a program can reach this way are no JSON values:
    a method (or a constructor), and the prototype objects themselves, which
    the accessor [__proto__] gives. *)
Inductive host_object : Type :=
| HostFunction
| ObjectPrototype
| ArrayPrototype
| StringPrototype
| NumberPrototype
| BooleanPrototype.

(** What a read gives: a JSON value or an object of the host. *)
Inductive reached : Type :=
| Value (v : value)
| Host (o : host_object).

(** The names of the function-valued properties of the prototypes, as
    ECMAScript 2023 and its annex B define them.  The prototypes are taken
    as the language leaves them: nothing has been added to them. *)
Definition object_methods : list string :=
  ["constructor"; "hasOwnProperty"; "isPrototypeOf"; "propertyIsEnumerable";
   "toLocaleString"; "toString"; "valueOf"; "__defineGetter__";
   "__defineSetter__"; "__lookupGetter__"; "__lookupSetter__"].

Definition array_methods : list string :=
  ["at"; "concat"; "copyWithin"; "entries"; "every"; "fill"; "filter"; "find";
   "findIndex"; "findLast"; "findLastIndex"; "flat"; "flatMap"; "forEach";
   "includes"; "indexOf"; "join"; "keys"; "lastIndexOf"; "map"; "pop"; "push";
   "reduce"; "reduceRight"; "reverse"; "shift"; "slice"; "some"; "sort";
   "splice"; "toReversed"; "toSorted"; "toSpliced"; "unshift"; "values";
   "with"].

Definition string_methods : list string :=
  ["at"; "charAt"; "charCodeAt"; "codePointAt"; "concat"; "endsWith";
   "includes"; "indexOf"; "lastIndexOf"; "localeCompare"; "match"; "matchAll";
   "normalize"; "padEnd"; "padStart"; "repeat"; "replace"; "replaceAll";
   "search"; "slice"; "split"; "startsWith"; "substring";
   "toLocaleLowerCase"; "toLocaleUpperCase"; "toLowerCase"; "toUpperCase";
   "trim"; "trimEnd"; "trimStart"; "anchor"; "big"; "blink"; "bold"; "fixed";
   "fontcolor"; "fontsize"; "italics"; "link"; "small"; "strike"; "sub";
   "substr"; "sup"; "trimLeft"; "trimRight"].

Definition number_methods : list string :=
  ["toExponential"; "toFixed"; "toPrecision"].

Definition named (names : list string) (k : string) : bool :=
  existsb (String.eqb k) names.

(** The prototype of a value and the methods that objects of its kind have
    beyond those of [Object.prototype]. *)
Definition prototype_of (v : value) : option host_object :=
  match v with
  | VObj _ => Some ObjectPrototype
  | VArr _ => Some ArrayPrototype
  | VStr _ => Some StringPrototype
  | VNum _ => Some NumberPrototype
  | VBool _ => Some BooleanPrototype
  | VUndefined | VNull => None
  end.

Definition methods_of (o : host_object) : list string :=
  match o with
  | ArrayPrototype => array_methods
  | StringPrototype => string_methods
  | NumberPrototype => number_methods
  | _ => []
  end.

(** [v[k]] for a value [v] that has no own property [k]: the member that [v]
    inherits, if it inherits one. *)
Definition inherited_member (v : value) (k : string) : option reached :=
  match prototype_of v with
  | Some prototype =>
      if String.eqb k "__proto__" then Some (Host prototype)
      else if named (methods_of prototype ++ object_methods) k
      then Some (Host HostFunction)
      else None
  | None => None
  end.

(** [o[k]] for an object [o] of the host, [None] when [k in o] is false.  The
    prototype of arrays is an array without elements and that of strings an
    empty string, so both have a [length] of 0; the prototype of
    [Object.prototype] is [null]; the members of a function are not needed,
    because no function is an object for [typeof]. *)
Definition host_member (o : host_object) (k : string) : option reached :=
  let method :=
    if named (methods_of o ++ object_methods) k then Some (Host HostFunction)
    else None in
  match o with
  | HostFunction => None
  | ObjectPrototype =>
      if String.eqb k "__proto__" then Some (Value VNull) else method
  | ArrayPrototype | StringPrototype =>
      if String.eqb k "__proto__" then Some (Host ObjectPrototype)
      else if String.eqb k "length" then Some (Value (VNum (of_Z 0)))
      else method
  | NumberPrototype | BooleanPrototype =>
      if String.eqb k "__proto__" then Some (Host ObjectPrototype) else method
  end.

(** [v[k]], own or inherited, for a value that is neither [undefined] nor
    [null]. *)
Definition read (v : value) (k : string) : reached :=
  if has_own k v then Value (get_prop v k)
  else default (Value VUndefined) (inherited_member v k).

(** ToBoolean of what a read gives: every object of the host is truthy. *)
Definition truthy_reached (r : reached) : bool :=
  match r with Value v => truthy v | Host _ => true end.

(** [k in v] for an object or an array [v]: an own property or an inherited
    member. *)
Definition has_prop (k : string) (v : value) : bool :=
  match v with
  | VObj _ | VArr _ =>
      has_own k v
      || match inherited_member v k with Some _ => true | None => false end
  | _ => false
  end.

(** Number::toString in base ten.  With [s] the digits of the mantissa, [k]
    their count and [n = k + exponent]: plain digits while [0 < n <= 21],
    leading zeros while [-6 < n <= 0], exponent notation otherwise. *)
Definition zeros (n : nat) : string := string_of_list_ascii (replicate n "0"%char).

Definition number_toString (x : number) : string :=
  if (mantissa x =? 0)%Z then "0"
  else
    let sign := if (mantissa x <? 0)%Z then "-" else "" in
    let s := string_of_N (Z.abs_N (mantissa x)) in
    let k := Z.of_nat (JsString.len s) in
    let n := (k + exponent x)%Z in
    sign +:+
    (if (k <=? n)%Z && (n <=? 21)%Z then
       s +:+ zeros (Z.to_nat (n - k))
     else if (0 <? n)%Z && (n <=? 21)%Z then
       JsString.take (Z.to_nat n) s +:+ "." +:+ JsString.drop (Z.to_nat n) s
     else if (-6 <? n)%Z && (n <=? 0)%Z then
       "0." +:+ zeros (Z.to_nat (- n)) +:+ s
     else
       let e := (n - 1)%Z in
       let etext := (if (e <? 0)%Z then "-" else "+") +:+
                    string_of_N (Z.abs_N e) in
       if (k =? 1)%Z then s +:+ "e" +:+ etext
       else JsString.take 1 s +:+ "." +:+ JsString.drop 1 s +:+ "e" +:+ etext).

(** ToString *)
Fixpoint toString (v : value) : string :=
  match v with
  | VUndefined => "undefined"
  | VNull => "null"
  | VBool true => "true"
  | VBool false => "false"
  | VNum n => number_toString n
  | VStr s => s
  | VArr items =>
      JsString.join ","
        (map (fun x => match x with
                       | VUndefined | VNull => ""
                       | _ => toString x
                       end) items)
  | VObj _ => "[object Object]"
  end.

(** [Object.entries(v)] for a value that is neither [undefined] nor [null] *)
Definition entries (v : value) : list (string * value) :=
  match v with
  | VObj props => props
  | VArr items => imap (fun i x => (string_of_nat i, x)) items
  | VStr s =>
      imap (fun i unit => (string_of_nat i, VStr (JsString.unit_text unit)))
           (JsString.units s)
  | _ => []
  end.

(** The characters of a string and the elements of an array, for a value
    already known to be one. *)
Definition text (v : value) : string :=
  match v with VStr s => s | _ => "" end.

Definition elements (v : value) : list value :=
  match v with VArr items => items | _ => [] end.

(** Strict equality [v === lit] against a string literal *)
Definition is_string (v : value) (lit : string) : bool :=
  match v with VStr s => String.eqb s lit | _ => false end.

(** [v !== undefined] and [v !== null] *)
Definition is_undefined (v : value) : bool :=
  match v with VUndefined => true | _ => false end.

Definition is_null (v : value) : bool :=
  match v with VNull => true | _ => false end.

(** The number of arrays and objects in a value. *)
Fixpoint size (v : value) : nat :=
  match v with
  | VArr items => S (list_sum (map size items))
  | VObj props => S (list_sum (map (fun kv => size (snd kv)) props))
  | _ => 0
  end.

End Js.

(** ** Requests, as the parsers hand them to the session creator *)

Module Req.

(** An entry of a [formdata] body: [{ key, value, type }]. *)
Record FormField : Type := {
  key : string;
  value : option string;
  type : string
}.

(** [PostmanRequest.body] and [OpenAPIRequest.body]. *)
Inductive Body : Type :=
| PostmanBody (mode : string) (raw : option string)
              (formdata : option (list FormField))
| OpenAPIBody (contentType : string) (schema example : Js.value).

(** [PostmanRequest | OpenAPIRequest].  [H] is what stands for the header
    object: the map itself where a function only reads it, a heap address
    where object identity matters. *)
Record Request (H : Type) : Type := {
  id : string;
  name : string;
  method : string;
  url : string;
  headers : H;
  body : option Body;
  auth : option Js.value;
  parameters : option (list Js.value)
}.

Arguments id {H} _.
Arguments name {H} _.
Arguments method {H} _.
Arguments url {H} _.
Arguments headers {H} _.
Arguments body {H} _.
Arguments auth {H} _.
Arguments parameters {H} _.

(** [{ ...request, headers: h }] *)
Definition with_headers {H H'} (request : Request H) (h : H') : Request H' :=
  {| id := id request; name := name request; method := method request;
     url := url request; headers := h; body := body request;
     auth := auth request; parameters := parameters request |}.

(** The same request with another [url]. *)
Definition with_url {H} (request : Request H) (u : string) : Request H :=
  {| id := id request; name := name request; method := method request;
     url := u; headers := headers request; body := body request;
     auth := auth request; parameters := parameters request |}.

End Req.

(** ** [replay/sessionCreator.ts] *)

Module Auth.

Import JsString.

(** [AuthConfig]: the [type] tag and the optional fields. *)
Inductive AuthType : Type :=
| none | apikey | bearer | basic | custom
| other (tag : string).

Record AuthConfig : Type := {
  type : AuthType;
  key : option string;
  value : option string;
  token : option string;
  username : option string;
  password : option string;
  header : option string;
  hostname : option string
}.

(** Truthiness of an optional string field. *)
Definition given (field : option string) : bool :=
  match field with Some s => truthy s | None => false end.

(** The text of a field that was tested with [given]. *)
Definition text (field : option string) : string := default "" field.

(** A credential that the variant needs is missing or empty: the guard of
    the variant's branch in [applyAuthentication] fails. *)
Definition incomplete (authConfig : AuthConfig) : bool :=
  match type authConfig with
  | apikey => negb (given (key authConfig) && given (value authConfig))
  | bearer => negb (given (token authConfig))
  | basic => negb (given (username authConfig) && given (password authConfig))
  | custom => negb (given (header authConfig) && given (value authConfig))
  | none | other _ => false
  end.

End Auth.

Module SessionCreator.

Import JsString.

(** A header object, [Record<string, string>]. *)
Abbreviation Headers := (gmap string string).

(** [headers[k] = v].  On an object without an own [__proto__] property the
    assignment of a string to that key is ignored by the prototype setter. *)
Definition set_header (k v : string) (h : Headers) : Headers :=
  if String.eqb k "__proto__" && bool_decide (h !! k = None) then h
  else <[k := v]> h.

(** The result of [parseUrl]. *)
Record ParsedUrl : Type := {
  protocol : string;
  hostname : string;
  port : option string;
  pathname : string;
  search : option string
}.

Definition char_in (set : string) (c : ascii) : bool :=
  includes set (String c "").

(** [x || undefined] on a captured group *)
Definition group (s : string) : option string :=
  if truthy s then Some s else None.

(** The negated classes of the pattern of [parseUrl], each told by the text
    that a character outside it starts: [[^:\/\s]], [[^\s?]] and [[^\s]]. *)
Definition host_end (s : string) : bool :=
  starts_in ":/" s || (0 <? space_width s).

Definition path_end (s : string) : bool :=
  (0 <? space_width s) || starts_in "?" s.

Definition query_end (s : string) : bool := 0 <? space_width s.

(** [parseUrl]: one pass of the pattern, written here with blanks between
    its parts,
      ^(https?)  :\/\/  ([^:\/\s]+)  (?: :(\d+) )?  ( \/[^\s?]* )?  ( \?[^\s]* )?
    Every group after the host is optional and the pattern is not anchored at
    its end, so the greedy match never has to give characters back. *)
Definition parseUrl (urlString : string) : option ParsedUrl :=
  let scheme :=
    if startsWith urlString "https://" then Some ("https", drop 8 urlString)
    else if startsWith urlString "http://" then Some ("http", drop 7 urlString)
    else None in
  match scheme with
  | None => None
  | Some (m1, rest) =>
      let '(m2, rest) := span_to host_end rest in
      if negb (truthy m2) then None
      else
        let '(m3, rest) :=
          match rest with
          | String ":" after =>
              let '(ds, after') := span is_digit after in
              if truthy ds then (ds, after') else ("", rest)
          | _ => ("", rest)
          end in
        let '(m4, rest) :=
          match rest with
          | String "/" after =>
              let '(p, after') := span_to path_end after in
              (String "/" p, after')
          | _ => ("", rest)
          end in
        let m5 :=
          match rest with
          | String "?" after => String "?" (fst (span_to query_end after))
          | _ => ""
          end in
        Some {| protocol := m1 +:+ ":";
                hostname := m2;
                port := group m3;
                pathname := if truthy m4 then m4 else "/";
                search := group m5 |}
  end.

(** *** [btoa] *)

(** The fallback of [btoa]: the loop over groups of three code units.  [n] is
    [str.length] and [i] the index the loop has reached. *)
Definition base64_chars : string :=
  "ABCDEFGHIJKLMNOPQRSTUVWXYZabcdefghijklmnopqrstuvwxyz0123456789+/".

Definition charAt (s : string) (i : Z) : string :=
  match String.get (Z.to_nat i) s with
  | Some c => String c ""
  | None => ""
  end.

Definition charCode (c : ascii) : Z := Z.of_nat (nat_of_ascii c).

Definition btoa_group (n i : nat) (a b c : Z) : string :=
  let bitmap := Z.lor (Z.lor (Z.shiftl a 16) (Z.shiftl b 8)) c in
  charAt base64_chars (Z.land (Z.shiftr bitmap 18) 63)
  +:+ charAt base64_chars (Z.land (Z.shiftr bitmap 12) 63)
  +:+ (if (Z.of_nat i - 2 <? Z.of_nat n)%Z
       then charAt base64_chars (Z.land (Z.shiftr bitmap 6) 63) else "=")
  +:+ (if (Z.of_nat i - 1 <? Z.of_nat n)%Z
       then charAt base64_chars (Z.land bitmap 63) else "=").

Fixpoint btoa_loop (n i : nat) (rest : list Z) : string :=
  match rest with
  | [] => ""
  | [a] => btoa_group n (i + 1) a 0 0
  | [a; b] => btoa_group n (i + 2) a b 0
  | a :: b :: c :: rest' =>
      btoa_group n (i + 3) a b c +:+ btoa_loop n (i + 3) rest'
  end.

(** [btoa]: the host's [globalThis.btoa] when there is one ([native], which
    may throw), the loop above otherwise; an exception yields the empty
    string. *)
Definition btoa (native : option (string -> option string)) (str : string)
  : string :=
  match native with
  | Some f => default "" (f str)
  | None => btoa_loop (length (units str)) 0 (units str)
  end.

(** *** Pattern replacement *)

(** The replacement text of [String.prototype.replace], with its [$] patterns
    expanded for a pattern without capture groups: [$$], [$&], [$`] and [$']. *)
Fixpoint expand (replacement before matched after : string) : string :=
  match replacement with
  | EmptyString => EmptyString
  | String d tail =>
      if Ascii.eqb d "$" then
        match tail with
        | String c rest =>
            if Ascii.eqb c "$" then
              String "$" (expand rest before matched after)
            else if Ascii.eqb c "&" then
              matched +:+ expand rest before matched after
            else if Ascii.eqb c "`" then
              before +:+ expand rest before matched after
            else if Ascii.eqb c "'" then
              after +:+ expand rest before matched after
            else String d (expand tail before matched after)
        | EmptyString => String d EmptyString
        end
      else String d (expand tail before matched after)
  end.

(** Length of the match of "\{\{[^}]+\}\}" at the head of [s], if any. *)
Definition match_template (s : string) : option nat :=
  if startsWith s "{{" then
    let '(inner, after) := span (fun c => negb (Ascii.eqb c "}")) (drop 2 s) in
    if truthy inner && startsWith after "}}" then Some (len inner + 4)
    else None
  else None.

(** [s.replace(/\{\{[^}]+\}\}/g, replacement)]: [seen] is the text already
    passed (in reverse) and [skip] the number of characters of the last match
    still to pass. *)
Fixpoint replace_templates_from (seen : string) (skip : nat)
    (s replacement : string) : string :=
  match s with
  | EmptyString => EmptyString
  | String c s' =>
      match skip with
      | S skip' => replace_templates_from (String c seen) skip' s' replacement
      | 0 =>
          match match_template s with
          | Some n =>
              expand replacement (rev seen) (take n s) (drop n s)
              +:+ replace_templates_from (String c seen) (n - 1) s' replacement
          | None =>
              String c (replace_templates_from (String c seen) 0 s' replacement)
          end
      end
  end.

Definition replace_templates (s replacement : string) : string :=
  replace_templates_from "" 0 s replacement.

(** [s.replace(/\/+/g, '/')]: [in_run] tells that the previous character was a
    slash of the run being replaced. *)
Fixpoint collapse_slashes_from (in_run : bool) (s : string) : string :=
  match s with
  | EmptyString => EmptyString
  | String c s' =>
      if Ascii.eqb c "/" then
        if in_run then collapse_slashes_from true s'
        else String "/" (collapse_slashes_from true s')
      else String c (collapse_slashes_from false s')
  end.

Definition collapse_slashes (s : string) : string :=
  collapse_slashes_from false s.

(** [s.replace(/^https?:\/\/[^\/]+/, '')] *)
Definition strip_origin (s : string) : string :=
  let after_scheme :=
    if startsWith s "https://" then Some (drop 8 s)
    else if startsWith s "http://" then Some (drop 7 s)
    else None in
  match after_scheme with
  | Some rest =>
      let '(host, rest') := span (fun c => negb (Ascii.eqb c "/")) rest in
      if truthy host then rest' else s
  | None => s
  end.

(** *** [encodeURIComponent] and [parseInt] *)

Definition hex_digit (n : nat) : ascii :=
  default "0"%char (String.get n "0123456789ABCDEF").

Definition percent (byte : nat) : string :=
  String "%" (String (hex_digit (byte / 16)) (String (hex_digit (byte mod 16)) "")).

(** A character is kept if it is unreserved; every other byte of the UTF-8
    text is percent-escaped. *)
Definition encode_char (c : ascii) : string :=
  if is_word c || char_in "-.!~*'()" c then String c ""
  else percent (nat_of_ascii c).

Definition pair_bytes (b c b' c' : ascii) : string :=
  let point :=
    64 * 1024 + ((nat_of_ascii b - 160) * 64 + (nat_of_ascii c - 128)) * 1024
    + ((nat_of_ascii b' - 176) * 64 + (nat_of_ascii c' - 128)) in
  percent (240 + point / (64 * 4096))
  +:+ percent (128 + (point / 4096) mod 64)
  +:+ percent (128 + (point / 64) mod 64)
  +:+ percent (128 + point mod 64).

(** [encodeURIComponent(s)]; [None] is the [URIError] that a surrogate
    without its partner raises. *)
Fixpoint encodeURIComponent (s : string) : option string :=
  match s with
  | EmptyString => Some EmptyString
  | String a s1 =>
      let plain := rest ← encodeURIComponent s1; Some (encode_char a +:+ rest) in
      match s1 with
      | String b (String c s3) =>
          if high_surrogate a b then
            match s3 with
            | String a' (String b' (String c' s6)) =>
                if low_surrogate a' b' then
                  rest ← encodeURIComponent s6;
                  Some (pair_bytes b c b' c' +:+ rest)
                else None
            | _ => None
            end
          else if low_surrogate a b then None
          else plain
      | _ => plain
      end
  end.

(** [parseInt] of a captured run of digits *)
Definition parseInt (ds : string) : Z :=
  fold_left (fun acc d => (10 * acc + (charCode d - 48))%Z)
            (list_ascii_of_string ds) 0%Z.

(** *** [buildRequestSpec] *)

Module Spec.

Record RequestSpec : Type := {
  method : string;
  host : string;
  port : Z;
  path : string;
  query : string;
  headers : Headers;
  body : string;
  tls : bool;
  url : string
}.

End Spec.

(** The first half of [buildRequestSpec]: the url the request is sent to,
    after the hostname override or the stand-in [example.com] and the default
    scheme. *)
Definition resolveTargetUrl (targetUrl : string) (hostname : option string)
  : string :=
  let targetUrl :=
    if Auth.given hostname && truthy (trim (Auth.text hostname)) then
      let host := trim (Auth.text hostname) in
      if includes targetUrl "{{" && includes targetUrl "}}" then
        replace_templates targetUrl host
      else if startsWith targetUrl "/" then
        "https://" +:+ host +:+ targetUrl
      else
        match parseUrl (if startsWith targetUrl "http" then targetUrl
                        else "https://" +:+ targetUrl) with
        | Some urlObj =>
            protocol urlObj +:+ "//" +:+ host +:+ pathname urlObj
            +:+ default "" (search urlObj)
        | None => targetUrl
        end
    else if includes targetUrl "{{" && includes targetUrl "}}" then
      if startsWith targetUrl "/" then "https://example.com" +:+ targetUrl
      else replace_templates targetUrl "example.com"
    else if startsWith targetUrl "/" then "https://example.com" +:+ targetUrl
    else targetUrl in
  if negb (startsWith targetUrl "http") then "https://" +:+ targetUrl
  else targetUrl.

(** The body of the spec and its headers; [None] when an entry of the form
    data cannot be encoded. *)
Definition finalBody (request : Req.Request Headers)
  : option (string * Headers) :=
  let finalHeaders := Req.headers request in
  match Req.body request with
  | Some (Req.PostmanBody _ raw formdata) =>
      if Auth.given raw then Some (Auth.text raw, finalHeaders)
      else
        match formdata with
        | Some items =>
            formPairs ←
              mapM (fun item =>
                      k ← encodeURIComponent (Req.key item);
                      v ← encodeURIComponent (Auth.text (Req.value item));
                      Some (k +:+ "=" +:+ v))
                   items;
            Some (join "&" formPairs,
                  set_header "Content-Type" "application/x-www-form-urlencoded"
                             finalHeaders)
        | None => Some ("", finalHeaders)
        end
  | _ => Some ("", finalHeaders)
  end.

(** The body of the request can be written: no entry of its form data holds
    a surrogate without its partner, which [encodeURIComponent] refuses. *)
Definition encodable {H} (request : Req.Request H) : bool :=
  match finalBody (Req.with_headers request (∅ : Headers)) with
  | Some _ => true
  | None => false
  end.

(** [buildRequestSpec(request, hostname)]; [None] is [null].  On a request
    of the declared type nothing in the body throws but [encodeURIComponent],
    whose exception the [catch] clause turns into [null]. *)
Definition buildRequestSpec (request : Req.Request Headers)
    (hostname : option string) : option Spec.RequestSpec :=
  let targetUrl := resolveTargetUrl (Req.url request) hostname in
  match parseUrl targetUrl with
  | None => None
  | Some urlObj =>
      match finalBody request with
      | None => None
      | Some (finalBody, finalHeaders) =>
          Some {| Spec.method := Req.method request;
                  Spec.host := SessionCreator.hostname urlObj;
                  Spec.port := match port urlObj with
                               | Some p => parseInt p
                               | None =>
                                   if String.eqb (protocol urlObj) "https:" then 443%Z
                                   else 80%Z
                               end;
                  Spec.path := if truthy (pathname urlObj) then pathname urlObj else "/";
                  Spec.query := default "" (search urlObj);
                  Spec.headers := finalHeaders;
                  Spec.body := finalBody;
                  Spec.tls := String.eqb (protocol urlObj) "https:";
                  Spec.url := targetUrl |}
      end
  end.

(** *** [generateCompleteSessionName] *)

(** The first part of the function: the url reduced to a path according to its
    shape (with protocol, templated, root-relative, bare). *)
Definition pathOfUrl (url : string) : string :=
  if includes url "://" then
    let urlParts := split url "://" in
    match urlParts !! 1 with
    | Some afterProtocol =>
        if truthy afterProtocol then
          match indexOf afterProtocol "/" with
          | Some firstSlash => drop firstSlash afterProtocol
          | None => "/"
          end
        else url
    | None => url
    end
  else if includes url "}}" then
    match lastIndexOf url "}}" with
    | Some templateEnd =>
        let pathAfterTemplate := drop (templateEnd + 2) url in
        if negb (startsWith pathAfterTemplate "/") then "/" +:+ pathAfterTemplate
        else pathAfterTemplate
    | None => url
    end
  else if startsWith url "/" then url
  else "/" +:+ url.

(** [if (p.includes(sep)) { const part = p.split(sep)[0]; if (part) p = part }] *)
Definition cut_at (sep fullPath : string) : string :=
  if includes fullPath sep then
    let pathPart := default "" (split fullPath sep !! 0) in
    if truthy pathPart then pathPart else fullPath
  else fullPath.

(** The path as it stands before the root fallback: query and fragment cut,
    runs of slashes collapsed, a leading slash ensured. *)
Definition cleanPath (url : string) : string :=
  let fullPath := pathOfUrl url in
  let fullPath := cut_at "?" fullPath in
  let fullPath := cut_at "#" fullPath in
  let fullPath := collapse_slashes fullPath in
  if negb (startsWith fullPath "/") then "/" +:+ fullPath else fullPath.

(** [generateCompleteSessionName(request)].  On a request of the declared type
    nothing in the [try] block throws, so the [catch] clause is not entered. *)
Definition generateCompleteSessionName {H} (request : Req.Request H) : string :=
  let fullPath := cleanPath (Req.url request) in
  let fullPath :=
    if String.eqb fullPath "/" && negb (String.eqb (Req.url request) "/") then
      let stripped := strip_origin (Req.url request) in
      if truthy stripped then stripped else "/"
    else fullPath in
  toUpperCase (Req.method request) +:+ " " +:+ fullPath.

(** In a url with a [://] separator, the separator is followed by at least
    one character (the second part of the split is not empty). *)
Definition separator_followed (url : string) : bool :=
  match split url "://" !! 1 with
  | Some afterProtocol => truthy afterProtocol
  | None => true
  end.


(** *** [applyAuthentication] *)

(** Header objects live in a heap; a request refers to its header object by
    address. *)
Abbreviation loc := positive.
Abbreviation Heap := (gmap loc Headers).

(** Code that reads and writes the heap. *)
Definition state (A : Type) : Type := Heap -> A * Heap.

#[global] Instance state_ret : MRet state := fun A a h => (a, h).

#[global] Instance state_bind : MBind state := fun A B k c h =>
  let '(a, h') := c h in k a h'.

(** [{ ...obj }]: a new object with the own properties of the object at [l]. *)
Definition spread (l : loc) : state loc := fun h =>
  let l' := fresh (dom h) in
  (l', <[l' := default ∅ (h !! l)]> h).

(** [delete obj[k]] *)
Definition delete_prop (l : loc) (k : string) : state unit := fun h =>
  (tt, alter (delete k) l h).

(** [obj[k] = v] *)
Definition assign_prop (l : loc) (k v : string) : state unit := fun h =>
  (tt, alter (set_header k v) l h).

Definition skip : state unit := mret tt.

Section WithHost.

(** [globalThis.btoa], when the host has one. *)
Variable native_btoa : option (string -> option string).

(** In the branch [custom] the lower case of the header name is compared with
    [authorization], which no name with a character outside ASCII lowers to:
    [toLowerCase] is the mapping of the letters of ASCII here. *)
Definition applyAuthentication (request : Req.Request loc)
    (authConfig : Auth.AuthConfig) : state (Req.Request loc) :=
  hdrs ← spread (Req.headers request);
  let processedRequest := Req.with_headers request hdrs in
  match Auth.type authConfig with
  | Auth.none => skip
  | Auth.apikey =>
      if Auth.given (Auth.key authConfig) && Auth.given (Auth.value authConfig)
      then
        delete_prop hdrs "Authorization";;
        delete_prop hdrs "authorization";;
        assign_prop hdrs (Auth.text (Auth.key authConfig))
                         (Auth.text (Auth.value authConfig))
      else skip
  | Auth.bearer =>
      if Auth.given (Auth.token authConfig) then
        delete_prop hdrs "X-API-Key";;
        delete_prop hdrs "x-api-key";;
        delete_prop hdrs "X-Auth-Token";;
        delete_prop hdrs "x-auth-token";;
        assign_prop hdrs "Authorization"
                    ("Bearer " +:+ Auth.text (Auth.token authConfig))
      else skip
  | Auth.basic =>
      if Auth.given (Auth.username authConfig)
         && Auth.given (Auth.password authConfig)
      then
        delete_prop hdrs "X-API-Key";;
        delete_prop hdrs "x-api-key";;
        delete_prop hdrs "X-Auth-Token";;
        delete_prop hdrs "x-auth-token";;
        let credentials :=
          btoa native_btoa (Auth.text (Auth.username authConfig) +:+ ":"
                            +:+ Auth.text (Auth.password authConfig)) in
        assign_prop hdrs "Authorization" ("Basic " +:+ credentials)
      else skip
  | Auth.custom =>
      if Auth.given (Auth.header authConfig) && Auth.given (Auth.value authConfig)
      then
        (if String.eqb (toLowerCase (Auth.text (Auth.header authConfig)))
                       "authorization"
         then delete_prop hdrs "X-API-Key";; delete_prop hdrs "x-api-key"
         else skip);;
        assign_prop hdrs (Auth.text (Auth.header authConfig))
                         (Auth.text (Auth.value authConfig))
      else skip
  | Auth.other _ => skip
  end;;
  mret processedRequest.

(** What [applyAuthentication] does to the copy of the header map, as a
    function of the map copied. *)
Definition reconcile (authConfig : Auth.AuthConfig) (m : Headers) : Headers :=
  let without_api_keys (m : Headers) :=
    delete "x-auth-token" (delete "X-Auth-Token"
      (delete "x-api-key" (delete "X-API-Key" m))) in
  match Auth.type authConfig with
  | Auth.apikey =>
      if Auth.given (Auth.key authConfig) && Auth.given (Auth.value authConfig)
      then set_header (Auth.text (Auth.key authConfig))
                      (Auth.text (Auth.value authConfig))
                      (delete "authorization" (delete "Authorization" m))
      else m
  | Auth.bearer =>
      if Auth.given (Auth.token authConfig)
      then set_header "Authorization"
                      ("Bearer " +:+ Auth.text (Auth.token authConfig))
                      (without_api_keys m)
      else m
  | Auth.basic =>
      if Auth.given (Auth.username authConfig)
         && Auth.given (Auth.password authConfig)
      then set_header "Authorization"
             ("Basic " +:+
              btoa native_btoa (Auth.text (Auth.username authConfig) +:+ ":"
                                +:+ Auth.text (Auth.password authConfig)))
             (without_api_keys m)
      else m
  | Auth.custom =>
      if Auth.given (Auth.header authConfig) && Auth.given (Auth.value authConfig)
      then set_header (Auth.text (Auth.header authConfig))
                      (Auth.text (Auth.value authConfig))
                      (if String.eqb (toLowerCase (Auth.text (Auth.header authConfig)))
                                     "authorization"
                       then delete "x-api-key" (delete "X-API-Key" m)
                       else m)
      else m
  | Auth.none | Auth.other _ => m
  end.

End WithHost.

(** The header map that a request carries in a heap. *)
Definition headers_of (h : Heap) (request : Req.Request loc) : Headers :=
  default ∅ (h !! Req.headers request).

End SessionCreator.

(** ** [JSON.parse] *)

Module Json.

Import Js JsString.

Definition is_ws (c : ascii) : bool :=
  Ascii.eqb c " " || (nat_of_ascii c =? 9) || (nat_of_ascii c =? 10)
  || (nat_of_ascii c =? 13).

Fixpoint skip_ws (s : string) : string :=
  match s with
  | EmptyString => EmptyString
  | String c s' => if is_ws c then skip_ws s' else s
  end.

(** The double quote. *)
Definition quote : ascii := ascii_of_nat 34.

Definition hex_value (c : ascii) : option nat :=
  let n := nat_of_ascii c in
  if is_digit c then Some (n - 48)
  else if between 97 102 c then Some (n - 87)
  else if between 65 70 c then Some (n - 55)
  else None.

(** The UTF-8 bytes of a code unit below 65536. *)
Definition utf8 (u : nat) : string :=
  if u <? 128 then String (ascii_of_nat u) ""
  else if u <? 2048 then
    String (ascii_of_nat (192 + u / 64)) (String (ascii_of_nat (128 + u mod 64)) "")
  else
    String (ascii_of_nat (224 + u / 4096))
      (String (ascii_of_nat (128 + (u / 64) mod 64))
         (String (ascii_of_nat (128 + u mod 64)) "")).

Definition unexpected (s : string) : error :=
  match s with
  | EmptyString => SyntaxError "Unexpected end of JSON input"
  | String c _ => SyntaxError ("Unexpected token '" +:+ String c "" +:+ "' in JSON")
  end.

(** The characters of a string literal after its opening quote, and what
    follows the closing quote. *)
Fixpoint string_body (s : string) : error + string * string :=
  let cons (c : string) (r : error + string * string) :=
    match r with
    | inr (body, rest) => inr (c +:+ body, rest)
    | inl e => inl e
    end in
  match s with
  | EmptyString => inl (unexpected s)
  | String c s' =>
      if Ascii.eqb c quote then inr (EmptyString, s')
      else if Ascii.eqb c "\" then
        match s' with
        | EmptyString => inl (unexpected s')
        | String e s'' =>
            if Ascii.eqb e "u" then
              match s'' with
              | String h1 (String h2 (String h3 (String h4 s3))) =>
                  match hex_value h1, hex_value h2, hex_value h3, hex_value h4 with
                  | Some a, Some b, Some c', Some d =>
                      cons (utf8 (((a * 16 + b) * 16 + c') * 16 + d))
                           (string_body s3)
                  | _, _, _, _ => inl (SyntaxError "Bad Unicode escape in JSON")
                  end
              | _ => inl (SyntaxError "Bad Unicode escape in JSON")
              end
            else
              let plain (n : nat) := cons (String (ascii_of_nat n) "") (string_body s'') in
              if Ascii.eqb e quote then plain 34
              else if Ascii.eqb e "\" then plain 92
              else if Ascii.eqb e "/" then plain 47
              else if Ascii.eqb e "b" then plain 8
              else if Ascii.eqb e "f" then plain 12
              else if Ascii.eqb e "n" then plain 10
              else if Ascii.eqb e "r" then plain 13
              else if Ascii.eqb e "t" then plain 9
              else inl (SyntaxError "Bad escaped character in JSON")
        end
      else if nat_of_ascii c <? 32 then
        inl (SyntaxError "Bad control character in string literal in JSON")
      else cons (String c "") (string_body s')
  end.

Definition Z_of_digits (ds : string) : Z := Z.of_N (N_of_digits ds).

(** A number literal at the head of [s] and what follows it: an optional
    minus sign, then [0] or a run of digits that does not start with [0], then
    an optional fraction (a dot and digits) and an optional exponent ([e] or
    [E], a sign, digits). *)
Definition number_literal (s : string) : error + number * string :=
  let '(negative, s1) :=
    match s with String "-" r => (true, r) | _ => (false, s) end in
  let '(int, s2) :=
    match s1 with
    | String "0" r => ("0", r)
    | _ => span is_digit s1
    end in
  if negb (truthy int) then inl (unexpected s1)
  else
    let frac_part :=
      match s2 with
      | String "." r =>
          let '(ds, r') := span is_digit r in
          if truthy ds then inr (ds, r') else inl (unexpected r)
      | _ => inr ("", s2)
      end in
    match frac_part with
    | inl e => inl e
    | inr (frac, s3) =>
        let exp_part :=
          match s3 with
          | String c r =>
              if Ascii.eqb c "e" || Ascii.eqb c "E" then
                let '(minus, r1) :=
                  match r with
                  | String "-" r' => (true, r')
                  | String "+" r' => (false, r')
                  | _ => (false, r)
                  end in
                let '(ds, r2) := span is_digit r1 in
                if truthy ds
                then inr (if minus then (- Z_of_digits ds)%Z else Z_of_digits ds, r2)
                else inl (unexpected r1)
              else inr (0%Z, s3)
          | _ => inr (0%Z, s3)
          end in
        match exp_part with
        | inl e => inl e
        | inr (ex, s4) =>
            let m := Z_of_digits (int +:+ frac) in
            inr (normalize (if negative then (- m)%Z else m)
                           (ex - Z.of_nat (len frac)), s4)
        end
    end.

(** A value at the head of [s] (after white space), and what follows it.
    [elements] and [members] read the rest of an array and of an object after
    its first item. *)
Fixpoint parse_value (fuel : nat) (s : string) : completion (value * string) :=
  match fuel with
  | 0 => OutOfFuel
  | S fuel' =>
      let s := skip_ws s in
      match s with
      | EmptyString => Throw (unexpected s)
      | String c rest =>
          if Ascii.eqb c "{" then
            match skip_ws rest with
            | String "}" rest' => Return (VObj [], rest')
            | _ => members fuel' [] rest
            end
          else if Ascii.eqb c "[" then
            match skip_ws rest with
            | String "]" rest' => Return (VArr [], rest')
            | _ => elements fuel' [] rest
            end
          else if Ascii.eqb c quote then
            match string_body rest with
            | inr (body, rest') => Return (VStr body, rest')
            | inl e => Throw e
            end
          else if startsWith s "true" then Return (VBool true, drop 4 s)
          else if startsWith s "false" then Return (VBool false, drop 5 s)
          else if startsWith s "null" then Return (VNull, drop 4 s)
          else if Ascii.eqb c "-" || is_digit c then
            match number_literal s with
            | inr (n, rest') => Return (VNum n, rest')
            | inl e => Throw e
            end
          else Throw (unexpected s)
      end
  end

with elements (fuel : nat) (acc : list value) (s : string)
  : completion (value * string) :=
  match fuel with
  | 0 => OutOfFuel
  | S fuel' =>
      let* '(v, rest) := parse_value fuel' s in
      match skip_ws rest with
      | String "," rest' => elements fuel' (acc ++ [v]) rest'
      | String "]" rest' => Return (VArr (acc ++ [v]), rest')
      | other => Throw (unexpected other)
      end
  end

with members (fuel : nat) (acc : list (string * value)) (s : string)
  : completion (value * string) :=
  match fuel with
  | 0 => OutOfFuel
  | S fuel' =>
      match skip_ws s with
      | String c rest =>
          if negb (Ascii.eqb c quote) then Throw (unexpected (skip_ws s))
          else
            match string_body rest with
            | inl e => Throw e
            | inr (k, rest) =>
                match skip_ws rest with
                | String ":" rest =>
                    let* '(v, rest) := parse_value fuel' rest in
                    let acc := define_prop k v acc in
                    match skip_ws rest with
                    | String "," rest' => members fuel' acc rest'
                    | String "}" rest' => Return (VObj acc, rest')
                    | other => Throw (unexpected other)
                    end
                | other => Throw (unexpected other)
                end
            end
      | other => Throw (unexpected other)
      end
  end.

(** [JSON.parse(text)] *)
Definition parse (text : string) : completion value :=
  let* '(v, rest) := parse_value (2 * len text + 2) text in
  match skip_ws rest with
  | EmptyString => Return v
  | other => Throw (unexpected other)
  end.

End Json.

(** ** Regular expressions, for [RegExp.prototype.test] *)

Module Regex.

Import JsString.

Inductive regex : Type :=
| Eps
| Chr (class : ascii -> bool)
| Wide (width : string -> nat)
| Seq (a b : regex)
| Alt (a b : regex)
| Star (a : regex)
| LineStart           (* [^] under the [m] flag *)
| LineEnd             (* [$] under the [m] flag *)
| InputStart          (* [^] *)
| InputEnd.           (* [$] *)

(** [Chr] is a class of characters of one byte.  [Wide width] is a class with
    characters of several bytes: [width s] is the number of bytes of its
    member at the head of [s], and 0 when [s] starts with none. *)

(** [a+], a literal character, a literal text, [a{n,}] and [\s]. *)
Definition Plus (a : regex) : regex := Seq a (Star a).

Definition Lit (c : ascii) : regex := Chr (Ascii.eqb c).

Fixpoint Text (s : string) : regex :=
  match s with
  | EmptyString => Eps
  | String c s' => Seq (Lit c) (Text s')
  end.

Fixpoint AtLeast (n : nat) (a : regex) : regex :=
  match n with
  | 0 => Star a
  | S n' => Seq a (AtLeast n' a)
  end.

Definition Space : regex := Wide space_width.

(** A continuation receives the text before the current position, in
    reverse, and the text from it on. *)
Definition cont : Type := string -> string -> bool.

(** Zero or more rounds of [step], each of which must consume something; the
    text has [fuel] characters at most. *)
Fixpoint star_loop (step : cont -> cont) (k : cont) (fuel : nat) : cont :=
  fun before s =>
    k before s
    || match fuel with
       | 0 => false
       | S fuel' =>
           step (fun before' s' =>
                   (len s' <? len s) && star_loop step k fuel' before' s')
                before s
       end.

(** [run r k before s]: some match of [r] at the head of [s] is followed by a
    position that [k] accepts. *)
Fixpoint run (r : regex) (k : cont) : cont :=
  match r with
  | Eps => k
  | Chr class =>
      fun before s =>
        match s with
        | String c s' => class c && k (String c before) s'
        | EmptyString => false
        end
  | Wide width =>
      fun before s =>
        match width s with
        | 0 => false
        | n => k (rev_onto before (take n s)) (drop n s)
        end
  | Seq a b => run a (run b k)
  | Alt a b => fun before s => run a k before s || run b k before s
  | Star a => fun before s => star_loop (run a) k (len s) before s
  | LineStart =>
      fun before s =>
        match before with
        | EmptyString => k before s
        | _ => (0 <? newline_width_end before) && k before s
        end
  | LineEnd =>
      fun before s =>
        match s with
        | EmptyString => k before s
        | _ => (0 <? newline_width s) && k before s
        end
  | InputStart =>
      fun before s =>
        match before with EmptyString => k before s | String _ _ => false end
  | InputEnd =>
      fun before s =>
        match s with EmptyString => k before s | String _ _ => false end
  end.

(** A match of [r] starts at the current position or at a later one. *)
Fixpoint search (r : regex) (before : string) (s : string) : bool :=
  run r (fun _ _ => true) before s
  || match s with
     | EmptyString => false
     | String c s' => search r (String c before) s'
     end.

(** [r.test(s)] *)
Definition test (r : regex) (s : string) : bool := search r EmptyString s.

(** The continuation of a pattern that ends with [$]. *)
Definition at_end : cont := run InputEnd (fun _ _ => true).

End Regex.

(** ** [parsers/environment.ts] *)

Module Environment.

Import JsString Js.

Section WithParser.

(** [String.prototype.toLowerCase] and [JSON.parse], as the host has them. *)
Variable toLowerCase : string -> string.
Variable JSON_parse : string -> completion value.

Record EnvironmentVariable : Type := {
  key : string;
  value : string;
  enabled : bool;
  type : Js.value;
  isSecret : bool
}.

Record PostmanEnvironment : Type := {
  name : string;
  description : Js.value;
  variables : list EnvironmentVariable
}.

Definition SENSITIVE_KEYWORDS : list string :=
  ["token"; "key"; "secret"; "password"; "auth"; "authorization";
   "bearer"; "api_key"; "apikey"; "client_secret"; "access_token";
   "refresh_token"; "private_key"; "credential"; "pass"; "pwd"].

(** The class [[a-zA-Z0-9_\-\.]]. *)
Definition token_char (c : ascii) : bool :=
  is_lower c || is_upper c || is_digit c
  || Ascii.eqb c "_" || Ascii.eqb c "-" || Ascii.eqb c ".".

(** [/^[a-zA-Z0-9_\-\.]{20,}$/] *)
Definition token_pattern : Regex.regex :=
  Regex.Seq Regex.InputStart
    (Regex.Seq (Regex.AtLeast 20 (Regex.Chr token_char)) Regex.InputEnd).

Definition shouldBeSecret (key value : string) : bool :=
  let keyLower := toLowerCase key in
  let keyHasSensitive :=
    existsb (fun keyword => includes keyLower keyword) SENSITIVE_KEYWORDS in
  let valueIsToken := Regex.test token_pattern value && (20 <? len value) in
  keyHasSensitive || valueIsToken.

(** The [filter] and [map] over [data.values]: one variable for each entry
    whose [key] and [value] are strings. *)
Definition variable_of (item : Js.value) : option EnvironmentVariable :=
  if truthy item && typeof_object item then
    match get_prop item "key", get_prop item "value" with
    | VStr k, VStr v =>
        Some {| key := k;
                value := v;
                enabled :=
                  negb (if get_prop item "enabled" is VBool false then true else false);
                type := or_else (get_prop item "type") (VStr "default");
                isSecret := shouldBeSecret k v |}
    | _, _ => None
    end
  else None.

Definition parsePostmanEnvironment (content : string)
  : completion PostmanEnvironment :=
  try_catch
    (let* data := JSON_parse content in
     if negb (truthy data) || negb (typeof_object data) then
       Throw (Error "Invalid environment file: not a valid JSON object")
     else if negb (truthy (get_prop data "name"))
             || negb (typeof_string (get_prop data "name")) then
       Throw (Error "Invalid environment file: missing or invalid name field")
     else if negb (isArray (get_prop data "values")) then
       Throw (Error "Invalid environment file: missing or invalid values array")
     else
       let variables := omap variable_of (elements (get_prop data "values")) in
       if length variables =? 0 then
         Throw (Error "Invalid environment file: no valid variables found")
       else
         Return {| name := text (get_prop data "name");
                   description := or_else (get_prop data "description") VUndefined;
                   variables := variables |})
    (fun error =>
       if error is SyntaxError _
       then Throw (Error "Invalid environment file: malformed JSON")
       else Throw error).

(** [a && b] *)
Definition and_then (a b : Js.value) : Js.value := if truthy a then b else a.

(** [isPostmanEnvironment(content, fileName)].  The function is declared to
    return a boolean; what it returns at the end is the value of
    [(hasPostmanScope || hasPostmanExport) && hasEnvironmentInName], which is
    the falsy [_postman_exported_at] itself when that decides. *)
Definition isPostmanEnvironment (content fileName : string)
  : completion Js.value :=
  try_catch
    (let* data := JSON_parse content in
     let* name_ := get data "name" in
     if negb (truthy name_) || negb (typeof_string name_) then Return (VBool false)
     else
       let* values := get data "values" in
       if negb (truthy values) || negb (isArray values) then Return (VBool false)
       else
         let* scope := get data "_postman_variable_scope" in
         let hasPostmanScope := VBool (is_string scope "environment") in
         let* exported := get data "_postman_exported_at" in
         let hasPostmanExport := and_then exported (VBool (typeof_string exported)) in
         let hasEnvironmentInName :=
           VBool (includes (toLowerCase fileName) "environment"
                  || includes (toLowerCase fileName) "env") in
         Return (and_then (or_else hasPostmanScope hasPostmanExport)
                          hasEnvironmentInName))
    (fun _ => Return (VBool false)).


(** *** The vocabulary of the properties *)

(** The value is a string of more than twenty characters, all of them
    letters, digits, underscores, hyphens or dots. *)
Definition long_token (value : string) : Prop :=
  20 < len value ∧ forallb token_char value = true.

(** The lowercased key contains one of the sensitive keywords. *)
Definition sensitive_key (key : string) : Prop :=
  ∃ keyword, In keyword SENSITIVE_KEYWORDS
             ∧ includes (toLowerCase key) keyword = true.

(** The filename condition of the detector. *)
Definition environment_in_name (fileName : string) : Prop :=
  includes (toLowerCase fileName) "environment" = true
  ∨ includes (toLowerCase fileName) "env" = true.

(** The conditions of the detector on the parsed document. *)
Definition environment_shape (data : Js.value) : Prop :=
  (∃ n, get_prop data "name" = VStr n ∧ n ≠ "")
  ∧ (∃ values, get_prop data "values" = VArr values)
  ∧ (get_prop data "_postman_variable_scope" = VStr "environment"
     ∨ ∃ t, get_prop data "_postman_exported_at" = VStr t ∧ t ≠ "").

(** The detector as one boolean test of the parsed document. *)
Definition environment_test (data : Js.value) (fileName : string) : bool :=
  (truthy (get_prop data "name") && typeof_string (get_prop data "name"))
  && (truthy (get_prop data "values") && isArray (get_prop data "values"))
  && (is_string (get_prop data "_postman_variable_scope") "environment"
      || (truthy (get_prop data "_postman_exported_at")
          && typeof_string (get_prop data "_postman_exported_at")))
  && (includes (toLowerCase fileName) "environment"
      || includes (toLowerCase fileName) "env").

End WithParser.

End Environment.

(** ** [utils/fileDetection.ts] *)

Module FileDetection.

Import JsString Js.

Section WithHost.

(** [String.prototype.toLowerCase], as the host has it. *)
Variable toLowerCase : string -> string.

Inductive FileType : Type := postman | openapi | environment | unknown.

Record FileTypeResult : Type := {
  type : FileType;
  confidence : number;
  details : string
}.

Definition type_name (t : FileType) : string :=
  match t with
  | postman => "postman"
  | openapi => "openapi"
  | environment => "environment"
  | unknown => "unknown"
  end.

(** The confidence scores [0.95], [0.6] and [0]. *)
Definition confidence_high : number := Dec 95 (-2).
Definition confidence_name : number := Dec 6 (-1).
Definition confidence_none : number := Dec 0 0.

(** The result is read for its truth value only. *)
Definition isPostmanCollection (data : value) : completion bool :=
  let* info := get data "info" in
  if negb (truthy info) || negb (typeof_object info) then Return false
  else if negb (truthy (get_prop info "name"))
          || negb (typeof_string (get_prop info "name")) then Return false
  else
    let hasPostmanSchema :=
      truthy (get_prop info "schema")
      && typeof_string (get_prop info "schema")
      && includes (text (get_prop info "schema")) "postman" in
    let hasPostmanStructure :=
      truthy (get_prop data "item") && isArray (get_prop data "item") in
    let hasPostmanVersion :=
      truthy (get_prop info "_postman_id")
      || truthy (get_prop info "version")
      || hasPostmanSchema in
    Return (hasPostmanSchema || (hasPostmanStructure && hasPostmanVersion)).

(** Called on a value that [isPostmanCollection] has read a property of, so
    one that is neither [null] nor [undefined]. *)
Definition isOpenAPISpec (data : value) : bool :=
  let openapi_ := get_prop data "openapi" in
  let swagger := get_prop data "swagger" in
  let info := get_prop data "info" in
  let paths := get_prop data "paths" in
  if truthy openapi_ && typeof_string openapi_ then
    startsWith (text openapi_) "3."
  else if truthy swagger && typeof_string swagger then
    startsWith (text swagger) "2."
  else if truthy info && truthy paths && typeof_object info && typeof_object paths
  then
    match map fst (entries paths) with
    | key0 :: _ =>
        if JsString.truthy key0 then
          let firstPath := get_prop paths key0 in
          if truthy firstPath && typeof_object firstPath then
            existsb (fun method => has_prop method firstPath)
                    ["get"; "post"; "put"; "patch"; "delete"; "head"; "options"]
          else false
        else false
    | [] => false
    end
  else false.

Definition detectFromFilename (fileName : string) : FileType :=
  let lowerName := toLowerCase fileName in
  if existsb (includes lowerName)
       ["environment"; "env"; ".postman_environment."; "_environment.";
        "postman_env"]
  then environment
  else if existsb (includes lowerName)
       ["postman_collection"; "collection"; "newman"; ".postman_collection.";
        "_collection."; "api_collection"; "requests"]
  then postman
  else if existsb (includes lowerName)
       ["openapi"; "swagger"; "api-docs"; "api_spec"; "spec.json"; "spec.yaml";
        "spec.yml"; "oas"; "rest-api"]
  then openapi
  else if endsWith lowerName ".yaml" || endsWith lowerName ".yml" then openapi
  else unknown.

(** The four patterns of [yamlIndicators], all under the [m] flag:
    a document separator, a key followed by a colon, a list item, a key-value
    pair. *)
Definition word_or_dash (c : ascii) : bool := is_word c || Ascii.eqb c "-".

Definition yamlIndicators : list Regex.regex :=
  let seq := fold_right Regex.Seq Regex.Eps in
  let spaces := Regex.Star Regex.Space in
  [ (* ^---\s*$ *)
    seq [Regex.LineStart; Regex.Text "---"; spaces; Regex.LineEnd];
    (* ^\s*\w+:\s*$ *)
    seq [Regex.LineStart; spaces; Regex.Plus (Regex.Chr is_word);
         Regex.Lit ":"; spaces; Regex.LineEnd];
    (* ^\s*-\s+ *)
    seq [Regex.LineStart; spaces; Regex.Lit "-"; Regex.Plus Regex.Space];
    (* ^\s*[\w-]+:\s+[\w-] *)
    seq [Regex.LineStart; spaces; Regex.Plus (Regex.Chr word_or_dash);
         Regex.Lit ":"; Regex.Plus Regex.Space;
         Regex.Chr word_or_dash] ].

(** The number of patterns of [yamlIndicators] that match [content]. *)
Definition indicatorCount (content : string) : nat :=
  length (filter (fun indicator => Regex.test indicator content = true)
                 yamlIndicators).

Definition hasJsonIndicators (content : string) : bool :=
  startsWith (trim content) "{" || startsWith (trim content) "[".

Definition isLikelyYAML (content fileName : string) : bool :=
  if endsWith (toLowerCase fileName) ".yaml"
     || endsWith (toLowerCase fileName) ".yml"
  then true
  else (2 <=? indicatorCount content) && negb (hasJsonIndicators content).

Definition yaml_message : string :=
  "YAML files are not currently supported. Please convert to JSON format.".

Definition json_error_prefix : string :=
  "File is not valid JSON and does not appear to be YAML: ".

Section WithParser.

(** [JSON.parse] *)
Variable JSON_parse : string -> completion value.

Definition quoted (s : string) : string :=
  String Json.quote s +:+ String Json.quote "".

Definition detectFileType (content fileName : string)
  : completion FileTypeResult :=
  try_catch
    (let* data := JSON_parse content in
     let* is_postman := isPostmanCollection data in
     if is_postman then
       Return {| type := postman;
                 confidence := confidence_high;
                 details :=
                   "Postman collection detected - contains info.name: "
                   +:+ quoted (toString (get_opt (get_prop data "info") "name")) |}
     else if isOpenAPISpec data then
       let version := or_else (get_prop data "openapi") (get_prop data "swagger") in
       Return {| type := openapi;
                 confidence := confidence_high;
                 details :=
                   "OpenAPI specification detected - version: "
                   +:+ toString version |}
     else
       let* isEnvFile :=
         Environment.isPostmanEnvironment toLowerCase JSON_parse content fileName in
       if truthy isEnvFile then
         Return {| type := environment;
                   confidence := confidence_high;
                   details :=
                     "Postman environment detected - name: "
                     +:+ quoted (toString (get_prop data "name")) |}
       else
         let fileTypeFromName := detectFromFilename fileName in
         if negb (if fileTypeFromName is unknown then true else false) then
           Return {| type := fileTypeFromName;
                     confidence := confidence_name;
                     details :=
                       "Detected from filename pattern. Please verify content is valid "
                       +:+ type_name fileTypeFromName +:+ " format." |}
         else
           Return {| type := unknown;
                     confidence := confidence_none;
                     details :=
                       "Valid JSON but does not match Postman collection or OpenAPI specification format" |})
    (fun jsonError =>
       if isLikelyYAML content fileName then
         Return {| type := unknown;
                   confidence := confidence_none;
                   details := yaml_message |}
       else
         Return {| type := unknown;
                   confidence := confidence_none;
                   details := json_error_prefix +:+ message jsonError |}).

End WithParser.

(** The verdict of the [catch] clause: [unknown] with confidence 0; the YAML
    message when the lowercased file name ends in [.yaml] or [.yml], or when
    two patterns at least match and the trimmed content does not start with a
    brace or a bracket; the message of the error otherwise. *)
Definition yaml_extension (fileName : string) : bool :=
  endsWith (toLowerCase fileName) ".yaml" || endsWith (toLowerCase fileName) ".yml".

Definition yaml_heuristics (content : string) : bool :=
  (2 <=? indicatorCount content) && negb (hasJsonIndicators content).

Definition failure_verdict (content fileName : string) (e : error)
  : FileTypeResult :=
  {| type := unknown;
     confidence := confidence_none;
     details := if yaml_extension fileName || yaml_heuristics content
                then yaml_message
                else json_error_prefix +:+ message e |}.

End WithHost.

End FileDetection.

(** ** [parsers/postman.ts] *)

Module Postman.

Import JsString Js.

(** The request object that [parsePostmanRequest] builds.  It is declared a
    [PostmanRequest], but its fields hold whatever the collection holds. *)
Record ParsedBody : Type := {
  mode : value;
  raw : option value;
  formdata : option (list value)
}.

Record ParsedRequest : Type := {
  id : value;
  name : value;
  method : string;
  url : value;
  headers : list (string * value);
  body : option ParsedBody;
  auth : option value
}.

Record PostmanCollection : Type := {
  collection_name : value;
  description : value;
  requests : list ParsedRequest;
  collection_auth : value
}.

(** [x.toUpperCase()], [x.join(sep)]: a [TypeError] on a value without the
    method. *)
Definition toUpperCase_of (v : value) : completion string :=
  match v with
  | VStr s => Return (toUpperCase s)
  | _ => Throw (TypeError "toUpperCase is not a function")
  end.

Definition join_of (v : value) (sep : string) : completion string :=
  match v with
  | VArr items =>
      Return (join sep (map (fun x => match x with
                                      | VUndefined | VNull => ""
                                      | _ => toString x
                                      end) items))
  | _ => Throw (TypeError "join is not a function")
  end.

(** The loop over [request.header]. *)
Fixpoint collect_headers (entries : list value) (headers : list (string * value))
  : completion (list (string * value)) :=
  match entries with
  | [] => Return headers
  | header :: rest =>
      let* k := get header "key" in
      if truthy k && truthy (get_prop header "value")
         && negb (truthy (get_prop header "disabled"))
      then collect_headers rest
             (set_prop (toString k) (get_prop header "value") headers)
      else collect_headers rest headers
  end.

(** [formdata.filter(item => !item.disabled)] *)
Fixpoint filter_enabled (items : list value) : completion (list value) :=
  match items with
  | [] => Return []
  | item :: rest =>
      let* disabled := get item "disabled" in
      let* kept := filter_enabled rest in
      Return (if truthy disabled then kept else item :: kept)
  end.

(** [parsePostmanRequest(sdk, item)]; [stamp] is the text that
    [Date.now()] and [Math.random()] contribute to a generated [id], and [None]
    is [null]. *)
Definition parsePostmanRequest (stamp : string) (item : value)
  : completion (option ParsedRequest) :=
  try_catch
    (let* request := get item "request" in
     if negb (truthy request) then Return None
     else
       let url_ := get_prop request "url" in
       let* url :=
         if typeof_string url_ then Return url_
         else if truthy url_ && truthy (get_prop url_ "raw") then
           Return (get_prop url_ "raw")
         else if truthy url_ && truthy (get_prop url_ "protocol")
                 && truthy (get_prop url_ "host") then
           let* host := join_of (get_prop url_ "host") "." in
           let url := toString (get_prop url_ "protocol") +:+ "://" +:+ host in
           let url :=
             if truthy (get_prop url_ "port")
             then url +:+ ":" +:+ toString (get_prop url_ "port") else url in
           if truthy (get_prop url_ "path") then
             let* path := join_of (get_prop url_ "path") "/" in
             Return (VStr (url +:+ "/" +:+ path))
           else Return (VStr url)
         else Return (VStr "") in
       let* headers :=
         if truthy (get_prop request "header") && isArray (get_prop request "header")
         then collect_headers (elements (get_prop request "header")) []
         else Return [] in
       let* method := toUpperCase_of (or_else (get_prop request "method") (VStr "GET")) in
       let body_ := get_prop request "body" in
       let* body :=
         if truthy body_ then
           let* formdata :=
             if truthy (get_prop body_ "formdata") && isArray (get_prop body_ "formdata")
             then let* kept := filter_enabled (elements (get_prop body_ "formdata")) in
                  Return (Some kept)
             else Return None in
           Return (Some {| mode := or_else (get_prop body_ "mode") (VStr "raw");
                           raw := if truthy (get_prop body_ "raw")
                                  then Some (get_prop body_ "raw") else None;
                           formdata := formdata |})
         else Return None in
       Return (Some {|
         id := or_else (get_prop item "id") (VStr (method +:+ "_" +:+ stamp));
         name := or_else (get_prop item "name")
                         (VStr (method +:+ " " +:+ toString url));
         method := method;
         url := url;
         headers := headers;
         body := body;
         auth := if truthy (get_prop request "auth")
                 then Some (get_prop request "auth") else None |}))
    (fun _ => Return None).

(** What [for (const item of items)] iterates over. *)
Definition iterate (items : value) : completion (list value) :=
  match items with
  | VArr l => Return l
  | VStr s => Return (map VStr (characters s))
  | _ => Throw (TypeError "items is not iterable")
  end.

(** [extractPostmanRequests(sdk, items)].  [stamps] gives the stamp of the
    n-th request parsed; the count of the requests parsed so far is threaded
    through.  A folder is a part of the value that holds it, so the number of
    arrays and objects in the collection bounds the depth of the recursion. *)
Section Extract.

Variable stamps : nat -> string.

Fixpoint extractPostmanRequests (fuel : nat) (items : value) (count : nat)
  : completion (list ParsedRequest * nat) :=
  match fuel with
  | 0 => OutOfFuel
  | S fuel' =>
      let* items := iterate items in
      (fix loop (items : list value) (requests : list ParsedRequest) (count : nat)
         : completion (list ParsedRequest * nat) :=
         match items with
         | [] => Return (requests, count)
         | item :: rest =>
             let* request_ := get item "request" in
             if truthy request_ then
               let* request := parsePostmanRequest (stamps count) item in
               match request with
               | Some r => loop rest (requests ++ [r]) (S count)
               | None => loop rest requests (S count)
               end
             else if truthy (get_prop item "item") then
               let* '(folderRequests, count) :=
                 extractPostmanRequests fuel' (get_prop item "item") count in
               loop rest (requests ++ folderRequests) count
             else loop rest requests count
         end) items [] count
  end.

(** [JSON.parse] *)
Variable JSON_parse : string -> completion value.

Definition parsePostmanCollection (content : string)
  : completion PostmanCollection :=
  try_catch
    (let* data := JSON_parse content in
     let* info := get data "info" in
     if negb (truthy info) || negb (truthy (get_prop info "name")) then
       Throw (Error "Invalid Postman collection: missing info.name")
     else
       let items := or_else (get_prop data "item") (VArr []) in
       let* '(requests, _) := extractPostmanRequests (S (size items)) items 0 in
       Return {| collection_name := get_prop info "name";
                 description := get_prop info "description";
                 requests := requests;
                 collection_auth := get_prop data "auth" |})
    (fun error =>
       Throw (Error ("Failed to parse Postman collection: " +:+ message error))).

End Extract.

(** The request as the [PostmanRequest] it is declared to be, when its fields
    hold values of the declared types. *)
Definition as_string (v : value) : option string :=
  match v with VStr s => Some s | _ => None end.

Definition as_form_field (v : value) : option Req.FormField :=
  k ← as_string (get_prop v "key");
  t ← as_string (get_prop v "type");
  match get_prop v "value" with
  | VStr s => Some {| Req.key := k; Req.value := Some s; Req.type := t |}
  | VUndefined => Some {| Req.key := k; Req.value := None; Req.type := t |}
  | _ => None
  end.

Definition as_body (b : ParsedBody) : option Req.Body :=
  m ← as_string (mode b);
  r ← match raw b with
      | Some v => Some <$> as_string v
      | None => Some None
      end;
  f ← match formdata b with
      | Some items => Some <$> mapM as_form_field items
      | None => Some None
      end;
  Some (Req.PostmanBody m r f).

Definition as_PostmanRequest (r : ParsedRequest)
  : option (Req.Request (gmap string string)) :=
  i ← as_string (id r);
  n ← as_string (name r);
  u ← as_string (url r);
  h ← mapM (fun kv => pair (fst kv) <$> as_string (snd kv)) (headers r);
  b ← match body r with
      | Some b => Some <$> as_body b
      | None => Some None
      end;
  Some {| Req.id := i; Req.name := n; Req.method := method r; Req.url := u;
          Req.headers := list_to_map h; Req.body := b; Req.auth := auth r;
          Req.parameters := None |}.

End Postman.

(** ** [parsers/openapi.ts]: schema references and example generation *)

Module OpenAPI.

Import JsString Js.

(** The set of visited references, a [Set<string>]. *)
Abbreviation Visited := (gset string).

(** [visited.has(ref)]: the set holds strings only. *)
Definition has (visited : Visited) (ref : value) : bool :=
  match ref with
  | VStr r => bool_decide (r ∈ visited)
  | _ => false
  end.

(** [visited.add(ref)] for a string [ref]. *)
Definition add_ref (ref : value) (visited : Visited) : Visited :=
  match ref with
  | VStr r => {[r]} ∪ visited
  | _ => visited
  end.

(** The placeholder for a reference met twice in one chain. *)
Definition circular (ref : value) : value :=
  VObj [("type", VStr "object");
        ("description", VStr ("Circular reference to " +:+ toString ref))].

(** The loop of [resolveSchemaRef] over the segments of the path; [None] is
    the early [return null].  [segment in current] holds of inherited members
    too, and [current[segment]] reads them, so that the loop can leave the
    document for an object of the host; there it stops at a function, which
    is no object for [typeof], and goes on at a prototype. *)
Fixpoint walk (path : list string) (current : reached) : option reached :=
  match path with
  | [] => Some current
  | segment :: rest =>
      match current with
      | Value current =>
          if negb (truthy current) || negb (typeof_object current)
             || negb (has_prop segment current)
          then None
          else walk rest (read current segment)
      | Host current =>
          match host_member current segment with
          | Some next => walk rest next
          | None => None
          end
      end
  end.

(** [resolveSchemaRef(ref, spec, visited)].  An object of the host is
    returned as it is: a function is no object for [typeof], and a prototype
    has no [$ref]. *)
Fixpoint resolveSchemaRef (fuel : nat) (ref spec : value) (visited : Visited)
  : completion reached :=
  match fuel with
  | 0 => OutOfFuel
  | S fuel' =>
      if has visited ref then Return (Value (circular ref))
      else
        match ref with
        | VStr r =>
            let visited := add_ref ref visited in
            if negb (startsWith r "#/") then Return (Value VNull)
            else
              let path := split (drop 2 r) "/" in
              match walk path (Value spec) with
              | None => Return (Value VNull)
              | Some (Value current) =>
                  if truthy current && typeof_object current
                     && truthy (get_prop current "$ref")
                  then resolveSchemaRef fuel' (get_prop current "$ref") spec visited
                  else Return (Value current)
              | Some (Host current) => Return (Host current)
              end
        | _ => Throw (TypeError "ref.startsWith is not a function")
        end
  end.

Section WithHost.

(** [ToNumber(s) > 0] for a string [s]: the host's reading of a numeric
    string. *)
Variable string_positive : string -> bool.

(** [v > 0] *)
Definition gt_zero (v : value) : bool :=
  match v with
  | VUndefined | VNull => false
  | VBool b => b
  | VNum n => (0 <? mantissa n)%Z
  | VStr s => string_positive s
  | VArr _ | VObj _ => string_positive (toString v)
  end.

(** [schema.enum && schema.enum.length > 0] *)
Definition has_enum (schema : value) : bool :=
  truthy (get_prop schema "enum")
  && gt_zero (get_prop (get_prop schema "enum") "length").

(** A call of [generateExampleFromSchema] on a part of the schema, with the
    set of visited references before and after. *)
Definition generator : Type := value -> Visited -> completion (value * Visited).

(** The loop over [Object.entries(schema.properties)]. *)
Fixpoint properties_loop (generate : generator) (entries : list (string * value))
    (obj : list (string * value)) (visited : Visited)
  : completion (list (string * value) * Visited) :=
  match entries with
  | [] => Return (obj, visited)
  | (propName, propSchema) :: rest =>
      let* '(propExample, visited) := generate propSchema visited in
      properties_loop generate rest
        (if negb (is_null propExample) then set_prop propName propExample obj
         else obj)
        visited
  end.

(** The loop over [schema.required].  [schema.properties[requiredProp]] may
    be a method that [schema.properties] inherits; the call of the generator
    on it returns [null], as a function is no object for [typeof]. *)
Fixpoint required_loop (generate : generator) (properties : value)
    (required : list value) (obj : list (string * value)) (visited : Visited)
  : completion (list (string * value) * Visited) :=
  match required with
  | [] => Return (obj, visited)
  | requiredProp :: rest =>
      let k := toString requiredProp in
      if negb (has_prop k (VObj obj)) && truthy properties
         && truthy_reached (read properties k)
      then
        let* '(propExample, visited) :=
          match read properties k with
          | Value part => generate part visited
          | Host _ => Return (VNull, visited)
          end in
        required_loop generate properties rest
          (if negb (is_null propExample) then set_prop k propExample obj
           else set_prop k (VStr "required_value") obj)
          visited
      else required_loop generate properties rest obj visited
  end.

(** [generateExampleFromSchema(schema, spec, visited)].  The set [visited] is
    one object shared by the whole recursion, so each call returns it as it
    leaves it; [resolveSchemaRef] is handed a copy, whose changes are lost.
    A reference that resolves to an object of the host is followed by a call
    that returns [null] at once: a function is no object for [typeof], and a
    prototype has neither [$ref], [example] nor [type]. *)
Fixpoint generateExampleFromSchema (fuel : nat) (schema spec : value)
    (visited : Visited) : completion (value * Visited) :=
  match fuel with
  | 0 => OutOfFuel
  | S fuel' =>
      if negb (truthy schema) || negb (typeof_object schema) then
        Return (VNull, visited)
      else if truthy (get_prop schema "$ref") then
        if has visited (get_prop schema "$ref") then Return (VNull, visited)
        else
          let* resolvedSchema :=
            resolveSchemaRef fuel (get_prop schema "$ref") spec visited in
          match resolvedSchema with
          | Value resolvedSchema =>
              if truthy resolvedSchema then
                generateExampleFromSchema fuel' resolvedSchema spec
                  (add_ref (get_prop schema "$ref") visited)
              else Return (VNull, visited)
          | Host _ =>
              Return (VNull, add_ref (get_prop schema "$ref") visited)
          end
      else if negb (is_undefined (get_prop schema "example")) then
        Return (get_prop schema "example", visited)
      else
        let type := get_prop schema "type" in
        if is_string type "string" then
          if has_enum schema then
            Return (get_prop (get_prop schema "enum") "0", visited)
          else if is_string (get_prop schema "format") "email" then
            Return (VStr "user@example.com", visited)
          else if is_string (get_prop schema "format") "date" then
            Return (VStr "2024-01-01", visited)
          else if is_string (get_prop schema "format") "date-time" then
            Return (VStr "2024-01-01T00:00:00Z", visited)
          else if is_string (get_prop schema "format") "uuid" then
            Return (VStr "550e8400-e29b-41d4-a716-446655440000", visited)
          else
            Return (if truthy (get_prop schema "pattern") then VStr "example"
                    else VStr "string", visited)
        else if is_string type "number" || is_string type "integer" then
          if has_enum schema then
            Return (get_prop (get_prop schema "enum") "0", visited)
          else
            Return (if negb (is_undefined (get_prop schema "minimum"))
                    then get_prop schema "minimum" else VNum (of_Z 0), visited)
        else if is_string type "boolean" then
          Return (VBool true, visited)
        else if is_string type "array" then
          if truthy (get_prop schema "items") then
            let* '(itemExample, visited) :=
              generateExampleFromSchema fuel' (get_prop schema "items") spec visited in
            Return (if negb (is_null itemExample) then VArr [itemExample]
                    else VArr [], visited)
          else Return (VArr [], visited)
        else if is_string type "object" then
          let generate : generator :=
            fun part visited => generateExampleFromSchema fuel' part spec visited in
          let properties := get_prop schema "properties" in
          let* '(obj, visited) :=
            if truthy properties
            then properties_loop generate (entries properties) [] visited
            else Return ([], visited) in
          let* '(obj, visited) :=
            if truthy (get_prop schema "required")
               && isArray (get_prop schema "required")
            then required_loop generate properties
                   (elements (get_prop schema "required")) obj visited
            else Return (obj, visited) in
          Return (if 0 <? length obj then VObj obj else VNull, visited)
        else Return (VNull, visited)
  end.

End WithHost.


(** The reference strings of a value: the strings that some object in it
    holds under the key [$ref]. *)
Fixpoint refs_of (v : value) : Visited :=
  match v with
  | VObj props =>
      (match assoc "$ref" props with
       | Some (VStr r) => {[r]}
       | _ => ∅
       end)
      ∪ ⋃ (map (fun kv => refs_of (snd kv)) props)
  | VArr items => ⋃ (map refs_of items)
  | _ => ∅
  end.

(** No schema that a reference resolves to is larger than this: it is a part
    of the document or the placeholder of a circular reference. *)
Definition largest_resolved (spec : value) : nat := S (Js.size spec).

(** The number of the references of [U] not visited yet. *)
Definition remaining (U visited : Visited) : nat := base.size (U ∖ visited).

(** The call completes, and the set of visited references it returns
    includes [visited]. *)
Definition grows (visited : Visited) (result : completion (value * Visited))
  : Prop :=
  completes (fun r => visited ⊆ r.2) result.

(** What the loops need of the generator they call: on a part smaller than
    [bound] that holds references of [U] only, from a set of visited
    references that includes [visited], it completes and returns a set that
    includes the one it was given. *)
Definition sound_generator (U : Visited) (generate : generator)
    (visited : Visited) (bound : nat) : Prop :=
  ∀ (part : value) (vis : Visited),
    visited ⊆ vis -> Js.size part < bound -> refs_of part ⊆ U ->
    grows vis (generate part vis).

(** A bound on the depth of the recursion of [generateExampleFromSchema]:
    between two references the recursion descends into the schema at hand,
    and it follows each reference string of the schema and of the document
    once at most. *)
Definition depth_bound (schema spec : value) : nat :=
  S (base.size (refs_of schema ∪ refs_of spec) * S (S (Js.size spec))
     + Js.size schema).

End OpenAPI.

(** ** Concrete inputs: the scenarios of the specification *)

Module Scenarios.

Import SessionCreator.

(** A JSON text is written with apostrophes in place of its double quotes. *)
Fixpoint quotes (s : string) : string :=
  match s with
  | EmptyString => EmptyString
  | String c s' => String (if Ascii.eqb c "'" then Json.quote else c) (quotes s')
  end.

(** A request with the given method and url, by value and in a heap. *)
Definition request_of {H} (method url : string) (headers : H) : Req.Request H :=
  {| Req.id := "1"; Req.name := "A"; Req.method := method; Req.url := url;
     Req.headers := headers; Req.body := None; Req.auth := None;
     Req.parameters := None |}.

(** Scenario 1: a Postman collection with one request. *)
Definition collection_text : string :=
  quotes "{'info':{'name':'X'},'item':[{'name':'A','request':{'method':'get','url':'https://a.com/x?q=1'}}]}".

(** Scenario 4: a bearer token applied to a request that carries
    [X-API-Key: K]; the header object is at address 1. *)
Definition scenario_request : Req.Request loc :=
  request_of "GET" "https://a.com/x" 1%positive.

Definition scenario_heap : Heap :=
  {[ 1%positive := {[ "X-API-Key" := "K" ]} ]}.

Definition bearer_T1 : Auth.AuthConfig :=
  {| Auth.type := Auth.bearer; Auth.key := None; Auth.value := None;
     Auth.token := Some "T1"; Auth.username := None; Auth.password := None;
     Auth.header := None; Auth.hostname := None |}.

Definition basic_without_password : Auth.AuthConfig :=
  {| Auth.type := Auth.basic; Auth.key := None; Auth.value := None;
     Auth.token := None; Auth.username := Some "user"; Auth.password := Some "";
     Auth.header := None; Auth.hostname := None |}.

(** A no-break space, U+00A0, and a high surrogate without its partner,
    U+D800, by their bytes. *)
Definition no_break_space : string :=
  String (ascii_of_nat 194) (String (ascii_of_nat 160) "").

Definition lone_surrogate : string :=
  String (ascii_of_nat 237) (String (ascii_of_nat 160) (String (ascii_of_nat 128) "")).

(** A request whose form data cannot be encoded. *)
Definition unencodable_request : Req.Request Headers :=
  {| Req.id := "1"; Req.name := "form"; Req.method := "POST";
     Req.url := "https://a.com/form";
     Req.headers := ∅;
     Req.body :=
       Some (Req.PostmanBody "urlencoded" None
               (Some [ {| Req.key := "k"; Req.value := Some lone_surrogate;
                          Req.type := "text" |} ]));
     Req.auth := None; Req.parameters := None |}.

(** The query and fragment that the naming property appends to a url. *)
Definition query_suffix : string := "?x=1#y".

(** Scenario 5: a templated url. *)
Definition templated_url : string := "{{baseUrl}}/v1/items/{{id}}".

(** Scenario 3: an environment export. *)
Definition environment_text : string :=
  quotes "{'name':'Dev','values':[{'key':'api_token','value':'abcdef0123456789ABCDEF01'}],'_postman_variable_scope':'environment'}".


(** A document with a name and values, and neither scope nor export date. *)
Definition unmarked_environment_text : string :=
  quotes "{'name':'a','values':[]}".

Definition twenty_chars_entry : Js.value :=
  Js.VObj [("key", Js.VStr "x"); ("value", Js.VStr "abcdefghij0123456789")].

(** A document whose schema [Node] refers to itself, and whose schemas [A]
    and [B] refer to each other. *)
Definition circular_spec_text : string :=
  quotes "{'openapi':'3.0.0','components':{'schemas':{'Node':{'type':'object','properties':{'id':{'type':'integer'},'next':{'$ref':'#/components/schemas/Node'}}},'A':{'$ref':'#/components/schemas/B'},'B':{'$ref':'#/components/schemas/A'}}}}".

Definition ref_to (name : string) : Js.value :=
  Js.VObj [("$ref", Js.VStr ("#/components/schemas/" +:+ name))].

End Scenarios.

(** ** The vocabulary of the properties of urls *)

Module UrlText.

Import JsString SessionCreator.

(** The classes of the pattern of [parseUrl], byte by byte: a byte of the
    host is neither a colon, a slash nor a blank of ASCII; a byte of the path
    is neither a blank nor a question mark. *)
Definition host_char (c : ascii) : bool := negb (char_in ":/" c || is_space c).

Definition path_char (c : ascii) : bool := negb (is_space c || Ascii.eqb c "?").

Definition query_char (c : ascii) : bool := negb (is_space c).

(** The text holds no character outside a negated class of the pattern: no
    position of it starts a character that ends the class. *)
Fixpoint free_of (stop : string -> bool) (s : string) : bool :=
  match s with
  | EmptyString => true
  | String _ s' => negb (stop s) && free_of stop s'
  end.

(** The hostname argument is given and is not blank. *)
Definition override (hostname : option string) : bool :=
  Auth.given hostname && truthy (trim (Auth.text hostname)).

(** The url holds a template: it contains both pairs of braces. *)
Definition templated (url : string) : bool :=
  includes url "{{" && includes url "}}".

(** The characters of a body encoded as [application/x-www-form-urlencoded]:
    those that [encodeURIComponent] keeps, the percent sign of its escapes,
    and the two separators. *)
Definition form_char (c : ascii) : bool :=
  is_word c || char_in "-.!~*'()%=&" c.

Definition url_encoded : string := "application/x-www-form-urlencoded".

End UrlText.

(** ** The shapes of url that the naming function tells apart *)

Module UrlShape.

Import JsString.

(** [shaped url path]: [url] is of one of the four shapes, and [path] is the
    part of it that the shape designates: what follows the host of a url with
    a scheme; what follows the last template of a templated url; a
    root-relative url itself; a bare relative url behind a slash. *)
Inductive shaped : string -> string -> Prop :=
| shaped_absolute (scheme host path : string) :
    absent ":" scheme = true -> absent "/" host = true ->
    startsWith path "/" = true ->
    shaped (scheme +:+ "://" +:+ host +:+ path) path
| shaped_templated (template path : string) :
    includes (template +:+ "}}" +:+ path) "://" = false ->
    includes path "}}" = false ->
    startsWith path "/" = true ->
    shaped (template +:+ "}}" +:+ path) path
| shaped_rooted (path : string) :
    includes path "}}" = false ->
    startsWith path "/" = true ->
    shaped path path
| shaped_bare (url : string) :
    includes url "}}" = false ->
    startsWith url "/" = false ->
    shaped url ("/" +:+ url).

(** The path holds no query, no fragment and no run of slashes. *)
Definition clean (path : string) : Prop :=
  includes path "?" = false ∧ includes path "#" = false
  ∧ includes path "//" = false.

End UrlShape.

(** ** Further inputs of the authentication reconciler *)

Module AuthScenarios.

Import JsString SessionCreator.

(** A request whose header object, at address 1, carries an [Authorization]
    header and two API-key headers. *)
Definition keyed_heap : Heap :=
  {[ 1%positive := {[ "Authorization" := "Bearer old"; "X-API-Key" := "K";
                      "X-Auth-Token" := "T" ]} ]}.

Definition with_type (t : Auth.AuthType) : Auth.AuthConfig :=
  {| Auth.type := t; Auth.key := Some "X-Key"; Auth.value := Some "secret";
     Auth.token := Some "T1"; Auth.username := Some "user";
     Auth.password := Some "pass"; Auth.header := Some "AUTHORIZATION";
     Auth.hostname := None |}.

(** The text [s] followed by as many NUL characters as it takes to reach a
    length, in code units, that is a multiple of three. *)
Definition nul_padded (s : string) : string :=
  s +:+ string_of_list_ascii
          (replicate ((3 - length (units s) mod 3) mod 3) Ascii.zero).

End AuthScenarios.

(** ** [replay/sessionCreator.ts]: [createReplaySessions] *)

Module Replay.

Import JsString SessionCreator.

(** An entry of [processedRequests]. *)
Record ProcessedRequest : Type := {
  request : Req.Request loc;
  spec : Spec.RequestSpec;
  sessionName : string
}.

Record ReplayResult : Type := {
  success : bool;
  processedRequests : list ProcessedRequest;
  collectionName : string;
  message : string
}.

(** [buildRequestSpec] on a request whose header object lives in the heap.
    The header object of the spec is a copy that nothing else refers to; the
    spec holds it by value. *)
Definition buildRequestSpec_at (request : Req.Request loc)
    (hostname : option string) : state (option Spec.RequestSpec) := fun h =>
  (buildRequestSpec (Req.with_headers request (headers_of h request)) hostname, h).

Section WithHost.

Variable native_btoa : option (string -> option string).

(** The loop over [requests].  Every element of the array is a request, so
    none is skipped as falsy; nothing in the body throws on a request of the
    declared type, so the [catch] clauses are not entered. *)
Fixpoint process (requests : list (Req.Request loc)) (authConfig : Auth.AuthConfig)
    (processedRequests : list ProcessedRequest) : state (list ProcessedRequest) :=
  match requests with
  | [] => mret processedRequests
  | request :: rest =>
      processedRequest ← applyAuthentication native_btoa request authConfig;
      spec ← buildRequestSpec_at processedRequest (Auth.hostname authConfig);
      let sessionName := generateCompleteSessionName processedRequest in
      match spec with
      | Some spec =>
          process rest authConfig
            (processedRequests ++ [ {| request := processedRequest;
                                       spec := spec;
                                       sessionName := sessionName |} ])
      | None => process rest authConfig processedRequests
      end
  end.

Definition createReplaySessions (requests : list (Req.Request loc))
    (collectionName : string) (authConfig : Auth.AuthConfig)
  : state ReplayResult :=
  processedRequests ← process requests authConfig [];
  mret {| success := true;
          processedRequests := processedRequests;
          collectionName := collectionName;
          message := "Processed " +:+ Js.string_of_nat (length processedRequests)
                     +:+ " requests for session creation" |}.

End WithHost.

(** The url of the request, after the override of the host, is one that
    [parseUrl] accepts, and its body can be written. *)
Definition sendable (hostname : option string) (request : Req.Request loc)
  : bool :=
  match parseUrl (resolveTargetUrl (Req.url request) hostname) with
  | Some _ => encodable request
  | None => false
  end.

(** The entry [entry] is what the request [original] contributes: the request
    with a header object of its own, which holds in the heap [after] the
    headers that [original] held in the heap [before], reconciled; the spec
    built from that request; and the session name of [original]. *)
Definition processed_from (native_btoa : option (string -> option string))
    (authConfig : Auth.AuthConfig) (before after : Heap)
    (entry : ProcessedRequest) (original : Req.Request loc) : Prop :=
  let headers := reconcile native_btoa authConfig (headers_of before original) in
  Req.with_headers (request entry) (Req.headers original) = original
  ∧ before !! Req.headers (request entry) = None
  ∧ headers_of after (request entry) = headers
  ∧ buildRequestSpec (Req.with_headers original headers) (Auth.hostname authConfig)
    = Some (spec entry)
  ∧ sessionName entry = generateCompleteSessionName original.

(** Two requests that share one header object, in a heap that holds it. *)
Definition shared_heap : Heap := {[ 1%positive := {[ "X-API-Key" := "K" ]} ]}.

Definition shared_requests : list (Req.Request loc) :=
  [ Scenarios.request_of "get" "https://a.com/x?q=1" 1%positive;
    Scenarios.request_of "get" "ftp://a.com/y" 1%positive;
    Scenarios.request_of "post" "/z" 1%positive ].

End Replay.

(** ** [utils/fileDetection.ts]: [validateFileTypeSupport] *)

Module FileSupport.

Import JsString FileDetection.

Section WithHost.

(** [String.prototype.toLowerCase], as the host has it. *)
Variable toLowerCase : string -> string.

Record Support : Type := {
  supported : bool;
  message : string
}.

Definition validateFileTypeSupport (fileType : FileType) (fileName : string)
  : Support :=
  match fileType with
  | postman =>
      {| supported := true;
         message := "Postman collections are fully supported" |}
  | openapi =>
      let isYaml :=
        endsWith (toLowerCase fileName) ".yaml"
        || endsWith (toLowerCase fileName) ".yml" in
      if isYaml then
        {| supported := false;
           message := "YAML OpenAPI specifications will be supported in a future update. Please convert to JSON format." |}
      else
        {| supported := true;
           message := "JSON OpenAPI specifications are fully supported" |}
  | environment =>
      {| supported := true;
         message := "Postman environment files are fully supported" |}
  | unknown =>
      {| supported := false;
         message := "File format not recognized. Please ensure you are uploading a valid Postman collection, OpenAPI specification, or Postman environment (.json)" |}
  end.

End WithHost.

(** The verdict of [detectFromFilename] as a function of what the lowercased
    name contains, without the patterns that another pattern is part of. *)
Definition verdict_of_name (lowerName : string) : FileType :=
  if includes lowerName "env" then environment
  else if includes lowerName "collection" || includes lowerName "newman"
          || includes lowerName "requests"
  then postman
  else if existsb (includes lowerName)
            ["openapi"; "swagger"; "api-docs"; "api_spec"; "spec.json";
             "spec.yaml"; "spec.yml"; "oas"; "rest-api"]
          || endsWith lowerName ".yaml" || endsWith lowerName ".yml"
  then openapi
  else unknown.

End FileSupport.

(** ** The vocabulary of the properties of the environment parser *)

Module EnvironmentText.

Import JsString Js Environment.

(** The keywords of [SENSITIVE_KEYWORDS] that are not part of another one. *)
Definition MINIMAL_KEYWORDS : list string :=
  ["token"; "key"; "secret"; "auth"; "bearer"; "credential"; "pass"; "pwd"].

(** The messages of the errors that [parsePostmanEnvironment] throws itself. *)
Definition parse_errors : list string :=
  ["Invalid environment file: not a valid JSON object";
   "Invalid environment file: missing or invalid name field";
   "Invalid environment file: missing or invalid values array";
   "Invalid environment file: no valid variables found";
   "Invalid environment file: malformed JSON"].

End EnvironmentText.

(** ** [utils/environmentCreation.ts] and [createEnvironmentVariables] *)

Module EnvironmentCreation.

Import JsString.

Section WithHost.

(** [String.prototype.toLowerCase], as the host has it. *)
Variable toLowerCase : string -> string.

Record CaidoEnvironmentVariable : Type := {
  name : string;
  value : string;
  secret : bool;
  global : option bool
}.

(** [EnvironmentCreationResult]; the result of a failed validation in
    [createEnvironmentVariables] has neither [environmentName] nor
    [variablesCreated]. *)
Record EnvironmentCreationResult : Type := {
  success : bool;
  environmentName : option string;
  variablesCreated : option nat;
  message : string;
  error : option string
}.

Record Validation : Type := {
  valid : bool;
  reason : option string    (* the field [error] *)
}.

Definition invalid (reason : string) : Validation :=
  {| valid := false; reason := Some reason |}.

(** [/^[a-zA-Z_][a-zA-Z0-9_]*$/] *)
Definition id_start (c : ascii) : bool :=
  is_lower c || is_upper c || Ascii.eqb c "_".

Definition id_char (c : ascii) : bool :=
  is_lower c || is_upper c || is_digit c || Ascii.eqb c "_".

Definition identifier_pattern : Regex.regex :=
  Regex.Seq Regex.InputStart
    (Regex.Seq (Regex.Chr id_start)
       (Regex.Seq (Regex.Star (Regex.Chr id_char)) Regex.InputEnd)).

(** The loop over the variables of [validateEnvironmentCreation]. *)
Fixpoint check_names (variables : list CaidoEnvironmentVariable) : Validation :=
  match variables with
  | [] => {| valid := true; reason := None |}
  | variable :: rest =>
      if negb (truthy (name variable)) || (len (trim (name variable)) =? 0) then
        invalid "Variable names cannot be empty"
      else if includes (name variable) " " then
        invalid "Variable names cannot contain spaces"
      else if negb (Regex.test identifier_pattern (name variable)) then
        invalid ("Invalid variable name: " +:+ FileDetection.quoted (name variable)
                 +:+ ". Use only letters, numbers, and underscores.")
      else check_names rest
  end.

Definition validateEnvironmentCreation
    (variables : list CaidoEnvironmentVariable) (environmentName : string)
  : Validation :=
  if negb (truthy environmentName) || (len (trim environmentName) =? 0) then
    invalid "Environment name cannot be empty"
  else if length variables =? 0 then
    invalid "At least one variable must be provided"
  else
    let variableNames := map (fun v => toLowerCase (name v)) variables in
    let uniqueNames : gset string := list_to_set variableNames in
    if negb (length variableNames =? size uniqueNames) then
      invalid "Duplicate variable names are not allowed"
    else check_names variables.

(** [convertToCaidoVariables]: the argument has the fields of a parsed
    environment variable. *)
Definition convertToCaidoVariables
    (environmentVariables : list Environment.EnvironmentVariable)
  : list CaidoEnvironmentVariable :=
  let filtered := List.filter Environment.enabled environmentVariables in
  map (fun variable =>
         {| name := Environment.key variable;
            value := Environment.value variable;
            secret := Environment.isSecret variable;
            global := Some false |})
      filtered.

Section WithSdk.

(** The state of the host, and [sdk.env.setVar({ name, value, secret, env })]:
    the call changes the state and either returns or throws; [Some e] is the
    text of what it throws. *)
Variable Sdk : Type.
Variable setVar : string -> string -> bool -> string -> Sdk -> option string * Sdk.

(** The loop of [createCaidoEnvironment]. *)
Fixpoint set_variables (variables : list CaidoEnvironmentVariable)
    (environmentName : string) (createdCount : nat) (errors : list string)
    (sdk : Sdk) : nat * list string * Sdk :=
  match variables with
  | [] => (createdCount, errors, sdk)
  | variable :: rest =>
      match setVar (name variable) (value variable) (secret variable)
                   environmentName sdk with
      | (None, sdk) =>
          set_variables rest environmentName (S createdCount) errors sdk
      | (Some error, sdk) =>
          let errorMsg :=
            "Failed to create variable " +:+ FileDetection.quoted (name variable)
            +:+ ": " +:+ error in
          set_variables rest environmentName createdCount (errors ++ [errorMsg]) sdk
      end
  end.

Definition createCaidoEnvironment (variables : list CaidoEnvironmentVariable)
    (originalEnvironmentName : string) (sdk : Sdk)
  : EnvironmentCreationResult * Sdk :=
  let environmentName := originalEnvironmentName in
  let '(createdCount, errors, sdk) :=
    set_variables variables environmentName 0 [] sdk in
  let allSuccessful := createdCount =? length variables in
  let partialSuccess := (0 <? createdCount) && (createdCount <? length variables) in
  let message :=
    if allSuccessful then
      "Successfully added " +:+ Js.string_of_nat createdCount
      +:+ " variables to environment"
    else if partialSuccess then
      "Partially added variables: " +:+ Js.string_of_nat createdCount +:+ "/"
      +:+ Js.string_of_nat (length variables) +:+ " variables created"
    else "Failed to add variables: no variables were created" in
  ({| success := 0 <? createdCount;
      environmentName := Some environmentName;
      variablesCreated := Some createdCount;
      message := message;
      error := if 0 <? length errors then Some (join "; " errors) else None |},
   sdk).

(** [createEnvironmentVariables] of the backend's entry points. *)
Definition createEnvironmentVariables
    (variables : list Environment.EnvironmentVariable)
    (originalEnvironmentName : string) (sdk : Sdk)
  : EnvironmentCreationResult * Sdk :=
  let convertedVariables := convertToCaidoVariables variables in
  let validation :=
    validateEnvironmentCreation convertedVariables originalEnvironmentName in
  if negb (valid validation) then
    ({| success := false;
        environmentName := None;
        variablesCreated := None;
        message := "Validation failed: " +:+ default "undefined" (reason validation);
        error := reason validation |},
     sdk)
  else createCaidoEnvironment convertedVariables originalEnvironmentName sdk.

(** The calls of [setVar] for the variables, in order, each in the state
    that the calls before it left: what each call did ([None] when it
    returned, the text of what it threw otherwise), and the state after the
    last. *)
Fixpoint call_outcomes (variables : list CaidoEnvironmentVariable)
    (environmentName : string) (sdk : Sdk) : list (option string) * Sdk :=
  match variables with
  | [] => ([], sdk)
  | variable :: rest =>
      let '(outcome, sdk) :=
        setVar (name variable) (value variable) (secret variable)
               environmentName sdk in
      let '(outcomes, sdk) := call_outcomes rest environmentName sdk in
      (outcome :: outcomes, sdk)
  end.

End WithSdk.

End WithHost.

(** The call returned. *)
Definition returned (outcome : option string) : bool :=
  match outcome with None => true | Some _ => false end.

(** The number of calls that returned. *)
Definition count_returned (outcomes : list (option string)) : nat :=
  length (List.filter returned outcomes).

(** The reports of the calls that threw, in order: each names its variable
    and ends with the text of what was thrown. *)
Fixpoint failure_reports (variables : list CaidoEnvironmentVariable)
    (outcomes : list (option string)) : list string :=
  match variables, outcomes with
  | variable :: variables', outcome :: outcomes' =>
      match outcome with
      | Some thrown =>
          ("Failed to create variable " +:+ FileDetection.quoted (name variable)
           +:+ ": " +:+ thrown)
          :: failure_reports variables' outcomes'
      | None => failure_reports variables' outcomes'
      end
  | _, _ => []
  end.

(** A name that the pattern accepts: a letter or an underscore, then letters,
    digits and underscores. *)
Definition identifier (s : string) : Prop :=
  ∃ c t, s = String c t ∧ id_start c = true ∧ forallb id_char t = true.

(** The variables that are handed to the host: the enabled ones. *)
Definition enabled_keys (variables : list Environment.EnvironmentVariable)
  : list string :=
  map Environment.key (List.filter Environment.enabled variables).

(** A host that keeps the calls of [setVar] it has received, and refuses the
    variables of a given name. *)
Definition recording_setVar (refused : string) (name value : string)
    (secret : bool) (env : string) (calls : list (string * string))
  : option string * list (string * string) :=
  (if String.eqb name refused then Some "Error: refused" else None,
   calls ++ [(env, name)]).

Definition sample_variables : list Environment.EnvironmentVariable :=
  [ {| Environment.key := "api_token"; Environment.value := "abc";
       Environment.enabled := true; Environment.type := Js.VStr "default";
       Environment.isSecret := true |};
    {| Environment.key := "not a name"; Environment.value := "x";
       Environment.enabled := false; Environment.type := Js.VStr "default";
       Environment.isSecret := false |};
    {| Environment.key := "base_url"; Environment.value := "https://a.com";
       Environment.enabled := true; Environment.type := Js.VStr "default";
       Environment.isSecret := false |} ].

End EnvironmentCreation.

(** ** Conversions of values to text *)

Module Convert.

Import JsString Js.

(** The conversion of a value to a string, as a template literal and a
    property key perform it.  An object built by [JSON.parse] that has an own
    property [toString] cannot be converted: the property shadows the method
    and is not a function. *)
Fixpoint to_string (v : value) : completion string :=
  match v with
  | VArr items =>
      (fix join_items (items : list value) : completion string :=
         match items with
         | [] => Return ""
         | x :: rest =>
             let* head :=
               match x with
               | VUndefined | VNull => Return ""
               | _ => to_string x
               end in
             match rest with
             | [] => Return head
             | _ => let* tail := join_items rest in
                    Return (head +:+ "," +:+ tail)
             end
         end) items
  | VObj props =>
      match assoc "toString" props with
      | Some _ => Throw (TypeError "Cannot convert object to primitive value")
      | None => Return "[object Object]"
      end
  | _ => Return (toString v)
  end.

(** [x.toString()] on a truthy value. *)
Definition toString_of (v : value) : completion string :=
  match v with
  | VObj props =>
      match assoc "toString" props with
      | Some _ => Throw (TypeError "toString is not a function")
      | None => Return "[object Object]"
      end
  | _ => to_string v
  end.

(** The computation returns a result that satisfies [P], or throws a
    [TypeError]: it does nothing else. *)
Definition type_errors {A} (P : A -> Prop) (c : completion A) : Prop :=
  match c with
  | Return a => P a
  | Throw e => ∃ m, e = TypeError m
  | OutOfFuel => False
  end.

End Convert.

(** ** [parsers/postman.ts]: [detectPostmanAuth] *)

Module PostmanAuth.

Import JsString Js Postman Convert.

Section WithHost.

(** [String.prototype.toLowerCase], as the host has it. *)
Variable toLowerCase : string -> string.

Record AuthInfo : Type := {
  hasAuth : bool;
  authType : value;
  description : string
}.

Definition authHeaders : list string :=
  ["authorization"; "x-api-key"; "x-auth-token"; "bearer"].

(** [x.toLowerCase()]: a [TypeError] on a value without the method. *)
Definition toLowerCase_of (v : value) : completion string :=
  match v with
  | VStr s => Return (toLowerCase s)
  | _ => Throw (TypeError "toLowerCase is not a function")
  end.

(** The key of a header names an authentication header. *)
Definition auth_key (key : string) : bool :=
  existsb (fun auth => includes (toLowerCase key) auth) authHeaders.

(** The loop over [Object.entries(request.headers)]. *)
Fixpoint scan_headers (entries : list (string * value))
    (foundAuthHeader : bool) (authType : string)
  : completion (bool * string) :=
  match entries with
  | [] => Return (foundAuthHeader, authType)
  | (key, value) :: rest =>
      if auth_key key then
        let* authType :=
          if includes (toLowerCase key) "bearer" then Return "bearer"
          else
            let* lower := toLowerCase_of value in
            if startsWith lower "bearer" then Return "bearer"
            else if includes (toLowerCase key) "api" then Return "apikey"
            else Return authType in
        scan_headers rest true authType
      else scan_headers rest foundAuthHeader authType
  end.

(** The loop over [collection.requests]. *)
Fixpoint scan_requests (requests : list ParsedRequest)
    (foundAuthHeader : bool) (authType : string) : completion AuthInfo :=
  match requests with
  | [] =>
      if foundAuthHeader then
        Return {| hasAuth := true;
                  authType := VStr authType;
                  description := "Found " +:+ authType
                                 +:+ " authentication in request headers" |}
      else
        Return {| hasAuth := false;
                  authType := VStr "none";
                  description := "No authentication detected" |}
  | request :: rest =>
      let* '(foundAuthHeader, authType) :=
        scan_headers (headers request) foundAuthHeader authType in
      let auth := default VUndefined (auth request) in
      if truthy auth then
        let* type := to_string (get_prop auth "type") in
        Return {| hasAuth := true;
                  authType := or_else (get_prop auth "type") (VStr "unknown");
                  description := "Requests use " +:+ type +:+ " authentication" |}
      else scan_requests rest foundAuthHeader authType
  end.

Definition detectPostmanAuth (collection : PostmanCollection)
  : completion AuthInfo :=
  let auth := collection_auth collection in
  if truthy auth then
    let* type := to_string (get_prop auth "type") in
    Return {| hasAuth := true;
              authType := or_else (get_prop auth "type") (VStr "unknown");
              description := "Collection uses " +:+ type +:+ " authentication" |}
  else scan_requests (requests collection) false "header".

End WithHost.

End PostmanAuth.

(** ** The vocabulary of the properties of the Postman parser *)

Module PostmanText.

Import JsString Js Postman.

(** What every request that [parsePostmanRequest] builds satisfies: the
    method is in upper case; the name and the id are truthy; no header has a
    falsy value; no entry of the form data is disabled. *)
Definition well_formed (r : ParsedRequest) : Prop :=
  toUpperCase (method r) = method r
  ∧ truthy (name r) = true
  ∧ truthy (id r) = true
  ∧ Forall (fun kv => truthy (snd kv) = true) (headers r)
  ∧ match body r with
    | Some b =>
        match formdata b with
        | Some items =>
            Forall (fun item => truthy (get_prop item "disabled") = false) items
        | None => True
        end
    | None => True
    end.

(** The request carries authentication, or a header whose key names one. *)
Definition authenticated (toLowerCase : string -> string) (r : ParsedRequest)
  : bool :=
  truthy (default VUndefined (auth r))
  || existsb (fun kv => PostmanAuth.auth_key toLowerCase (fst kv)) (headers r).

(** A collection of one folder that holds two requests, the second with a
    disabled header. *)
Definition folder_text : string :=
  Scenarios.quotes "{'info':{'name':'X'},'item':[{'name':'F','item':[{'request':{'method':'post','url':{'raw':'{{base}}/a'}}},{'name':'B','request':{'url':'https://a.com/b','header':[{'key':'Authorization','value':'Bearer t'},{'key':'X-Off','value':'1','disabled':true}]}}]}]}".

End PostmanText.

(** ** Further inputs of the OpenAPI parser *)

Module OpenAPIScenarios.

Import Js.

(** The circular document of the scenarios, parsed. *)
Definition circular_spec : value :=
  match Json.parse Scenarios.circular_spec_text with
  | Return spec => spec
  | _ => VNull
  end.

(** A Swagger 2 document: a base address with a final slash, a declared
    security scheme, and one path with three operations, the last of which
    has a parameter that cannot be read. *)
Definition pets_text : string :=
  Scenarios.quotes "{'swagger':'2.0','host':'api.example.com','basePath':'/v1/','schemes':['https'],'securityDefinitions':{'key':{'type':'apiKey','in':'header','name':'X-API-Key'}},'paths':{'/pets':{'get':{'parameters':[{'name':'X-Auth-Token','in':'header','example':12}]},'post':{'operationId':'addPet','requestBody':{'content':{'application/json':{'schema':{'type':'object','properties':{'name':{'type':'string'}}}}}}},'put':{'parameters':[null]}}}}".

End OpenAPIScenarios.

(** ** [parsers/openapi.ts]: operations, documents and authentication *)

Module OpenAPIParser.

Import JsString Js OpenAPI Convert.

(** [x.includes(needle)] for a string [needle]: the method of strings and the
    method of arrays; a [TypeError] on a value without the method. *)
Definition includes_of (v : value) (needle : string) : completion bool :=
  match v with
  | VStr s => Return (includes s needle)
  | VArr items => Return (existsb (fun x => is_string x needle) items)
  | _ => Throw (TypeError "includes is not a function")
  end.

(** [s.replace(/\/$/, '')] *)
Definition strip_trailing_slash (s : string) : string :=
  if endsWith s "/" then take (len s - 1) s else s.

(** [x.replace(/\/$/, '')] *)
Definition replace_of (v : value) : completion string :=
  match v with
  | VStr s => Return (strip_trailing_slash s)
  | _ => Throw (TypeError "replace is not a function")
  end.

(** [path.replace(/[^a-zA-Z0-9]/g, '_')].  The pattern replaces code units:
    one for a character of one to three bytes, two for a character of four;
    the bytes that continue a character give nothing. *)
Definition underscore (c : ascii) : string :=
  let n := nat_of_ascii c in
  if is_upper c || is_lower c || is_digit c then String c ""
  else if n <? 128 then "_"
  else if n <? 192 then ""
  else if n <? 240 then "_"
  else "__".

Fixpoint underscored (s : string) : string :=
  match s with
  | EmptyString => EmptyString
  | String c s' => underscore c +:+ underscored s'
  end.

Record OperationParameter : Type := {
  parameter_name : value;
  parameter_in : value;
  required : value;
  parameter_schema : value;
  parameter_example : value
}.

Record OperationBody : Type := {
  contentType : string;
  schema : value;
  example : value
}.

(** The request object that [parseOpenAPIOperation] builds.  It is declared an
    [OpenAPIRequest], but its [id], [name] and parameters hold whatever the
    document holds. *)
Record OpenAPIRequest : Type := {
  id : value;
  name : value;
  method : string;
  url : string;
  headers : list (string * value);
  body : option OperationBody;
  parameters : list OperationParameter
}.

Record OpenAPISpec : Type := {
  spec_name : value;
  description : value;
  version : value;
  baseUrl : value;
  requests : list OpenAPIRequest;
  securitySchemes : value
}.

Definition httpMethods : list string :=
  ["get"; "post"; "put"; "patch"; "delete"; "head"; "options"; "trace"].

Definition supportedTypes : list string :=
  ["application/json"; "application/x-www-form-urlencoded"; "multipart/form-data"].

(** The loop over [supportedTypes]: the content type found first, its schema
    and its example; the initial values when none is found. *)
Fixpoint first_supported (content : value) (types : list string)
  : string * value * value :=
  match types with
  | [] => ("", VNull, VNull)
  | type :: rest =>
      if truthy (get_prop content type) then
        (type,
         get_prop (get_prop content type) "schema",
         or_else (get_prop (get_prop content type) "example")
                 (get_prop (get_prop content type) "examples"))
      else first_supported content rest
  end.

(** The loop over [operation.parameters]. *)
Fixpoint collect_parameters (params : list value) (parameters : list OperationParameter)
    (headers : list (string * value))
  : completion (list OperationParameter * list (string * value)) :=
  match params with
  | [] => Return (parameters, headers)
  | param :: rest =>
      let* name := get param "name" in
      let parameter :=
        {| parameter_name := name;
           parameter_in := get_prop param "in";
           required := or_else (get_prop param "required") (VBool false);
           parameter_schema :=
             or_else (or_else (get_prop param "schema") (get_prop param "type"))
                     (VStr "string");
           parameter_example := get_prop param "example" |} in
      let* headers :=
        if is_string (get_prop param "in") "header"
           && truthy (get_prop param "example")
        then
          let* key := to_string name in
          let* text := toString_of (get_prop param "example") in
          Return (set_prop key (VStr text) headers)
        else Return headers in
      collect_parameters rest (parameters ++ [parameter]) headers
  end.

(** The loop over [Object.entries(successResponse.headers)].  The lower case
    of the name is looked at for the letters of [auth] only, which no
    character outside ASCII lowers to: [toLowerCase] is the mapping of the
    letters of ASCII here. *)
Fixpoint collect_response_headers (entries : list (string * value))
    (headers : list (string * value)) : completion (list (string * value)) :=
  match entries with
  | [] => Return headers
  | (headerName, headerSpec) :: rest =>
      if truthy headerSpec && typeof_object headerSpec
         && truthy (get_prop headerSpec "example")
         && includes (toLowerCase headerName) "auth"
      then
        let* text := toString_of (get_prop headerSpec "example") in
        collect_response_headers rest (set_prop headerName (VStr text) headers)
      else collect_response_headers rest headers
  end.

Section WithHost.

(** [ToNumber(s) > 0] for a string; the text that [Date.now()] contributes to
    the id of the n-th operation parsed; [JSON.parse]. *)
Variable string_positive : string -> bool.
Variable stamps : nat -> string.
Variable JSON_parse : string -> completion value.

(** [parseOpenAPIOperation(sdk, method, path, operation, baseUrl, spec)];
    [None] is [null].  The warning that the inner [catch] clause writes to
    the console is not part of the model. *)
Definition parseOpenAPIOperation (stamp : string) (method path : string)
    (operation baseUrl spec : value) : completion (option OpenAPIRequest) :=
  try_catch
    (let upperMethod := toUpperCase method in
     let* fullUrl :=
       if truthy baseUrl then
         let* base := replace_of baseUrl in Return (base +:+ path)
       else Return path in
     let operationName :=
       or_else (or_else (get_prop operation "summary")
                        (get_prop operation "operationId"))
               (VStr (upperMethod +:+ " " +:+ path)) in
     let id :=
       or_else (get_prop operation "operationId")
               (VStr (upperMethod +:+ "_" +:+ underscored path +:+ "_" +:+ stamp)) in
     let* '(parameters, headers) :=
       if truthy (get_prop operation "parameters")
          && isArray (get_prop operation "parameters")
       then collect_parameters (elements (get_prop operation "parameters")) [] []
       else Return ([], []) in
     let* '(body, headers) :=
       if truthy (get_prop operation "requestBody")
          && existsb (String.eqb upperMethod) ["POST"; "PUT"; "PATCH"]
       then
         let content := get_prop (get_prop operation "requestBody") "content" in
         if truthy content then
           let '(contentType, bodySchema, bodyExample) :=
             first_supported content supportedTypes in
           if JsString.truthy contentType && truthy bodySchema then
             let* bodyExample :=
               if negb (truthy bodyExample)
                  && String.eqb contentType "application/json"
               then
                 match generateExampleFromSchema string_positive
                         (depth_bound bodySchema spec) bodySchema spec ∅ with
                 | Return (generatedExample, _) =>
                     Return (if negb (is_null generatedExample)
                             then generatedExample else bodyExample)
                 | Throw _ => Return bodyExample
                 | OutOfFuel => OutOfFuel
                 end
               else Return bodyExample in
             Return (Some {| contentType := contentType;
                             schema := bodySchema;
                             example := bodyExample |},
                     set_prop "Content-Type" (VStr contentType) headers)
           else Return (None, headers)
         else Return (None, headers)
       else Return (None, headers) in
     let* headers :=
       if truthy (get_prop operation "responses") then
         let responses := get_prop operation "responses" in
         let successResponse :=
           or_else (or_else (get_prop responses "200") (get_prop responses "201"))
                   (get_prop responses "default") in
         if truthy successResponse && truthy (get_prop successResponse "headers")
         then collect_response_headers
                (entries (get_prop successResponse "headers")) headers
         else Return headers
       else Return headers in
     Return (Some {| id := id;
                     name := operationName;
                     method := upperMethod;
                     url := fullUrl;
                     headers := headers;
                     body := body;
                     parameters := parameters |}))
    (fun _ => Return None).

(** The loop over [httpMethods] for one path; the count of the operations
    parsed so far is threaded through. *)
Fixpoint over_methods (methods : list string) (path : string)
    (pathItem baseUrl spec : value) (requests : list OpenAPIRequest)
    (count : nat) : completion (list OpenAPIRequest * nat) :=
  match methods with
  | [] => Return (requests, count)
  | method :: rest =>
      let* operation := get pathItem method in
      if truthy operation then
        let* request :=
          parseOpenAPIOperation (stamps count) method path operation baseUrl spec in
        over_methods rest path pathItem baseUrl spec
          (match request with
           | Some r => requests ++ [r]
           | None => requests
           end)
          (S count)
      else over_methods rest path pathItem baseUrl spec requests count
  end.

(** The loop over [Object.entries(paths)]. *)
Fixpoint over_paths (entries : list (string * value)) (baseUrl spec : value)
    (requests : list OpenAPIRequest) (count : nat)
  : completion (list OpenAPIRequest * nat) :=
  match entries with
  | [] => Return (requests, count)
  | (path, pathItem) :: rest =>
      let* '(requests, count) :=
        over_methods httpMethods path pathItem baseUrl spec requests count in
      over_paths rest baseUrl spec requests count
  end.

Definition extractOpenAPIRequests (paths baseUrl spec : value)
  : completion (list OpenAPIRequest) :=
  let* '(requests, _) := over_paths (entries paths) baseUrl spec [] 0 in
  Return requests.

Definition yaml_unsupported : string :=
  "YAML format is not currently supported. Please convert your OpenAPI specification to JSON format and try again.".

Definition failure_prefix : string := "Failed to parse OpenAPI specification: ".

Definition parseOpenAPISpec (content : string) (isYaml : bool)
  : completion OpenAPISpec :=
  try_catch
    (let* data :=
       if isYaml then Throw (Error yaml_unsupported) else JSON_parse content in
     let* openapi_ := get data "openapi" in
     if negb (truthy openapi_) && negb (truthy (get_prop data "swagger")) then
       Throw (Error "Invalid OpenAPI specification: missing openapi/swagger version")
     else
       let title :=
         or_else (get_opt (get_prop data "info") "title") (VStr "Untitled API") in
       let servers := get_prop data "servers" in
       let* baseUrl :=
         if truthy servers && gt_zero string_positive (get_prop servers "length")
         then get (get_prop servers "0") "url"
         else if truthy (get_prop data "host") then
           let* secure :=
             if truthy (get_prop data "schemes")
             then includes_of (get_prop data "schemes") "https"
             else Return false in
           let protocol := if secure then "https" else "http" in
           let* host := to_string (get_prop data "host") in
           let baseUrl := protocol +:+ "://" +:+ host in
           if truthy (get_prop data "basePath") then
             let* basePath := to_string (get_prop data "basePath") in
             Return (VStr (baseUrl +:+ basePath))
           else Return (VStr baseUrl)
         else Return (VStr "") in
       let* requests :=
         extractOpenAPIRequests (or_else (get_prop data "paths") (VObj []))
           baseUrl data in
       Return {| spec_name := title;
                 description := get_opt (get_prop data "info") "description";
                 version := or_else (get_opt (get_prop data "info") "version")
                                    (VStr "1.0.0");
                 baseUrl := baseUrl;
                 requests := requests;
                 securitySchemes :=
                   or_else (get_opt (get_prop data "components") "securitySchemes")
                           (get_prop data "securityDefinitions") |})
    (fun error => Throw (Error (failure_prefix +:+ message error))).

End WithHost.

(** *** [detectOpenAPIAuth] *)

Record Scheme : Type := {
  scheme_name : string;
  scheme_type : value;
  scheme_description : string
}.

Record AuthInfo : Type := {
  hasAuth : bool;
  authType : value;
  auth_description : string;
  schemes : list Scheme
}.

(** The loop over [Object.entries(spec.securitySchemes)]. *)
Fixpoint declared_schemes (entries : list (string * value))
    (schemes : list Scheme) : completion (list Scheme) :=
  match entries with
  | [] => Return schemes
  | (name, scheme) :: rest =>
      let* type := get scheme "type" in
      let* description :=
        if is_string type "http" then
          let* s := to_string (get_prop scheme "scheme") in
          Return ("HTTP " +:+ s +:+ " authentication")
        else if is_string type "apiKey" then
          let* place := to_string (get_prop scheme "in") in
          let* key := to_string (get_prop scheme "name") in
          Return ("API key in " +:+ place +:+ ": " +:+ key)
        else if is_string type "oauth2" then Return "OAuth 2.0 authentication"
        else if is_string type "openIdConnect" then
          Return "OpenID Connect authentication"
        else
          let* t := to_string type in Return (t +:+ " authentication") in
      declared_schemes rest
        (schemes ++ [ {| scheme_name := name;
                         scheme_type := type;
                         scheme_description := description |} ])
  end.

Section Detector.

(** [String.prototype.toLowerCase], as the host has it. *)
Variable toLowerCase : string -> string.

Definition authHeaders : list string :=
  ["authorization"; "x-api-key"; "x-auth-token"].

Definition auth_key (headerName : string) : bool :=
  existsb (fun auth => includes (toLowerCase headerName) auth) authHeaders.

(** The loop over [Object.keys(request.headers)]. *)
Fixpoint scan_keys (keys : list string) (schemes : list Scheme) : list Scheme :=
  match keys with
  | [] => schemes
  | headerName :: rest =>
      if auth_key headerName
         && negb (existsb (fun s => is_string (scheme_type s) "header") schemes)
      then
        scan_keys rest
          (schemes ++ [ {| scheme_name := "header-auth";
                           scheme_type := VStr "header";
                           scheme_description :=
                             "Authentication via " +:+ headerName +:+ " header" |} ])
      else scan_keys rest schemes
  end.

Definition detectOpenAPIAuth (spec : OpenAPISpec) : completion AuthInfo :=
  let* schemes :=
    if truthy (securitySchemes spec)
    then declared_schemes (entries (securitySchemes spec)) []
    else Return [] in
  let schemes :=
    fold_left (fun schemes request => scan_keys (map fst (headers request)) schemes)
              (requests spec) schemes in
  match schemes with
  | first :: _ =>
      Return {| hasAuth := true;
                authType := scheme_type first;
                auth_description :=
                  "Found " +:+ string_of_nat (length schemes)
                  +:+ " authentication scheme(s)";
                schemes := schemes |}
  | [] =>
      Return {| hasAuth := false;
                authType := VStr "none";
                auth_description := "No authentication schemes detected";
                schemes := [] |}
  end.

End Detector.

(** *** The vocabulary of the properties *)

(** What every request that [parseOpenAPIOperation] builds satisfies: the
    method is one of the eight, in upper case; the name and the id are
    truthy; the value of every header is a string; a body comes with one of
    the three methods that send one, has a supported content type and a
    truthy schema, and the [Content-Type] header names its content type. *)
Definition well_formed (r : OpenAPIRequest) : Prop :=
  method r ∈ map toUpperCase httpMethods
  ∧ truthy (name r) = true
  ∧ truthy (id r) = true
  ∧ Forall (fun kv => typeof_string (snd kv) = true) (headers r)
  ∧ match body r with
    | Some b =>
        method r ∈ ["POST"; "PUT"; "PATCH"]
        ∧ contentType b ∈ supportedTypes
        ∧ truthy (schema b) = true
        ∧ assoc "Content-Type" (headers r) = Some (VStr (contentType b))
    | None => True
    end.

(** The entries of [spec.securitySchemes] that [detectOpenAPIAuth] reads. *)
Definition declared (spec : OpenAPISpec) : list (string * value) :=
  if truthy (securitySchemes spec) then entries (securitySchemes spec) else [].

(** Some request of the document has a header whose name holds one of
    [authHeaders]. *)
Definition has_auth_header (toLowerCase : string -> string) (spec : OpenAPISpec)
  : bool :=
  existsb (fun r => existsb (auth_key toLowerCase) (map fst (headers r)))
          (requests spec).

(** The request stands for an operation of the document: a truthy member of
    an item of [paths] under one of the eight methods, addressed by the base
    address without its final slash, then the path. *)
Definition from_operation (paths baseUrl : value) (r : OpenAPIRequest) : Prop :=
  ∃ (path : string) (pathItem : value) (m : string),
    (path, pathItem) ∈ entries paths
    ∧ m ∈ httpMethods
    ∧ truthy (get_prop pathItem m) = true
    ∧ method r = toUpperCase m
    ∧ url r = strip_trailing_slash (text baseUrl) +:+ path.

End OpenAPIParser.

(* ===================================================================== *)
(** * Part II: properties *)
(* ===================================================================== *)

(** ** Texts: prefixes, occurrences and character classes *)

Module TextFacts.

Import JsString.

Lemma text_nil (t : string) : "" +:+ t = t.
Proof. reflexivity. Qed.

Lemma text_cons (c : ascii) (s t : string) : String c s +:+ t = String c (s +:+ t).
Proof. reflexivity. Qed.

(** Appends are pushed under the leading characters. *)
Ltac push_app := rewrite ?text_cons, ?text_nil in *.

Lemma text_empty_r (s : string) : s +:+ "" = s.
Proof. induction s; push_app; [reflexivity | congruence]. Qed.

Lemma text_assoc (s t u : string) : (s +:+ t) +:+ u = s +:+ (t +:+ u).
Proof. induction s; push_app; [reflexivity | congruence]. Qed.

Lemma startsWith_app (p t : string) : startsWith (p +:+ t) p = true.
Proof.
  induction p; push_app; cbn [startsWith]; [reflexivity |].
  now rewrite Ascii.eqb_refl.
Qed.

Lemma startsWith_prefix (s p : string) :
  startsWith s p = true -> s = p +:+ drop (len p) s.
Proof.
  revert s. induction p as [|q p IH]; intros s H; [reflexivity |].
  destruct s as [|c s]; simpl in H; [discriminate |].
  destruct (Ascii.eqb_spec c q) as [->|]; [|discriminate].
  push_app. cbn [len String.length drop]. f_equal. now apply IH.
Qed.

Lemma startsWith_iff (s p : string) :
  startsWith s p = true <-> ∃ t, s = p +:+ t.
Proof.
  split.
  - intros H. eexists. now apply startsWith_prefix.
  - intros [t ->]. apply startsWith_app.
Qed.

Lemma startsWith_trans (s p q : string) :
  startsWith s p = true -> startsWith p q = true -> startsWith s q = true.
Proof.
  rewrite !startsWith_iff. intros [t ->] [u ->].
  exists (u +:+ t). apply text_assoc.
Qed.

(** An occurrence found by [indexOf] splits the text. *)
Lemma indexOf_split (s p : string) (i : nat) :
  indexOf s p = Some i -> s = take i s +:+ p +:+ drop (i + len p) s.
Proof.
  revert i. induction s as [|c s IH]; intros i; cbn [indexOf].
  - destruct (startsWith "" p) eqn:E; [|discriminate]. intros [= <-].
    now apply startsWith_prefix in E.
  - destruct (startsWith (String c s) p) eqn:E.
    + intros [= <-]. now apply startsWith_prefix in E.
    + destruct (indexOf s p) as [j|]; [|discriminate]. intros [= <-].
      cbn [take drop Nat.add]. push_app. f_equal. now apply IH.
Qed.

Lemma includes_intro (a p b : string) : includes (a +:+ p +:+ b) p = true.
Proof.
  unfold includes. induction a as [|c a IH].
  - push_app.
    destruct (p +:+ b) eqn:E; cbn [indexOf];
      rewrite <- E, startsWith_app; reflexivity.
  - push_app. cbn [indexOf]. destruct (startsWith _ p); [reflexivity |].
    now destruct (indexOf (a +:+ p +:+ b) p).
Qed.

Lemma includes_iff (s p : string) :
  includes s p = true <-> ∃ a b, s = a +:+ p +:+ b.
Proof.
  split.
  - unfold includes. destruct (indexOf s p) as [i|] eqn:E; [|discriminate].
    intros _. eexists _, _. exact (indexOf_split _ _ _ E).
  - intros (a & b & ->). apply includes_intro.
Qed.

(** A text that contains [x p y] contains [p]. *)
Lemma includes_part (s x p y : string) :
  includes s (x +:+ p +:+ y) = true -> includes s p = true.
Proof.
  rewrite !includes_iff. intros (a & b & ->).
  exists (a +:+ x), (y +:+ b). now rewrite !text_assoc.
Qed.

Lemma includes_false_part (s x p y : string) :
  includes s p = false -> includes s (x +:+ p +:+ y) = false.
Proof.
  intros H. destruct (includes s (x +:+ p +:+ y)) eqn:E; [|reflexivity].
  apply includes_part in E. congruence.
Qed.

(** [span] cuts the text after its longest prefix in the class. *)
Lemma span_app (p : ascii -> bool) (s : string) :
  s = fst (span p s) +:+ snd (span p s).
Proof.
  induction s as [|c s IH]; [reflexivity |]. cbn [span].
  destruct (p c); [|reflexivity].
  destruct (span p s) as [a b]. cbn [fst snd] in *. push_app. congruence.
Qed.

Lemma span_class (p : ascii -> bool) (s : string) :
  forallb p (fst (span p s)) = true.
Proof.
  induction s as [|c s IH]; [reflexivity |]. cbn [span].
  destruct (p c) eqn:E; [|reflexivity].
  destruct (span p s) as [a b]. simpl in *. now rewrite E.
Qed.

Lemma span_stop (p : ascii -> bool) (s : string) :
  match snd (span p s) with
  | EmptyString => True
  | String c _ => p c = false
  end.
Proof.
  induction s as [|c s IH]; [exact I |]. cbn [span].
  destruct (p c) eqn:E; [|exact E].
  now destruct (span p s) as [a b].
Qed.

(** The span of a text in the class, followed by a character outside it. *)
Lemma span_exact (p : ascii -> bool) (a : string) (c : ascii) (t : string) :
  forallb p a = true -> p c = false ->
  span p (a +:+ String c t) = (a, String c t).
Proof.
  intros Ha Hc. induction a as [|d a IH].
  - push_app. cbn [span]. now rewrite Hc.
  - push_app. cbn [span]. cbn in Ha. apply andb_true_iff in Ha as [Hd Ha].
    now rewrite Hd, (IH Ha).
Qed.

Lemma span_all (p : ascii -> bool) (a : string) :
  forallb p a = true -> span p a = (a, "").
Proof.
  induction a as [|d a IH]; [reflexivity |]. cbn. intros Ha.
  apply andb_true_iff in Ha as [Hd Ha]. now rewrite Hd, (IH Ha).
Qed.

Lemma forallb_app (p : ascii -> bool) (s t : string) :
  forallb p (s +:+ t) = forallb p s && forallb p t.
Proof.
  induction s as [|c s IH]; [reflexivity |]. push_app. cbn [forallb].
  rewrite IH. now rewrite andb_assoc.
Qed.

Lemma upper_char_idem (c : ascii) : upper_char (upper_char c) = upper_char c.
Proof. destruct c as [[] [] [] [] [] [] [] []]; reflexivity. Qed.

Lemma toUpperCase_idem (s : string) : toUpperCase (toUpperCase s) = toUpperCase s.
Proof.
  unfold toUpperCase. induction s as [|c s IH]; [reflexivity |].
  cbn [map_chars]. now rewrite upper_char_idem, IH.
Qed.

End TextFacts.


(** ** The authentication reconciler *)

Module AuthFacts.

Import JsString SessionCreator Scenarios.

Section Reconciler.

Variable native_btoa : option (string -> option string).

(** A run of [applyAuthentication] allocates one object, the copy of the header
    map, and leaves in it the map that [reconcile] describes. *)
Lemma applyAuthentication_run (request : Req.Request loc)
    (authConfig : Auth.AuthConfig) (h : Heap) :
  applyAuthentication native_btoa request authConfig h
  = (Req.with_headers request (fresh (dom h)),
     <[fresh (dom h) := reconcile native_btoa authConfig (headers_of h request)]> h).
Proof.
  unfold applyAuthentication, reconcile, headers_of, spread, skip.
  unfold mbind, state_bind, mret, state_ret, delete_prop, assign_prop.
  destruct (Auth.type authConfig); cbn;
    repeat match goal with
           | |- context [if ?b then _ else _] => destruct b; cbn
           end;
    rewrite ?alter_insert_eq; reflexivity.
Qed.

Lemma fresh_not_allocated (h : Heap) : h !! fresh (dom h) = None.
Proof. apply not_elem_of_dom, is_fresh. Qed.

Lemma fresh_differs (h : Heap) (l : loc) : is_Some (h !! l) -> fresh (dom h) ≠ l.
Proof.
  intros [m Hm] Heq. rewrite <- Heq, fresh_not_allocated in Hm. discriminate.
Qed.

(** The header map of the returned request, in the heap the run leaves. *)
Lemma headers_of_processed (request : Req.Request loc)
    (authConfig : Auth.AuthConfig) (h : Heap) :
  let '(processed, h') := applyAuthentication native_btoa request authConfig h in
  headers_of h' processed = reconcile native_btoa authConfig (headers_of h request).
Proof.
  rewrite applyAuthentication_run. unfold headers_of at 1. cbn.
  now rewrite lookup_insert_eq.
Qed.

Lemma given_text (field : option string) :
  Auth.given field = true -> Auth.text field ≠ "".
Proof. destruct field as [[|c s]|]; cbn; congruence. Qed.

Lemma set_header_plain (k v : string) (m : Headers) :
  k ≠ "__proto__" -> set_header k v m = <[k := v]> m.
Proof.
  intros Hk. unfold set_header.
  destruct (String.eqb_spec k "__proto__"); [contradiction | reflexivity].
Qed.

(** C7.  With a [bearer] configuration whose token is not empty, the returned
    request carries none of the four API-key headers, its [Authorization]
    header is ["Bearer "] followed by the token, and every other header is as
    in the request given. *)
Theorem applyAuthentication_bearer (request : Req.Request loc)
    (authConfig : Auth.AuthConfig) (h : Heap) (tok : string) :
  Auth.type authConfig = Auth.bearer ->
  Auth.token authConfig = Some tok ->
  tok ≠ "" ->
  let '(processed, h') := applyAuthentication native_btoa request authConfig h in
  let before := headers_of h request in
  let after := headers_of h' processed in
  after !! "X-API-Key" = None
  ∧ after !! "x-api-key" = None
  ∧ after !! "X-Auth-Token" = None
  ∧ after !! "x-auth-token" = None
  ∧ after !! "Authorization" = Some ("Bearer " +:+ tok)
  ∧ ∀ k : string,
      k ∉ ["X-API-Key"; "x-api-key"; "X-Auth-Token"; "x-auth-token";
           "Authorization"] ->
      after !! k = before !! k.
Proof.
  intros Htype Htoken Htok.
  pose proof (headers_of_processed request authConfig h) as Hrun.
  destruct (applyAuthentication native_btoa request authConfig h) as [processed h'].
  cbv zeta. rewrite Hrun. unfold reconcile. rewrite Htype, Htoken.
  assert (Auth.given (Some tok) = true) as -> by (destruct tok; [congruence | reflexivity]).
  rewrite set_header_plain by discriminate. cbn [Auth.text default].
  repeat split.
  - rewrite lookup_insert_ne by discriminate.
    rewrite !lookup_delete_ne by discriminate. apply lookup_delete_eq.
  - rewrite lookup_insert_ne by discriminate.
    rewrite !lookup_delete_ne by discriminate. apply lookup_delete_eq.
  - rewrite lookup_insert_ne by discriminate.
    rewrite lookup_delete_ne by discriminate. apply lookup_delete_eq.
  - rewrite lookup_insert_ne by discriminate. apply lookup_delete_eq.
  - apply lookup_insert_eq.
  - intros k Hk. rewrite !not_elem_of_cons in Hk.
    destruct Hk as (H1 & H2 & H3 & H4 & H5 & _).
    rewrite lookup_insert_ne by congruence.
    now rewrite !lookup_delete_ne by congruence.
Qed.

(** C8.  [applyAuthentication] is pure and does not mutate its input: called
    twice in a row on the same request and configuration it returns requests
    with equal header maps; each returned header map is an object of its own,
    distinct from the input's and from the other's; and the input's header
    map, like every object that existed before, holds after the calls what it
    held before. *)
Theorem applyAuthentication_pure (request : Req.Request loc)
    (authConfig : Auth.AuthConfig) (h : Heap) :
  is_Some (h !! Req.headers request) ->
  let '(first, h1) := applyAuthentication native_btoa request authConfig h in
  let '(second, h2) := applyAuthentication native_btoa request authConfig h1 in
  headers_of h1 first = headers_of h2 second
  ∧ headers_of h2 first = headers_of h2 second
  ∧ Req.headers first ≠ Req.headers request
  ∧ Req.headers second ≠ Req.headers request
  ∧ Req.headers first ≠ Req.headers second
  ∧ headers_of h1 request = headers_of h request
  ∧ headers_of h2 request = headers_of h request
  ∧ ∀ l : loc, is_Some (h !! l) -> h1 !! l = h !! l ∧ h2 !! l = h !! l.
Proof.
  intros Hlive. rewrite !applyAuthentication_run.
  set (l1 := fresh (dom h)).
  set (m1 := reconcile native_btoa authConfig (headers_of h request)).
  set (h1 := <[l1 := m1]> h).
  set (l2 := fresh (dom h1)).
  assert (l1 ≠ Req.headers request) as Hl1 by now apply fresh_differs.
  assert (is_Some (h1 !! Req.headers request)) as Hlive1.
  { unfold h1. now rewrite lookup_insert_ne. }
  assert (l2 ≠ Req.headers request) as Hl2 by now apply fresh_differs.
  assert (l2 ≠ l1) as Hl21.
  { apply fresh_differs. unfold h1. rewrite lookup_insert_eq. eauto. }
  assert (headers_of h1 request = headers_of h request) as Hsame.
  { unfold headers_of, h1. now rewrite lookup_insert_ne. }
  assert (h1 !! l1 = Some m1) as Hm1 by apply lookup_insert_eq.
  rewrite Hsame. fold m1. fold h1. unfold headers_of at 1 2 3 4. cbn.
  rewrite lookup_insert_eq, (lookup_insert_ne _ l2 l1), Hm1 by assumption.
  repeat split; try done; try congruence.
  - unfold headers_of. now rewrite lookup_insert_ne.
  - apply lookup_insert_ne. intros <-.
    subst l1. rewrite fresh_not_allocated in H. now destruct H.
  - assert (l1 ≠ l) as Hne1.
    { intros <-. subst l1. rewrite fresh_not_allocated in H. now destruct H. }
    assert (l2 ≠ l) as Hne2.
    { apply fresh_differs. unfold h1. now rewrite lookup_insert_ne. }
    unfold h1. now rewrite !lookup_insert_ne.
Qed.

(** C10.  With a configuration of type [apikey], [bearer], [basic] or [custom]
    in which a credential the variant needs is missing or empty, the returned
    request's header map equals the input's: nothing is set and nothing is
    deleted. *)
Theorem applyAuthentication_incomplete (request : Req.Request loc)
    (authConfig : Auth.AuthConfig) (h : Heap) :
  Auth.incomplete authConfig = true ->
  let '(processed, h') := applyAuthentication native_btoa request authConfig h in
  headers_of h' processed = headers_of h request.
Proof.
  intros Hmissing.
  pose proof (headers_of_processed request authConfig h) as Hrun.
  destruct (applyAuthentication native_btoa request authConfig h) as [processed h'].
  rewrite Hrun. unfold reconcile. unfold Auth.incomplete in Hmissing.
  destruct (Auth.type authConfig); try discriminate;
    apply negb_true_iff in Hmissing; now rewrite Hmissing.
Qed.

End Reconciler.

Lemma applyAuthentication_bearer_witness :
  let '(processed, h') :=
    applyAuthentication None scenario_request bearer_T1 scenario_heap in
  let before := headers_of scenario_heap scenario_request in
  let after := headers_of h' processed in
  after !! "X-API-Key" = None
  ∧ after !! "x-api-key" = None
  ∧ after !! "X-Auth-Token" = None
  ∧ after !! "x-auth-token" = None
  ∧ after !! "Authorization" = Some ("Bearer " +:+ "T1")
  ∧ ∀ k : string,
      k ∉ ["X-API-Key"; "x-api-key"; "X-Auth-Token"; "x-auth-token";
           "Authorization"] ->
      after !! k = before !! k.
Proof.
  apply (applyAuthentication_bearer None scenario_request bearer_T1
           scenario_heap "T1"); [reflexivity | reflexivity | discriminate].
Defined.

Lemma applyAuthentication_pure_witness :
  let '(first, h1) :=
    applyAuthentication None scenario_request bearer_T1 scenario_heap in
  let '(second, h2) :=
    applyAuthentication None scenario_request bearer_T1 h1 in
  headers_of h1 first = headers_of h2 second
  ∧ headers_of h2 first = headers_of h2 second
  ∧ Req.headers first ≠ Req.headers scenario_request
  ∧ Req.headers second ≠ Req.headers scenario_request
  ∧ Req.headers first ≠ Req.headers second
  ∧ headers_of h1 scenario_request = headers_of scenario_heap scenario_request
  ∧ headers_of h2 scenario_request = headers_of scenario_heap scenario_request
  ∧ ∀ l : loc, is_Some (scenario_heap !! l) ->
      h1 !! l = scenario_heap !! l ∧ h2 !! l = scenario_heap !! l.
Proof.
  apply (applyAuthentication_pure None scenario_request bearer_T1 scenario_heap).
  vm_compute. eauto.
Defined.

Lemma applyAuthentication_incomplete_witness :
  let '(processed, h') :=
    applyAuthentication None scenario_request basic_without_password
      scenario_heap in
  headers_of h' processed = headers_of scenario_heap scenario_request.
Proof.
  apply (applyAuthentication_incomplete None scenario_request
           basic_without_password scenario_heap).
  reflexivity.
Defined.

End AuthFacts.

(** ** The request spec builder and the session names: concrete scenarios *)

Module ScenarioFacts.

Import JsString Js SessionCreator Scenarios.

Lemma templated_target :
  resolveTargetUrl templated_url None = "https://example.com/v1/items/example.com".
Proof. reflexivity. Qed.

Lemma templated_parse :
  parseUrl "https://example.com/v1/items/example.com"
  = Some {| protocol := "https:"; hostname := "example.com"; port := None;
            pathname := "/v1/items/example.com"; search := None |}.
Proof. reflexivity. Qed.

Lemma templated_clean_path : cleanPath templated_url = "/".
Proof. reflexivity. Qed.

(** Whether the body can be written does not depend on the headers or on the
    url of the request. *)
Lemma finalBody_encodable {H} (r : Req.Request H) (r' : Req.Request Headers) :
  Req.body r' = Req.body r ->
  if encodable r then ∃ b hs, finalBody r' = Some (b, hs)
  else finalBody r' = None.
Proof.
  unfold encodable, finalBody. cbn [Req.body Req.with_headers Req.headers].
  intros ->. destruct (Req.body r) as [[mode raw formdata | ct sc ex] |];
    [| eauto | eauto].
  destruct (Auth.given raw); [eauto |].
  destruct formdata as [items |]; [| eauto].
  destruct (mapM _ items) as [formPairs |]; cbn; eauto.
Qed.

(** C2, as the specification states it, fails: the name derived from the
    templated url is the whole url, not ["GET /items/{{id}}"]. *)
Lemma templated_name_counterexample :
  generateCompleteSessionName (request_of "GET" templated_url (∅ : Headers))
  = "GET {{baseUrl}}/v1/items/{{id}}"
  ∧ generateCompleteSessionName (request_of "GET" templated_url (∅ : Headers))
    ≠ "GET /items/{{id}}".
Proof. split; [reflexivity | vm_compute; discriminate]. Qed.

(** C2, amended.  For a request with url [{{baseUrl}}/v1/items/{{id}}] and no
    hostname override, [buildRequestSpec] replaces both templates by
    [example.com]: the host is [example.com], the port 443 and the path
    [/v1/items/example.com].  It returns that spec for every request whose
    body can be written, as that of every request without form data can, and
    [null] for the others.  [generateCompleteSessionName] works on the
    original url: nothing follows its last [}}], the path collapses to [/] and
    the name falls back to the whole url, ["GET {{baseUrl}}/v1/items/{{id}}"]
    for the method [GET]. *)
Theorem templated_spec_and_name (request : Req.Request Headers) :
  let body_written := encodable request in
  let request := Req.with_url request templated_url in
  (if body_written
   then ∃ spec, buildRequestSpec request None = Some spec
                ∧ Spec.host spec = "example.com"
                ∧ Spec.port spec = 443%Z
                ∧ Spec.path spec = "/v1/items/example.com"
                ∧ Spec.url spec = "https://example.com/v1/items/example.com"
   else buildRequestSpec request None = None)
  ∧ generateCompleteSessionName request
    = toUpperCase (Req.method request) +:+ " {{baseUrl}}/v1/items/{{id}}".
Proof.
  cbv zeta. split.
  - unfold buildRequestSpec. cbn [Req.url Req.with_url].
    rewrite templated_target, templated_parse.
    pose proof (finalBody_encodable request
                  (Req.with_url request templated_url) eq_refl) as Hfinal.
    destruct (encodable request).
    + destruct Hfinal as (b & hs & ->).
      eexists. split; [reflexivity |].
      cbn. auto.
    + now rewrite Hfinal.
  - unfold generateCompleteSessionName. cbn [Req.url Req.with_url Req.method].
    rewrite templated_clean_path. reflexivity.
Qed.

(** The request of the scenario, with the method [GET] and no body. *)
Example templated_scenario :
  (∃ spec, buildRequestSpec (request_of "GET" templated_url ∅) None = Some spec
           ∧ Spec.host spec = "example.com"
           ∧ Spec.port spec = 443%Z
           ∧ Spec.path spec = "/v1/items/example.com")
  ∧ generateCompleteSessionName (request_of "GET" templated_url (∅ : Headers))
    = "GET {{baseUrl}}/v1/items/{{id}}".
Proof. split; [eexists; split; [reflexivity | now cbn] | reflexivity]. Qed.

(** C6, as the specification states it, fails: the request parsed from the
    collection of scenario 1 is named after its item, ["A"], not by the
    default ["GET https://a.com/x?q=1"]. *)
Lemma collection_name_counterexample :
  ∃ collection r,
    Postman.parsePostmanCollection (fun _ => "") Json.parse collection_text
    = Return collection
    ∧ Postman.requests collection = [r]
    ∧ Postman.name r = VStr "A"
    ∧ Postman.name r ≠ VStr "GET https://a.com/x?q=1".
Proof.
  do 2 eexists. split; [vm_compute; reflexivity |].
  cbn [Postman.requests]. split; [reflexivity |].
  split; [reflexivity | discriminate].
Qed.

(** C6, amended.  Parsing the collection of scenario 1 yields exactly one
    request, with method ["GET"], url ["https://a.com/x?q=1"] and the name of
    its item, ["A"] (the default name ["GET https://a.com/x?q=1"] is for items
    without a name); the session name derived from that request is
    ["GET /x"]. *)
Theorem collection_scenario (stamps : nat -> string) :
  ∃ collection r request,
    Postman.parsePostmanCollection stamps Json.parse collection_text
    = Return collection
    ∧ Postman.requests collection = [r]
    ∧ Postman.method r = "GET"
    ∧ Postman.url r = VStr "https://a.com/x?q=1"
    ∧ Postman.name r = VStr "A"
    ∧ Postman.as_PostmanRequest r = Some request
    ∧ generateCompleteSessionName request = "GET /x".
Proof.
  do 3 eexists. split; [vm_compute; reflexivity |].
  cbn [Postman.requests]. do 4 (split; [reflexivity |]).
  split; [cbv; reflexivity | vm_compute; reflexivity].
Qed.

End ScenarioFacts.

(** ** Regular expressions: the token pattern *)

Module RegexFacts.

Import JsString Regex.

Lemma star_class_to_end (p : ascii -> bool) (fuel : nat) :
  ∀ (prev : string) (s : string),
    len s <= fuel ->
    star_loop (run (Chr p)) at_end fuel prev s = forallb p s.
Proof.
  induction fuel as [|fuel IH]; intros prev s Hlen.
  - destruct s; [reflexivity | unfold len in Hlen; cbn in Hlen; lia].
  - destruct s as [|c s]; [reflexivity |].
    unfold len in Hlen. cbn in Hlen. cbn [star_loop at_end run forallb orb].
    destruct (p c); [|reflexivity]. cbn [andb].
    assert ((len s <? len (String c s)) = true) as ->
      by (apply Nat.ltb_lt; unfold len; cbn; lia).
    cbn [andb]. apply IH. unfold len. lia.
Qed.

Lemma at_least_class_to_end (p : ascii -> bool) (n : nat) :
  ∀ (prev : string) (s : string),
    run (AtLeast n (Chr p)) at_end prev s = (n <=? len s) && forallb p s.
Proof.
  induction n as [|n IH]; intros prev s.
  - change (run (AtLeast 0 (Chr p)) at_end prev s)
      with (star_loop (run (Chr p)) at_end (len s) prev s).
    rewrite star_class_to_end by lia. reflexivity.
  - destruct s as [|c s]; [reflexivity |].
    cbn [AtLeast run forallb]. rewrite IH.
    change (S n <=? len (String c s)) with (n <=? len s).
    destruct (p c), (n <=? len s); reflexivity.
Qed.

Lemma anchored_search_later (r : regex) (c : ascii) (before s : string) :
  search (Seq InputStart r) (String c before) s = false.
Proof.
  revert c before. induction s as [|d s IH]; intros c before; cbn;
    [reflexivity | apply IH].
Qed.

(** [/^[class]{n,}$/.test(s)]: [s] has [n] characters at least, all of the
    class. *)
Lemma test_anchored_class (p : ascii -> bool) (n : nat) (s : string) :
  test (Seq InputStart (Seq (AtLeast n (Chr p)) InputEnd)) s
  = (n <=? len s) && forallb p s.
Proof.
  unfold test. destruct s as [|c s].
  - cbn [search]. rewrite orb_false_r.
    change (run (Seq InputStart (Seq (AtLeast n (Chr p)) InputEnd))
              (fun _ _ => true) "" "")
      with (run (AtLeast n (Chr p)) at_end "" "").
    apply at_least_class_to_end.
  - cbn [search]. rewrite anchored_search_later, orb_false_r.
    change (run (Seq InputStart (Seq (AtLeast n (Chr p)) InputEnd))
              (fun _ _ => true) "" (String c s))
      with (run (AtLeast n (Chr p)) at_end "" (String c s)).
    apply at_least_class_to_end.
Qed.

End RegexFacts.

(** ** The environment parser *)

Module EnvironmentFacts.

Import JsString Js Environment Scenarios.

Section Secrets.

(** [String.prototype.toLowerCase], as the host has it. *)
Variable toLowerCase : string -> string.

Lemma shouldBeSecret_iff (key value : string) :
  shouldBeSecret toLowerCase key value = true
  <-> sensitive_key toLowerCase key ∨ long_token value.
Proof.
  unfold shouldBeSecret, sensitive_key, long_token, token_pattern.
  rewrite orb_true_iff, existsb_exists, RegexFacts.test_anchored_class.
  rewrite !andb_true_iff, Nat.leb_le, Nat.ltb_lt.
  intuition lia.
Qed.

(** C4, as the specification states it, fails: a value of exactly twenty
    token characters, under a key without a keyword, is not marked secret. *)
Lemma twenty_chars_counterexample :
  ∃ variable,
    variable_of JsString.toLowerCase twenty_chars_entry = Some variable
    ∧ len (value variable) = 20
    ∧ forallb token_char (value variable) = true
    ∧ isSecret variable = false.
Proof. eexists. repeat split. Qed.

(** C4, amended.  For every entry whose [key] and [value] are strings, the
    environment parser produces a variable with that key and value whose
    [isSecret] is true exactly when the key, in the lower case that the host
    gives it, contains one of the sixteen keywords, or the value is a string
    of more than twenty characters (twenty-one or more) made only of the
    characters a-z, A-Z, 0-9, underscore, hyphen and dot. *)
Theorem isSecret_iff (item : Js.value) (k v : string) :
  get_prop item "key" = VStr k ->
  get_prop item "value" = VStr v ->
  ∃ variable,
    variable_of toLowerCase item = Some variable
    ∧ key variable = k
    ∧ value variable = v
    ∧ length SENSITIVE_KEYWORDS = 16
    ∧ (isSecret variable = true
       <-> sensitive_key toLowerCase k ∨ long_token v).
Proof.
  intros Hkey Hvalue. unfold variable_of.
  assert (truthy item && typeof_object item = true) as ->.
  { destruct item; cbn in Hkey; try discriminate; reflexivity. }
  rewrite Hkey, Hvalue. eexists. split; [reflexivity |].
  cbn [key value isSecret]. repeat split; try apply shouldBeSecret_iff.
Qed.

End Secrets.

Lemma isSecret_iff_witness :
  ∃ variable,
    variable_of JsString.toLowerCase twenty_chars_entry = Some variable
    ∧ key variable = "x"
    ∧ value variable = "abcdefghij0123456789"
    ∧ length SENSITIVE_KEYWORDS = 16
    ∧ (isSecret variable = true
       <-> sensitive_key JsString.toLowerCase "x"
           ∨ long_token "abcdefghij0123456789").
Proof.
  apply (isSecret_iff JsString.toLowerCase twenty_chars_entry "x"
           "abcdefghij0123456789");
    reflexivity.
Defined.

Section Detector.

Variable toLowerCase : string -> string.
Variable JSON_parse : string -> completion Js.value.

Lemma is_string_true (v : Js.value) (lit : string) :
  is_string v lit = true <-> v = VStr lit.
Proof.
  destruct v; cbn; try (split; [discriminate | intros [=]]).
  rewrite String.eqb_eq. split; [now intros -> | now intros [=]].
Qed.

Lemma nonempty_string (v : Js.value) :
  truthy v && typeof_string v = true <-> ∃ s, v = VStr s ∧ s ≠ "".
Proof.
  destruct v as [| | b | n | s | items | props]; cbn;
    rewrite ?andb_false_r;
    try (split; [discriminate | intros (s' & [=] & _)]).
  destruct s as [|c s]; cbn.
  - split; [discriminate | intros (s' & [= <-] & Hne); congruence].
  - split; [intros _; eexists; split; [reflexivity | discriminate] | reflexivity].
Qed.

Lemma array_value (v : Js.value) :
  truthy v && isArray v = true <-> ∃ items, v = VArr items.
Proof.
  destruct v; cbn; rewrite ?andb_false_r;
    try (split; [discriminate | intros (items' & [=])]).
  split; [eauto | reflexivity].
Qed.

(** What the detector returns on a document that parsed: a value as truthy
    as the test of the document tells; it is the boolean of the test, or the
    falsy [_postman_exported_at] of the document. *)
Lemma isPostmanEnvironment_parsed (content fileName : string) (data : Js.value) :
  JSON_parse content = Return data ->
  ∃ v,
    isPostmanEnvironment toLowerCase JSON_parse content fileName = Return v
    ∧ truthy v = environment_test toLowerCase data fileName
    ∧ (v = VBool (environment_test toLowerCase data fileName)
       ∨ (v = get_prop data "_postman_exported_at"
          ∧ truthy v = false
          ∧ is_string (get_prop data "_postman_variable_scope") "environment"
            = false)).
Proof.
  intros Hparse. unfold isPostmanEnvironment, environment_test. rewrite Hparse.
  assert (∀ c : completion Js.value,
            (∃ v, c = Return v ∧ truthy v = false ∧ v = VBool false) ->
            ∃ v, c = Return v ∧ truthy v = false
                 ∧ (v = VBool false
                    ∨ (v = get_prop data "_postman_exported_at"
                       ∧ truthy v = false
                       ∧ is_string (get_prop data "_postman_variable_scope")
                                   "environment" = false))) as Hfalse.
  { intros c (v & -> & Hv & ->). eauto. }
  destruct data as [| | b | x | t | items | props];
    try (apply Hfalse; eexists; repeat split; reflexivity).
  all: cbn [bind get try_catch].
  all: set (n := get_prop _ "name"); set (vs := get_prop _ "values").
  all: set (sc := get_prop _ "_postman_variable_scope").
  all: set (ex := get_prop _ "_postman_exported_at").
  all: destruct (truthy n && typeof_string n) eqn:Hn.
  all: try (apply andb_false_iff in Hn as [-> | ->]; cbn [negb orb andb];
            rewrite ?orb_true_r; cbn [bind try_catch];
            apply Hfalse; eexists; repeat split; reflexivity).
  all: apply andb_prop in Hn as [-> ->]; cbn [negb orb andb bind try_catch].
  all: destruct (truthy vs && isArray vs) eqn:Hvs.
  all: try (apply andb_false_iff in Hvs as [-> | ->]; cbn [negb orb andb];
            rewrite ?orb_true_r; cbn [bind try_catch];
            apply Hfalse; eexists; repeat split; reflexivity).
  all: apply andb_prop in Hvs as [-> ->]; cbn [negb orb andb bind try_catch].
  all: unfold and_then, or_else; cbn [truthy].
  all: destruct (is_string sc "environment"); cbn [orb andb];
    [eexists; repeat split; auto |].
  all: destruct (truthy ex) eqn:Hex; cbn [truthy andb].
  all: try (destruct (typeof_string ex); cbn [truthy andb];
            eexists; repeat split; auto; fail).
  all: rewrite Hex; eexists; split; [reflexivity |]; split; [exact Hex | auto].
Qed.

Lemma environment_test_true (data : Js.value) (fileName : string) :
  environment_test toLowerCase data fileName = true
  <-> environment_shape data ∧ environment_in_name toLowerCase fileName.
Proof.
  unfold environment_test, environment_shape, environment_in_name.
  rewrite <- !nonempty_string, <- array_value, <- is_string_true.
  rewrite <- !orb_true_iff. split.
  - intros H. apply andb_true_iff in H as [H HF].
    apply andb_true_iff in H as [H HS]. apply andb_true_iff in H as [HN HV].
    auto.
  - intros ((HN & HV & HS) & HF). now rewrite HN, HV, HS, HF.
Qed.


End Detector.


(** A document without scope and without export date: the detector returns
    [undefined], whatever the file is called. *)
Example unmarked_environment_undefined :
  isPostmanEnvironment JsString.toLowerCase Json.parse
    unmarked_environment_text "env.json"
  = Return VUndefined.
Proof. reflexivity. Qed.


End EnvironmentFacts.

(** ** The format classifier *)

Module DetectionFacts.

Import JsString Js FileDetection.

Section Classifier.

Variable toLowerCase : string -> string.
Variable JSON_parse : string -> completion Js.value.

Lemma isLikelyYAML_cases (content fileName : string) :
  isLikelyYAML toLowerCase content fileName
  = yaml_extension toLowerCase fileName || yaml_heuristics content.
Proof.
  unfold isLikelyYAML, yaml_extension, yaml_heuristics.
  now destruct (endsWith _ ".yaml" || endsWith _ ".yml").
Qed.

Lemma catch_clause (content fileName : string) (e : error) :
  (if isLikelyYAML toLowerCase content fileName
   then Return {| type := unknown; confidence := confidence_none;
                  details := yaml_message |}
   else Return {| type := unknown; confidence := confidence_none;
                  details := json_error_prefix +:+ message e |})
  = Return (failure_verdict toLowerCase content fileName e).
Proof.
  unfold failure_verdict. rewrite isLikelyYAML_cases.
  now destruct (yaml_extension toLowerCase fileName || yaml_heuristics content).
Qed.

Lemma isPostmanCollection_completes (data : Js.value) :
  isPostmanCollection data ≠ OutOfFuel.
Proof.
  unfold isPostmanCollection.
  destruct data; cbn; try discriminate;
    repeat match goal with
           | |- (if ?b then _ else _) ≠ _ => destruct b
           end; discriminate.
Qed.

(** C3, as the specification states it, fails: the content [x] is not JSON,
    none of the four patterns matches it, and yet under a file name that ends
    in [.yaml] the verdict carries the YAML message. *)
Lemma yaml_extension_counterexample :
  Json.parse "x" = Throw (SyntaxError "Unexpected token 'x' in JSON")
  ∧ indicatorCount "x" = 0
  ∧ detectFileType JsString.toLowerCase Json.parse "x" "notes.yaml"
    = Return {| type := unknown; confidence := confidence_none;
                details := yaml_message |}.
Proof. repeat split. Qed.

(** C3, amended.  [detectFileType] never throws, and returns a verdict
    whenever the parser completes.  For every content that fails JSON parsing
    the verdict is [unknown] with confidence 0; it carries the YAML-unsupported
    message exactly when the file name, in the lower case that the host gives
    it, ends in [.yaml] or [.yml],
    or two at least of the YAML patterns match the content and the trimmed
    content does not start with a brace or a bracket; otherwise it carries
    the JSON-error message, which ends with the parser's message. *)
Theorem detectFileType_parse_failure (content fileName : string) :
  (∀ e, detectFileType toLowerCase JSON_parse content fileName ≠ Throw e)
  ∧ (JSON_parse content ≠ OutOfFuel ->
     ∃ verdict, detectFileType toLowerCase JSON_parse content fileName = Return verdict)
  ∧ (∀ e, JSON_parse content = Throw e ->
       detectFileType toLowerCase JSON_parse content fileName
       = Return (failure_verdict toLowerCase content fileName e)
       ∧ (details (failure_verdict toLowerCase content fileName e) = yaml_message
          <-> yaml_extension toLowerCase fileName = true
              ∨ (2 <= indicatorCount content ∧ hasJsonIndicators content = false))).
Proof.
  unfold detectFileType.
  match goal with
  | |- context [try_catch ?c ?h] => set (body := c); set (handler := h)
  end.
  assert (∀ e, handler e = Return (failure_verdict toLowerCase content fileName e)) as Hcatch
    by (intros e; apply catch_clause).
  repeat split.
  - intros e. destruct body; cbn; [discriminate | rewrite Hcatch | ]; discriminate.
  - intros Hparse. destruct body as [verdict | e |] eqn:Hbody; cbn; eauto.
    exfalso. subst body.
    destruct (JSON_parse content) as [data | e |] eqn:E; cbn in Hbody;
      try congruence.
    pose proof (isPostmanCollection_completes data) as Hcoll.
    destruct (isPostmanCollection data) as [[|] | e |]; cbn in Hbody;
      try congruence.
    destruct (isOpenAPISpec data); [discriminate |].
    destruct (EnvironmentFacts.isPostmanEnvironment_parsed toLowerCase JSON_parse
                content fileName data E) as (v & Hv & _).
    rewrite Hv in Hbody. cbn in Hbody.
    destruct (truthy v); [discriminate |].
    destruct (detectFromFilename toLowerCase fileName); discriminate.
  - subst body. rewrite H. cbn. apply Hcatch.
  - unfold failure_verdict. cbn [details]. intros Hd.
    destruct (yaml_extension toLowerCase fileName) eqn:Hext; [now left | right].
    destruct (yaml_heuristics content) eqn:Hh.
    + unfold yaml_heuristics in Hh. apply andb_true_iff in Hh as [Hc Hj].
      apply Nat.leb_le in Hc. apply negb_true_iff in Hj. auto.
    + cbn in Hd. discriminate.
  - unfold failure_verdict. cbn [details]. intros [Hext | [Hc Hj]].
    + now rewrite Hext.
    + unfold yaml_heuristics. apply Nat.leb_le in Hc. rewrite Hc, Hj.
      now rewrite orb_true_r.
Qed.

End Classifier.

Lemma detectFileType_parse_failure_witness :
  detectFileType JsString.toLowerCase Json.parse "x" "notes.json"
  = Return (failure_verdict JsString.toLowerCase "x" "notes.json"
              (SyntaxError "Unexpected token 'x' in JSON")).
Proof.
  apply (detectFileType_parse_failure JsString.toLowerCase Json.parse "x"
           "notes.json").
  reflexivity.
Defined.

(** A no-break space is white space for the patterns: the content below
    matches the pattern of a key-value pair and that of a list item. *)
Example yaml_no_break_space :
  let content :=
    "title:" +:+ Scenarios.no_break_space +:+ "Pets" +:+ String (ascii_of_nat 10) "- a"
    +:+ String (ascii_of_nat 10) "" in
  indicatorCount content = 2
  ∧ isLikelyYAML JsString.toLowerCase content "pets.json" = true.
Proof. split; reflexivity. Qed.

End DetectionFacts.

(** ** Strings: searching in a text that has been extended *)

Module StringFacts.

Import JsString.

Lemma len_app (s t : string) : len (s +:+ t) = len s + len t.
Proof. unfold len. induction s; simpl; [reflexivity | congruence]. Qed.

Lemma drop_app (n : nat) (s t : string) :
  n <= len s -> drop n (s +:+ t) = drop n s +:+ t.
Proof.
  unfold len. revert s. induction n as [|n IH]; intros s Hn; [reflexivity |].
  destruct s as [|c s]; simpl in *; [lia | apply IH; lia].
Qed.



Lemma startsWith_len (s p : string) : startsWith s p = true -> len p <= len s.
Proof.
  unfold len. revert s. induction p as [|q p IH]; intros s H; cbn; [lia |].
  destruct s as [|c s]; cbn in *; [discriminate |].
  destruct (Ascii.eqb c q); [apply IH in H; lia | discriminate].
Qed.

Lemma indexOf_bound (s p : string) (i : nat) :
  indexOf s p = Some i -> i + len p <= len s.
Proof.
  revert i. induction s as [|c s IH]; intros i; cbn [indexOf].
  - destruct (startsWith "" p) eqn:E; [|discriminate].
    intros [= <-]. now apply startsWith_len.
  - destruct (startsWith (String c s) p) eqn:E.
    + intros [= <-]. now apply startsWith_len.
    + destruct (indexOf s p) as [j|]; cbn; [|discriminate].
      intros [= <-]. specialize (IH j eq_refl). unfold len in *. cbn. lia.
Qed.


Lemma includes_lastIndexOf (s p : string) :
  includes s p = true -> ∃ i, lastIndexOf s p = Some i.
Proof.
  unfold includes. induction s as [|c s IH]; cbn [indexOf lastIndexOf].
  - destruct (startsWith "" p); [eauto | discriminate].
  - destruct (startsWith (String c s) p).
    + destruct (lastIndexOf s p); eauto.
    + destruct (indexOf s p); cbn; [|discriminate].
      intros _. destruct (IH eq_refl) as [i ->]. eauto.
Qed.

Lemma startsWith_absent (c : ascii) (t p : string) :
  absent c p = true ->
  ∀ s, startsWith (s +:+ String c t) p = startsWith s p.
Proof.
  induction p as [|q p IH]; intros Habs s; [reflexivity |].
  cbn in Habs. apply andb_true_iff in Habs as [Hq Habs].
  destruct s as [|d s]; simpl.
  - now apply negb_true_iff in Hq as ->.
  - destruct (Ascii.eqb d q); [now apply IH | reflexivity].
Qed.

Section Extended.

(** The text [s] is extended by [String c t], where [c] does not occur in the
    pattern [p] and [p] does not occur in [String c t]. *)
Variables (c : ascii) (t p : string).
Hypothesis c_absent : absent c p = true.
Hypothesis p_nonempty : p ≠ "".
Hypothesis p_absent : indexOf (String c t) p = None.

Lemma startsWith_extended (s : string) :
  startsWith (s +:+ String c t) p = startsWith s p.
Proof. now apply startsWith_absent. Qed.



Lemma lastIndexOf_none_short : lastIndexOf (String c t) p = None.
Proof.
  assert (∀ s, indexOf s p = None -> lastIndexOf s p = None) as H.
  { induction s as [|d s IH]; cbn [indexOf lastIndexOf].
    - now destruct (startsWith "" p).
    - destruct (startsWith (String d s) p); [discriminate |].
      destruct (indexOf s p); [discriminate |]. intros _. now rewrite IH. }
  now apply H.
Qed.

Lemma lastIndexOf_extended (s : string) :
  lastIndexOf (s +:+ String c t) p = lastIndexOf s p.
Proof.
  induction s as [|d s IH].
  - change ("" +:+ String c t) with (String c t).
    rewrite lastIndexOf_none_short.
    destruct p; [contradiction | reflexivity].
  - change (String d s +:+ String c t) with (String d (s +:+ String c t)).
    cbn [lastIndexOf]. rewrite IH.
    change (String d (s +:+ String c t)) with (String d s +:+ String c t).
    now rewrite startsWith_extended.
Qed.

End Extended.


(** The first two parts of a split. *)
Lemma split_first (s sep : string) :
  split s sep !! 0
  = Some (match indexOf s sep with Some i => take i s | None => s end).
Proof. unfold split. destruct (len s); cbn; now destruct (indexOf s sep). Qed.

Lemma split_second (s sep : string) (i : nat) :
  sep ≠ "" ->
  indexOf s sep = Some i ->
  split s sep !! 1
  = Some (let rest := drop (i + len sep) s in
          match indexOf rest sep with Some j => take j rest | None => rest end).
Proof.
  intros Hsep Hi. unfold split.
  pose proof (indexOf_bound _ _ _ Hi) as Hb.
  destruct (len s) as [|fuel] eqn:Hlen.
  - destruct sep; [contradiction | unfold len in *; cbn in Hb; lia].
  - cbn [split_fuel]. rewrite Hi. cbn [lookup list_lookup].
    destruct fuel; cbn; destruct (indexOf (drop _ s) sep); reflexivity.
Qed.

Lemma split_second_none (s sep : string) :
  indexOf s sep = None -> split s sep !! 1 = None.
Proof. intros Hi. unfold split. destruct (len s); cbn; now rewrite Hi. Qed.

End StringFacts.

(** ** Session names under an appended query and fragment *)

Module NamingFacts.

Import JsString SessionCreator Scenarios StringFacts.

Lemma indexOf_drop (s p : string) (k : nat) :
  indexOf s p = Some k -> startsWith (drop k s) p = true.
Proof.
  revert k. induction s as [|c s IH]; intros k; cbn [indexOf].
  - destruct (startsWith "" p) eqn:E; [|discriminate]. now intros [= <-].
  - destruct (startsWith (String c s) p) eqn:E; [now intros [= <-] |].
    destruct (indexOf s p) as [j|]; cbn; [|discriminate].
    intros [= <-]. now apply IH.
Qed.








(** Under [separator_followed] the first part of the naming function yields
    a path that starts with a slash. *)
Lemma pathOfUrl_rooted (url : string) :
  separator_followed url = true -> startsWith (pathOfUrl url) "/" = true.
Proof.
  unfold separator_followed, pathOfUrl, includes. intros Hsep.
  destruct (indexOf url "://") as [i|] eqn:Hi.
  - rewrite (split_second url "://" i ltac:(discriminate) Hi) in Hsep |- *.
    cbv zeta in *. set (second := match indexOf _ "://" with
                                  | Some j => _ | None => _ end) in *.
    rewrite Hsep.
    destruct (indexOf second "/") as [k|] eqn:Hk; [|reflexivity].
    now apply indexOf_drop.
  - destruct (indexOf url "}}") as [j|] eqn:Hj.
    + destruct (includes_lastIndexOf url "}}") as [e ->].
      { unfold includes. now rewrite Hj. }
      cbv zeta. now destruct (startsWith (drop (e + 2) url) "/") eqn:E.
    + now destruct (startsWith url "/") eqn:E.
Qed.




(** *** The root fallback *)












(** An origin alone keeps its name, [GET /]; with a slash behind the host the
    fallback returns the slash together with the suffix. *)
Example origin_names :
  generateCompleteSessionName (request_of "GET" "https://a.com" (∅ : Headers))
  = "GET /"
  ∧ generateCompleteSessionName
      (request_of "GET" ("https://a.com" +:+ query_suffix) (∅ : Headers))
    = "GET /"
  ∧ generateCompleteSessionName
      (request_of "GET" ("https://a.com/" +:+ query_suffix) (∅ : Headers))
    = "GET /?x=1#y".
Proof. repeat split. Qed.

End NamingFacts.

(** ** Schema example generation terminates *)

Module OpenAPIFacts.

Import JsString Js OpenAPI.

(** *** Parts of a value are smaller and hold fewer references *)

Ltac cons_sums :=
  cbn -[list_sum union_list];
  repeat match goal with
         | |- context [list_sum (?x :: ?l)] =>
             change (list_sum (x :: l)) with (x + list_sum l)
         end;
  rewrite ?union_list_cons.

Lemma assoc_part (k : string) (props : list (string * value)) (c : value) :
  assoc k props = Some c ->
  Js.size c <= list_sum (map (fun kv => Js.size (snd kv)) props)
  ∧ refs_of c ⊆ ⋃ (map (fun kv => refs_of (snd kv)) props).
Proof.
  induction props as [|[k' v] props IH]; [discriminate |]. cons_sums.
  destruct (String.eqb k' k).
  - intros [= ->]. split; [lia | set_solver].
  - intros Hc. destruct (IH Hc) as [Hs Hr]. split; [lia | set_solver].
Qed.

Lemma element_part (items : list value) (c : value) :
  c ∈ items ->
  Js.size c <= list_sum (map Js.size items)
  ∧ refs_of c ⊆ ⋃ (map refs_of items).
Proof.
  induction 1 as [c items | c d items Hc [Hs Hr]]; cons_sums.
  - split; [lia | set_solver].
  - split; [lia | set_solver].
Qed.

Lemma prop_part (props : list (string * value)) (k : string) (c : value) :
  (k, c) ∈ props ->
  Js.size c <= list_sum (map (fun kv => Js.size (snd kv)) props)
  ∧ refs_of c ⊆ ⋃ (map (fun kv => refs_of (snd kv)) props).
Proof.
  induction props as [|[k' v] props IH].
  - intros H. inversion H.
  - cons_sums. intros H. apply elem_of_cons in H as [[= <- <-] | H].
    + split; [lia | set_solver].
    + destruct (IH H) as [Hs Hr]. split; [lia | set_solver].
Qed.

Lemma compound_size (v : value) : compound v -> 0 < Js.size v.
Proof. unfold compound. destruct v; cbn; intros; (discriminate || lia). Qed.

Lemma item_elem (i : N) (items : list value) (c : value) :
  item i items = Some c -> c ∈ items.
Proof.
  unfold item. destruct (_ <? _)%N; [|discriminate].
  apply list_elem_of_lookup_2.
Qed.

Ltac atom := repeat split; intros; (discriminate || lia || set_solver).

Lemma get_prop_part (v : value) (k : string) :
  (compound v -> Js.size (get_prop v k) < Js.size v)
  ∧ Js.size (get_prop v k) <= Js.size v
  ∧ refs_of (get_prop v k) ⊆ refs_of v.
Proof.
  unfold compound.
  destruct v as [| | b | n | s | items | props];
    try (cbn; repeat split; intros; (discriminate || lia || set_solver)).
  - cbn [get_prop]. destruct (String.eqb k "length"); [cbn; atom |].
    destruct (parse_index k) as [i|]; [|cbn; atom].
    destruct (_ !! _); cbn; atom.
  - cbn [get_prop]. destruct (String.eqb k "length"); [cbn; atom |].
    destruct (parse_index k) as [i|]; [|cbn; atom].
    destruct (item i items) as [c|] eqn:Hc; [|cbn; atom].
    apply item_elem, element_part in Hc as [Hs Hr].
    cbn -[list_sum union_list]. repeat split; intros; (lia || set_solver).
  - cbn [get_prop]. destruct (assoc k props) as [c|] eqn:Hc; [|cbn; atom].
    apply assoc_part in Hc as [Hs Hr].
    cbn -[list_sum union_list]. repeat split; intros; (lia || set_solver).
Qed.

Lemma get_prop_smaller (v : value) (k : string) :
  compound v -> Js.size (get_prop v k) < Js.size v.
Proof. apply get_prop_part. Qed.

Lemma get_prop_size (v : value) (k : string) :
  Js.size (get_prop v k) <= Js.size v.
Proof. apply get_prop_part. Qed.

Lemma get_prop_refs (v : value) (k : string) :
  refs_of (get_prop v k) ⊆ refs_of v.
Proof. apply get_prop_part. Qed.

Lemma entries_part (v : value) (k : string) (c : value) :
  (k, c) ∈ entries v ->
  Js.size c <= Js.size v ∧ refs_of c ⊆ refs_of v.
Proof.
  intros H.
  destruct v as [| | b | n | s | items | props]; cbn [entries] in H;
    try (now inversion H).
  - apply elem_of_lookup_imap in H as (i & ch & [= _ ->] & _).
    cbn. split; [lia | set_solver].
  - apply elem_of_lookup_imap in H as (i & x & [= _ ->] & Hx).
    apply list_elem_of_lookup_2, element_part in Hx as [Hs Hr].
    cbn -[list_sum union_list]. split; [lia | set_solver].
  - apply prop_part in H as [Hs Hr].
    cbn -[list_sum union_list]. split; [lia | set_solver].
Qed.

Lemma ref_listed (v : value) (r : string) :
  get_prop v "$ref" = VStr r -> r ∈ refs_of v.
Proof.
  destruct v as [| | b | n | s | items | props]; cbn; try discriminate.
  destruct (assoc "$ref" props) as [[]|]; try discriminate.
  intros [= ->]. set_solver.
Qed.

(** What a read gives is a part of the value, or an object of the host, or
    a value without parts. *)
Lemma inherited_host (v : value) (k : string) (r : reached) :
  inherited_member v k = Some r -> ∃ o, r = Host o.
Proof.
  unfold inherited_member. destruct (prototype_of v); [|discriminate].
  destruct (String.eqb k "__proto__"); [intros [= <-]; eauto |].
  destruct (named _ k); [intros [= <-]; eauto | discriminate].
Qed.

Lemma host_member_atom (o : host_object) (k : string) (v : value) :
  host_member o k = Some (Value v) -> Js.size v = 0 ∧ refs_of v = ∅.
Proof.
  unfold host_member. cbv zeta.
  destruct o; try discriminate;
    destruct (String.eqb k "__proto__"), (String.eqb k "length");
    repeat match goal with
           | |- context [named ?names k] => destruct (named names k)
           end;
    try discriminate; intros [= <-]; split; reflexivity.
Qed.

Lemma read_part (v : value) (k : string) (c : value) :
  read v k = Value c ->
  Js.size c <= Js.size v ∧ refs_of c ⊆ refs_of v ∧ (compound v -> Js.size c < Js.size v).
Proof.
  unfold read. destruct (has_own k v).
  - intros [= <-]. pose proof (get_prop_part v k). tauto.
  - destruct (inherited_member v k) as [r|] eqn:Hr.
    + apply inherited_host in Hr as [o ->]. discriminate.
    + intros [= <-]. cbn. split; [lia |]. split; [set_solver |].
      intros Hc. now apply compound_size.
Qed.

Lemma walk_bounded (path : list string) :
  ∀ (start : reached) (c : value) (n : nat) (R : Visited),
    walk path start = Some (Value c) ->
    match start with
    | Value v => Js.size v <= n ∧ refs_of v ⊆ R
    | Host _ => True
    end ->
    Js.size c <= n ∧ refs_of c ⊆ R.
Proof.
  induction path as [|segment path IH]; intros start c n R; cbn [walk].
  - intros [= ->]. auto.
  - destruct start as [v | o].
    + destruct (_ || _); [discriminate |]. intros Hwalk [Hs Hr].
      apply (IH _ _ _ _ Hwalk).
      destruct (read v segment) as [part | o] eqn:Hread; [|exact I].
      apply read_part in Hread as (Hs' & Hr' & _). split; [lia | set_solver].
    + destruct (host_member o segment) as [[v | o'] |] eqn:Hnext;
        [| |discriminate]; intros Hwalk _; apply (IH _ _ _ _ Hwalk); [|exact I].
      apply host_member_atom in Hnext as [-> ->]. split; [lia | set_solver].
Qed.

Lemma walk_part (path : list string) (current c : value) :
  walk path (Value current) = Some (Value c) ->
  Js.size c <= Js.size current ∧ refs_of c ⊆ refs_of current.
Proof. intros Hwalk. apply (walk_bounded _ _ _ _ _ Hwalk). split; [lia | set_solver]. Qed.

Lemma completes_bind {A B} (Q : A -> Prop) (P : B -> Prop)
    (c : completion A) (k : A -> completion B) :
  completes Q c -> (∀ a, Q a -> completes P (k a)) -> completes P (bind c k).
Proof. destruct c; cbn; auto. Qed.

Lemma completes_weaken {A} (Q P : A -> Prop) (c : completion A) :
  completes Q c -> (∀ a, Q a -> P a) -> completes P c.
Proof. destruct c; cbn; auto. Qed.

Section Termination.

(** The document, and a set that holds its reference strings. *)
Variables (spec : value) (U : Visited).
Hypothesis spec_refs : refs_of spec ⊆ U.

Lemma remaining_decreases (r : string) (visited : Visited) :
  r ∈ U -> r ∉ visited -> remaining U ({[r]} ∪ visited) < remaining U visited.
Proof.
  intros HU Hv. unfold remaining. apply subset_size. set_solver.
Qed.

Lemma remaining_monotone (visited visited' : Visited) :
  visited ⊆ visited' -> remaining U visited' <= remaining U visited.
Proof. intros Hsub. unfold remaining. apply subseteq_size. set_solver. Qed.

Lemma circular_small (ref : value) :
  Js.size (circular ref) <= largest_resolved spec ∧ refs_of (circular ref) ⊆ U.
Proof. unfold largest_resolved. cbn. split; [lia | set_solver]. Qed.

Lemma has_false (visited : Visited) (r : string) :
  has visited (VStr r) = false -> r ∉ visited.
Proof. cbn. now intros H%bool_decide_eq_false. Qed.

(** [resolveSchemaRef] completes within as many calls as there are
    references left to visit, plus one; what it returns is small and holds
    references of the document only. *)
Lemma resolveSchemaRef_completes (fuel : nat) :
  ∀ (ref : value) (visited : Visited),
    remaining U visited < fuel ->
    (∀ r, ref = VStr r -> r ∈ U) ->
    completes (fun resolved =>
                 match resolved with
                 | Value resolved =>
                     Js.size resolved <= largest_resolved spec
                     ∧ refs_of resolved ⊆ U
                 | Host _ => True
                 end)
              (resolveSchemaRef fuel ref spec visited).
Proof.
  induction fuel as [|fuel IH]; intros ref visited Hfuel Href; [lia |].
  cbn [resolveSchemaRef].
  destruct (has visited ref) eqn:Hhas; [apply circular_small |].
  destruct ref as [| | b | n | r | items | props]; try exact I.
  specialize (Href r eq_refl). apply has_false in Hhas.
  destruct (negb (startsWith r "#/")); [cbn; split; [lia | set_solver] |].
  destruct (walk _ (Value spec)) as [[current | o] |] eqn:Hwalk;
    [| exact I | cbn; split; [lia | set_solver]].
  apply walk_part in Hwalk as [Hsize Hrefs].
  destruct (_ && _) eqn:Hcond.
  - apply IH.
    + pose proof (remaining_decreases r visited Href Hhas). cbn [add_ref]. lia.
    + intros r' Hr'. apply ref_listed in Hr'. set_solver.
  - cbn. split; [unfold largest_resolved; lia | set_solver].
Qed.

Lemma properties_loop_completes (generate : generator) (visited : Visited)
    (bound : nat) :
  sound_generator U generate visited bound ->
  ∀ (entries : list (string * value)) (obj : list (string * value))
    (vis : Visited),
    visited ⊆ vis ->
    (∀ k c, (k, c) ∈ entries -> Js.size c < bound ∧ refs_of c ⊆ U) ->
    completes (fun r => vis ⊆ r.2) (properties_loop generate entries obj vis).
Proof.
  intros Hgen entries.
  induction entries as [|[propName propSchema] entries IH];
    intros obj vis Hvis Hparts; cbn [properties_loop].
  - cbn. set_solver.
  - destruct (Hparts propName propSchema) as [Hsize Hrefs]; [left |].
    eapply completes_bind; [apply (Hgen propSchema vis Hvis Hsize Hrefs) |].
    intros [propExample vis'] Hgrow. cbn in Hgrow.
    eapply completes_weaken.
    + apply IH; [set_solver |].
      intros k c Hin. apply (Hparts k c). now right.
    + cbn. set_solver.
Qed.

Lemma required_loop_completes (generate : generator) (visited : Visited)
    (bound : nat) (properties : value) :
  sound_generator U generate visited bound ->
  (∀ k part, read properties k = Value part ->
             Js.size part < bound ∧ refs_of part ⊆ U) ->
  ∀ (required : list value) (obj : list (string * value)) (vis : Visited),
    visited ⊆ vis ->
    completes (fun r => vis ⊆ r.2)
              (required_loop generate properties required obj vis).
Proof.
  intros Hgen Hparts required.
  induction required as [|requiredProp required IH];
    intros obj vis Hvis; cbn [required_loop].
  - cbn. set_solver.
  - cbv zeta. destruct (_ && _); [|now apply IH].
    eapply completes_bind with (Q := fun r => vis ⊆ r.2).
    + destruct (read properties (toString requiredProp)) as [part | o] eqn:Hread;
        [|cbn; set_solver].
      destruct (Hparts _ _ Hread) as [Hsize Hrefs].
      apply (Hgen _ vis Hvis Hsize Hrefs).
    + intros [propExample vis'] Hgrow. cbn in Hgrow.
      eapply completes_weaken; [apply IH; set_solver |].
      cbn. set_solver.
Qed.

(** The host's reading of numeric strings. *)
Variable string_positive : string -> bool.

Ltac returns_visited :=
  repeat match goal with
         | |- grows _ (if ?b then _ else _) => destruct b
         end;
  cbn; set_solver.

(** [generateExampleFromSchema] completes when its fuel exceeds the number of
    references left to visit times the size of the largest schema a reference
    resolves to, plus the size of the schema at hand. *)
Lemma generate_completes (fuel : nat) :
  ∀ (schema : value) (visited : Visited),
    remaining U visited * S (largest_resolved spec) + Js.size schema < fuel ->
    refs_of schema ⊆ U ->
    grows visited
          (generateExampleFromSchema string_positive fuel schema spec visited).
Proof.
  induction fuel as [|fuel IH]; intros schema visited Hfuel Hrefs; [lia |].
  cbn [generateExampleFromSchema].
  destruct (negb (truthy schema) || negb (typeof_object schema)) eqn:Hc;
    [returns_visited |].
  assert (compound schema) as Hcompound.
  { unfold compound. now destruct (truthy schema), (typeof_object schema). }
  destruct (truthy (get_prop schema "$ref")) eqn:Htruthy.
  { (* a reference *)
    destruct (has visited _) eqn:Hhas; [returns_visited |].
    destruct (get_prop schema "$ref") as [| | b | n | r | items | props] eqn:Href;
      try (cbn in Hhas |- *; rewrite ?Hhas; exact I).
    apply ref_listed in Href. apply has_false in Hhas.
    eapply completes_bind.
    - apply resolveSchemaRef_completes; [nia |].
      intros r' [= <-]. set_solver.
    - intros [resolved | o]; [|intros _; cbn [add_ref]; cbn; set_solver].
      intros [Hsize Hrefs']. cbn beta iota.
      destruct (truthy resolved); [|returns_visited].
      eapply completes_weaken.
      + apply IH; [|exact Hrefs'].
        assert (r ∈ U) as HU by set_solver.
        pose proof (remaining_decreases r visited HU Hhas). cbn [add_ref]. nia.
      + cbn [add_ref]. cbn. set_solver. }
  destruct (negb (is_undefined _)); [returns_visited |].
  cbv zeta.
  destruct (is_string _ "string"); [returns_visited |].
  destruct (is_string _ "number" || is_string _ "integer"); [returns_visited |].
  destruct (is_string _ "boolean"); [returns_visited |].
  destruct (is_string _ "array").
  { (* an array *)
    destruct (truthy (get_prop schema "items")); [|returns_visited].
    eapply completes_bind.
    - apply IH.
      + pose proof (get_prop_smaller schema "items" Hcompound). lia.
      + pose proof (get_prop_refs schema "items"). set_solver.
    - intros [itemExample vis'] Hgrow. exact Hgrow. }
  destruct (is_string _ "object"); [|returns_visited].
  (* an object *)
  set (generate := fun part vis =>
         generateExampleFromSchema string_positive fuel part spec vis).
  assert (sound_generator U generate visited (Js.size schema)) as Hgen.
  { intros part vis Hvis Hsize Hrefs'. apply IH; [|exact Hrefs'].
    pose proof (remaining_monotone _ _ Hvis). nia. }
  pose proof (get_prop_smaller schema "properties" Hcompound) as Hprops.
  pose proof (get_prop_refs schema "properties") as Hprops_refs.
  eapply completes_bind with (Q := fun r => visited ⊆ r.2).
  - destruct (truthy (get_prop schema "properties")); [|cbn; set_solver].
    apply properties_loop_completes with (visited := visited)
                                         (bound := Js.size schema);
      [exact Hgen | set_solver |].
    intros k c Hin. apply entries_part in Hin as [Hs Hr].
    split; [lia | set_solver].
  - intros [obj vis1] Hvis1. cbn in Hvis1.
    eapply completes_bind with (Q := fun r => vis1 ⊆ r.2).
    + destruct (_ && _); [|cbn; set_solver].
      apply required_loop_completes with (visited := visited)
                                         (bound := Js.size schema);
        [exact Hgen | | exact Hvis1].
      intros k part Hread. apply read_part in Hread as (Hs & Hr & _).
      split; [lia | set_solver].
    + intros [obj' vis2] Hvis2. cbn in Hvis2 |- *. set_solver.
Qed.

End Termination.

(** C9.  [generateExampleFromSchema] terminates on every schema and every
    document, those whose references point back to themselves included: with
    fuel for [depth_bound schema spec] nested calls, or for more, it returns
    an example or throws (the [TypeError] of a reference that is not a
    string), and the set of visited references it returns includes the one it
    was given.  [resolveSchemaRef], on its copy of that set, terminates
    within the same bound. *)
Theorem generateExampleFromSchema_terminates
    (string_positive : string -> bool) (schema spec : value)
    (visited : Visited) (extra : nat) :
  completes (fun result => visited ⊆ result.2)
    (generateExampleFromSchema string_positive
       (depth_bound schema spec + extra) schema spec visited)
  ∧ completes (fun _ => True)
      (resolveSchemaRef (depth_bound schema spec + extra)
         (get_prop schema "$ref") spec visited).
Proof.
  set (U := refs_of schema ∪ refs_of spec).
  assert (refs_of spec ⊆ U) as Hspec by set_solver.
  assert (base.size (U ∖ visited) <= base.size U) as Hleft
    by (apply subseteq_size; set_solver).
  split.
  - apply (generate_completes spec U Hspec string_positive).
    + unfold depth_bound, remaining, largest_resolved. fold U. nia.
    + set_solver.
  - eapply completes_weaken.
    + apply (resolveSchemaRef_completes spec U Hspec).
      * unfold depth_bound, remaining. fold U. nia.
      * intros r Hr. apply ref_listed in Hr. set_solver.
    + auto.
Qed.

(** The schemas of the circular document: [Node] yields the example of its
    plain property, and the chain [A], [B], [A] yields no example. *)
Example circular_document_examples :
  ∃ spec,
    Json.parse Scenarios.circular_spec_text = Return spec
    ∧ generateExampleFromSchema (fun _ => false)
        (depth_bound (Scenarios.ref_to "Node") spec)
        (Scenarios.ref_to "Node") spec ∅
      = Return (VObj [("id", VNum (of_Z 0))],
                {["#/components/schemas/Node"]})
    ∧ generateExampleFromSchema (fun _ => false)
        (depth_bound (Scenarios.ref_to "A") spec)
        (Scenarios.ref_to "A") spec ∅
      = Return (VNull, {["#/components/schemas/A"]}).
Proof.
  eexists. split; [vm_compute; reflexivity |]. split; vm_compute; reflexivity.
Qed.

End OpenAPIFacts.

(** ** [parseUrl] *)

Module UrlFacts.

Import JsString SessionCreator UrlText TextFacts.

(** A match on one leading character is a test of that character. *)
Lemma on_colon {A} (s : string) (X : string -> A) (Y : A) :
  match s with String ":" after => X after | _ => Y end
  = match s with
    | String c after => if Ascii.eqb c ":" then X after else Y
    | EmptyString => Y
    end.
Proof.
  destruct s as [|c after]; [reflexivity |].
  destruct c as [[] [] [] [] [] [] [] []]; reflexivity.
Qed.

Lemma on_slash {A} (s : string) (X : string -> A) (Y : A) :
  match s with String "/" after => X after | _ => Y end
  = match s with
    | String c after => if Ascii.eqb c "/" then X after else Y
    | EmptyString => Y
    end.
Proof.
  destruct s as [|c after]; [reflexivity |].
  destruct c as [[] [] [] [] [] [] [] []]; reflexivity.
Qed.

Lemma on_question {A} (s : string) (X : string -> A) (Y : A) :
  match s with String "?" after => X after | _ => Y end
  = match s with
    | String c after => if Ascii.eqb c "?" then X after else Y
    | EmptyString => Y
    end.
Proof.
  destruct s as [|c after]; [reflexivity |].
  destruct c as [[] [] [] [] [] [] [] []]; reflexivity.
Qed.

(** White space outside ASCII is made of bytes outside ASCII. *)
Lemma wide_space_bytes (a b c : ascii) :
  wide_space a b c = true -> 128 <= nat_of_ascii b ∧ 128 <= nat_of_ascii c.
Proof.
  unfold wide_space. cbv zeta.
  repeat rewrite ?orb_true_iff, ?andb_true_iff, ?Nat.eqb_eq, ?Nat.leb_le. lia.
Qed.

Lemma is_space_width (a : ascii) (s : string) :
  is_space a = true -> space_width (String a s) = 1.
Proof. intros H. cbn [space_width]. now rewrite H. Qed.

(** The white space at the head of a text stays when the text goes on. *)
Lemma space_width_app (x y : string) :
  0 < space_width x -> space_width (x +:+ y) = space_width x.
Proof.
  destruct x as [|a [|b [|c x]]]; push_app; cbn [space_width];
    try (intros H; exfalso; lia);
    destruct (is_space a); try reflexivity; try (intros H; exfalso; lia).
  destruct ((nat_of_ascii a =? 194) && (nat_of_ascii b =? 160));
    [reflexivity | intros H; exfalso; lia].
Qed.

(** A character of ASCII behind a text that is not empty starts no white
    space together with the end of that text. *)
Lemma space_width_settled (x : string) (c : ascii) (t : string) :
  x ≠ "" -> nat_of_ascii c < 128 ->
  space_width (x +:+ String c t) = space_width x.
Proof.
  intros Hx Hc.
  destruct x as [|a [|b [|d x]]]; [contradiction | | |];
    push_app; cbn [space_width]; destruct (is_space a); try reflexivity.
  - destruct (Nat.eqb_spec (nat_of_ascii c) 160) as [E|_]; [lia |].
    rewrite andb_false_r. destruct t as [|e t]; [reflexivity |].
    destruct (wide_space a c e) eqn:E; [|reflexivity].
    apply wide_space_bytes in E. lia.
  - destruct ((nat_of_ascii a =? 194) && (nat_of_ascii b =? 160)); [reflexivity |].
    destruct (wide_space a b c) eqn:E; [|reflexivity].
    apply wide_space_bytes in E. lia.
Qed.

Lemma starts_in_app (set x y : string) :
  x ≠ "" -> starts_in set (x +:+ y) = starts_in set x.
Proof. destruct x; [contradiction | reflexivity]. Qed.

Lemma starts_in_char (set : string) (c : ascii) (s : string) :
  starts_in set (String c s) = char_in set c.
Proof. reflexivity. Qed.

Lemma host_end_app (x y : string) :
  host_end x = true -> host_end (x +:+ y) = true.
Proof.
  unfold host_end. destruct x as [|a x]; [discriminate |].
  rewrite starts_in_app by discriminate.
  destruct (starts_in ":/" (String a x)); [reflexivity |]. cbn [orb].
  rewrite !Nat.ltb_lt. intros H. now rewrite space_width_app.
Qed.

Lemma path_end_app (x y : string) :
  path_end x = true -> path_end (x +:+ y) = true.
Proof.
  unfold path_end. destruct x as [|a x]; [discriminate |].
  rewrite starts_in_app by discriminate.
  destruct (starts_in "?" (String a x)); [now rewrite !orb_true_r |].
  rewrite !orb_false_r, !Nat.ltb_lt. intros H. now rewrite space_width_app.
Qed.

Lemma query_end_app (x y : string) :
  query_end x = true -> query_end (x +:+ y) = true.
Proof.
  unfold query_end. rewrite !Nat.ltb_lt. intros H. now rewrite space_width_app.
Qed.

Lemma host_end_settled (x : string) (c : ascii) (t : string) :
  x ≠ "" -> nat_of_ascii c < 128 -> host_end (x +:+ String c t) = host_end x.
Proof.
  intros Hx Hc. unfold host_end.
  now rewrite starts_in_app, space_width_settled.
Qed.

Lemma path_end_settled (x : string) (c : ascii) (t : string) :
  x ≠ "" -> nat_of_ascii c < 128 -> path_end (x +:+ String c t) = path_end x.
Proof.
  intros Hx Hc. unfold path_end.
  now rewrite starts_in_app, space_width_settled.
Qed.

Lemma query_end_settled (x : string) (c : ascii) (t : string) :
  x ≠ "" -> nat_of_ascii c < 128 -> query_end (x +:+ String c t) = query_end x.
Proof. intros Hx Hc. unfold query_end. now rewrite space_width_settled. Qed.

Lemma path_end_slash (p : string) : path_end (String "/" p) = false.
Proof. destruct p as [|b [|c p]]; reflexivity. Qed.

Lemma query_end_mark (q : string) : query_end (String "?" q) = false.
Proof. destruct q as [|b [|c q]]; reflexivity. Qed.

(** [span_to] cuts the text before the first position that starts a
    character outside the class. *)
Lemma span_to_app (stop : string -> bool) (s : string) :
  s = fst (span_to stop s) +:+ snd (span_to stop s).
Proof.
  induction s as [|c s IH]; [reflexivity |]. cbn [span_to].
  destruct (stop (String c s)); [reflexivity |].
  destruct (span_to stop s) as [a b]. cbn [fst snd] in *. push_app. congruence.
Qed.

Lemma span_to_stop (stop : string -> bool) (s : string) :
  snd (span_to stop s) = "" ∨ stop (snd (span_to stop s)) = true.
Proof.
  induction s as [|c s IH]; [by left |]. cbn [span_to].
  destruct (stop (String c s)) eqn:E; [by right |].
  now destruct (span_to stop s) as [a b].
Qed.

Lemma span_to_free (stop : string -> bool) (s : string) :
  (∀ x y, stop x = true -> stop (x +:+ y) = true) ->
  free_of stop (fst (span_to stop s)) = true.
Proof.
  intros Hmono. induction s as [|c s IH]; [reflexivity |]. cbn [span_to].
  destruct (stop (String c s)) eqn:E; [reflexivity |].
  pose proof (span_to_app stop s) as Happ.
  destruct (span_to stop s) as [a b]. cbn [fst snd free_of] in *.
  rewrite IH, andb_true_r.
  destruct (stop (String c a)) eqn:Ea; [|reflexivity].
  apply (Hmono _ b) in Ea. push_app. congruence.
Qed.

(** The span of a text free of stops that is followed by nothing, or by a
    stop that starts with a character of ASCII. *)
Lemma span_to_exact (stop : string -> bool) (a rest : string) :
  (∀ x c t, x ≠ "" -> nat_of_ascii c < 128 -> stop (x +:+ String c t) = stop x) ->
  free_of stop a = true ->
  rest = "" ∨ (∃ c t, rest = String c t ∧ nat_of_ascii c < 128 ∧ stop rest = true) ->
  span_to stop (a +:+ rest) = (a, rest).
Proof.
  intros Hsettled Ha Hrest. induction a as [|d a IH].
  - push_app. destruct Hrest as [-> | (c & t & -> & _ & Hstop)]; [reflexivity |].
    cbn [span_to]. now rewrite Hstop.
  - cbn [free_of] in Ha. apply andb_true_iff in Ha as [Hd Ha].
    apply negb_true_iff in Hd. push_app. cbn [span_to].
    assert (stop (String d (a +:+ rest)) = false) as ->.
    { destruct Hrest as [-> | (c & t & -> & Hc & _)].
      - now rewrite text_empty_r.
      - rewrite <- text_cons, Hsettled by (assumption || discriminate). exact Hd. }
    now rewrite (IH Ha).
Qed.

(** A text free of the stops of a class holds the bytes of the class only. *)
Lemma free_host_char (s : string) :
  free_of host_end s = true -> forallb host_char s = true.
Proof.
  induction s as [|c s IH]; [reflexivity |]. cbn [free_of forallb].
  intros H. apply andb_true_iff in H as [Hc Hs]. rewrite (IH Hs), andb_true_r.
  apply negb_true_iff in Hc. unfold host_end in Hc.
  apply orb_false_iff in Hc as [Hset Hwidth]. unfold host_char.
  rewrite starts_in_char in Hset. rewrite Hset. cbn [orb].
  destruct (is_space c) eqn:E; [|reflexivity].
  now rewrite (is_space_width _ _ E) in Hwidth.
Qed.

Lemma free_path_char (s : string) :
  free_of path_end s = true -> forallb path_char s = true.
Proof.
  induction s as [|c s IH]; [reflexivity |]. cbn [free_of forallb].
  intros H. apply andb_true_iff in H as [Hc Hs]. rewrite (IH Hs), andb_true_r.
  apply negb_true_iff in Hc. unfold path_end in Hc.
  apply orb_false_iff in Hc as [Hwidth Hset]. unfold path_char.
  destruct (is_space c) eqn:E; [now rewrite (is_space_width _ _ E) in Hwidth |].
  cbn [orb]. rewrite starts_in_char in Hset.
  destruct (Ascii.eqb_spec c "?") as [->|]; [discriminate | reflexivity].
Qed.

Lemma free_query_char (s : string) :
  free_of query_end s = true -> forallb query_char s = true.
Proof.
  induction s as [|c s IH]; [reflexivity |]. cbn [free_of forallb].
  intros H. apply andb_true_iff in H as [Hc Hs]. rewrite (IH Hs), andb_true_r.
  apply negb_true_iff in Hc. unfold query_end in Hc. unfold query_char.
  destruct (is_space c) eqn:E; [now rewrite (is_space_width _ _ E) in Hc |].
  reflexivity.
Qed.

(** The parts that a successful [parseUrl] has read, in the order of the
    pattern: scheme, host, port digits, path and query as matched (empty when
    the optional group did not take part), and the text left over.  No
    position of the host starts a colon, a slash or white space, none of the
    path white space or a question mark, none of the query white space; and
    the text left over behind a query is empty or starts with white space. *)
Lemma parseUrl_read (urlString : string) (r : ParsedUrl) :
  parseUrl urlString = Some r ->
  ∃ m1 m2 m3 m4 m5 rest : string,
    urlString = m1 +:+ "://" +:+ m2
                +:+ (if truthy m3 then ":" +:+ m3 else "") +:+ m4 +:+ m5 +:+ rest
    ∧ (m1 = "http" ∨ m1 = "https")
    ∧ m2 ≠ "" ∧ free_of host_end m2 = true
    ∧ forallb is_digit m3 = true
    ∧ (m4 = "" ∨ ∃ p, m4 = String "/" p ∧ free_of path_end p = true)
    ∧ (m5 = "" ∨ ∃ q, m5 = String "?" q ∧ free_of query_end q = true
                       ∧ (rest = "" ∨ query_end rest = true))
    ∧ r = {| protocol := m1 +:+ ":"; hostname := m2; port := group m3;
             pathname := if truthy m4 then m4 else "/"; search := group m5 |}.
Proof.
  unfold parseUrl. intros Hparse.
  assert (∃ m1 rest0, (m1 = "http" ∨ m1 = "https")
            ∧ urlString = m1 +:+ "://" +:+ rest0
            ∧ (if startsWith urlString "https://"
               then Some ("https", drop 8 urlString)
               else if startsWith urlString "http://"
                    then Some ("http", drop 7 urlString) else None)
              = Some (m1, rest0)) as (m1 & rest0 & Hm1 & Hurl & Hscheme).
  { destruct (startsWith urlString "https://") eqn:Es.
    - exists "https", (drop 8 urlString). apply startsWith_prefix in Es. auto.
    - destruct (startsWith urlString "http://") eqn:Ep; [|discriminate].
      exists "http", (drop 7 urlString). apply startsWith_prefix in Ep. auto. }
  rewrite Hscheme in Hparse. clear Hscheme.
  pose proof (span_to_app host_end rest0) as Happ2.
  pose proof (span_to_free host_end rest0 host_end_app) as Hclass2.
  destruct (span_to host_end rest0) as [m2 rest1]. cbn [fst snd] in *.
  destruct (truthy m2) eqn:Hm2; [|discriminate]. cbn [negb] in Hparse.
  rewrite on_colon in Hparse.
  set (stage3 := match rest1 with EmptyString => _ | String _ _ => _ end) in Hparse.
  assert (∃ m3 rest2, stage3 = (m3, rest2)
            ∧ rest1 = (if truthy m3 then ":" +:+ m3 else "") +:+ rest2
            ∧ forallb is_digit m3 = true) as (m3 & rest2 & -> & Happ3 & Hclass3).
  { subst stage3. destruct rest1 as [|c after]; [by exists "", "" |].
    destruct (Ascii.eqb_spec c ":") as [->|]; [|by eexists "", _].
    pose proof (span_app is_digit after) as Happ.
    pose proof (span_class is_digit after) as Hclass.
    destruct (span is_digit after) as [ds after']. cbn [fst snd] in *.
    destruct (truthy ds) eqn:Hds; [|by eexists "", _].
    exists ds, after'. rewrite Hds. push_app. by rewrite <- Happ. }
  rewrite on_slash in Hparse.
  set (stage4 := match rest2 with EmptyString => _ | String _ _ => _ end) in Hparse.
  assert (∃ m4 rest3, stage4 = (m4, rest3)
            ∧ rest2 = m4 +:+ rest3
            ∧ (m4 = "" ∨ ∃ p, m4 = String "/" p ∧ free_of path_end p = true))
    as (m4 & rest3 & -> & Happ4 & Hclass4).
  { subst stage4. destruct rest2 as [|c after]; [by exists "", ""; auto |].
    destruct (Ascii.eqb_spec c "/") as [->|]; [|by eexists "", _; auto].
    pose proof (span_to_app path_end after) as Happ.
    pose proof (span_to_free path_end after path_end_app) as Hclass.
    destruct (span_to path_end after) as [p after']. cbn [fst snd] in *.
    exists (String "/" p), after'. push_app. rewrite <- Happ.
    repeat split. right. eauto. }
  rewrite on_question in Hparse.
  set (m5 := match rest3 with EmptyString => _ | String _ _ => _ end) in Hparse.
  assert (∃ rest4, rest3 = m5 +:+ rest4
            ∧ (m5 = "" ∨ ∃ q, m5 = String "?" q ∧ free_of query_end q = true
                               ∧ (rest4 = "" ∨ query_end rest4 = true)))
    as (rest4 & Happ5 & Hclass5).
  { subst m5. destruct rest3 as [|c after]; [by exists ""; auto |].
    destruct (Ascii.eqb_spec c "?") as [->|]; [|by eexists; auto].
    pose proof (span_to_app query_end after) as Happ.
    pose proof (span_to_free query_end after query_end_app) as Hclass.
    pose proof (span_to_stop query_end after) as Hstop.
    exists (snd (span_to query_end after)).
    push_app. rewrite <- Happ. split; [reflexivity |]. right. eauto. }
  injection Hparse as <-.
  exists m1, m2, m3, m4, m5, rest4.
  split; [congruence |].
  repeat split; try assumption.
  now destruct m2.
Qed.

(** The same parts, read byte by byte. *)
Lemma parseUrl_parts (urlString : string) (r : ParsedUrl) :
  parseUrl urlString = Some r ->
  ∃ m1 m2 m3 m4 m5 rest : string,
    urlString = m1 +:+ "://" +:+ m2
                +:+ (if truthy m3 then ":" +:+ m3 else "") +:+ m4 +:+ m5 +:+ rest
    ∧ (m1 = "http" ∨ m1 = "https")
    ∧ m2 ≠ "" ∧ forallb host_char m2 = true
    ∧ forallb is_digit m3 = true
    ∧ (m4 = "" ∨ ∃ p, m4 = String "/" p ∧ forallb path_char p = true)
    ∧ (m5 = "" ∨ ∃ q, m5 = String "?" q ∧ forallb query_char q = true)
    ∧ r = {| protocol := m1 +:+ ":"; hostname := m2; port := group m3;
             pathname := if truthy m4 then m4 else "/"; search := group m5 |}.
Proof.
  intros Hparse.
  destruct (parseUrl_read _ _ Hparse)
    as (m1 & m2 & m3 & m4 & m5 & rest & Hurl & Hm1 & Hm2 & Hc2 & Hc3 & Hc4 & Hc5 & Hr).
  exists m1, m2, m3, m4, m5, rest.
  repeat split; try assumption.
  - now apply free_host_char.
  - destruct Hc4 as [-> | (p & -> & Hp)]; [by left |].
    right. exists p. split; [reflexivity | now apply free_path_char].
  - destruct Hc5 as [-> | (q & -> & Hq & _)]; [by left |].
    right. exists q. split; [reflexivity | now apply free_query_char].
Qed.

Lemma group_some (s : string) : truthy s = true -> group s = Some s.
Proof. unfold group. now intros ->. Qed.

Lemma group_cases (s t : string) : group s = Some t -> s = t ∧ t ≠ "".
Proof. unfold group. destruct s; [discriminate |]. intros [= <-]. easy. Qed.

(** The text is a scheme, the separator and at least one character of a
    host. *)
Lemma parseUrl_some (m1 t : string) :
  m1 = "http" ∨ m1 = "https" -> t ≠ "" -> host_end t = false ->
  ∃ r, parseUrl (m1 +:+ "://" +:+ t) = Some r.
Proof.
  intros Hm1 Ht Hc. unfold parseUrl.
  assert ((if startsWith (m1 +:+ "://" +:+ t) "https://"
           then Some ("https", drop 8 (m1 +:+ "://" +:+ t))
           else if startsWith (m1 +:+ "://" +:+ t) "http://"
                then Some ("http", drop 7 (m1 +:+ "://" +:+ t))
                else None) = Some (m1, t)) as ->.
  { destruct Hm1 as [-> | ->]; reflexivity. }
  destruct t as [|c t]; [contradiction |].
  cbn [span_to]. rewrite Hc.
  destruct (span_to host_end t) as [a rest1]. cbn [truthy negb].
  repeat match goal with
         | |- context [let '(_, _) := ?x in _] => destruct x
         end.
  eauto.
Qed.

(** A text that [parseUrl] accepts starts with a scheme, the separator and
    a character of a host. *)
Lemma parseUrl_head (urlString : string) (r : ParsedUrl) :
  parseUrl urlString = Some r ->
  ∃ m1 t : string,
    (m1 = "http" ∨ m1 = "https") ∧ t ≠ "" ∧ host_end t = false
    ∧ urlString = m1 +:+ "://" +:+ t.
Proof.
  unfold parseUrl. intros Hparse.
  assert (∃ m1 rest0, (m1 = "http" ∨ m1 = "https")
            ∧ urlString = m1 +:+ "://" +:+ rest0
            ∧ (if startsWith urlString "https://"
               then Some ("https", drop 8 urlString)
               else if startsWith urlString "http://"
                    then Some ("http", drop 7 urlString) else None)
              = Some (m1, rest0)) as (m1 & rest0 & Hm1 & Hurl & Hscheme).
  { destruct (startsWith urlString "https://") eqn:Es.
    - exists "https", (drop 8 urlString). apply startsWith_prefix in Es. auto.
    - destruct (startsWith urlString "http://") eqn:Ep; [|discriminate].
      exists "http", (drop 7 urlString). apply startsWith_prefix in Ep. auto. }
  rewrite Hscheme in Hparse. clear Hscheme.
  exists m1, rest0. split; [assumption |].
  destruct rest0 as [|c t]; [discriminate |].
  cbn [span_to] in Hparse.
  destruct (host_end (String c t)); [discriminate |]. easy.
Qed.

(** The parse of a scheme, a host and a path that starts with a slash. *)
Lemma parseUrl_rooted (m1 m2 t : string) :
  m1 = "http" ∨ m1 = "https" -> m2 ≠ "" -> free_of host_end m2 = true ->
  parseUrl (m1 +:+ "://" +:+ m2 +:+ String "/" t)
  = Some {| protocol := m1 +:+ ":";
            hostname := m2;
            port := None;
            pathname := String "/" (fst (span_to path_end t));
            search :=
              group match snd (span_to path_end t) with
                    | String "?" after => String "?" (fst (span_to query_end after))
                    | _ => ""
                    end |}.
Proof.
  intros Hm1 Hne Hhost. unfold parseUrl.
  assert ((if startsWith (m1 +:+ "://" +:+ m2 +:+ String "/" t) "https://"
           then Some ("https", drop 8 (m1 +:+ "://" +:+ m2 +:+ String "/" t))
           else if startsWith (m1 +:+ "://" +:+ m2 +:+ String "/" t) "http://"
                then Some ("http", drop 7 (m1 +:+ "://" +:+ m2 +:+ String "/" t))
                else None) = Some (m1, m2 +:+ String "/" t)) as ->.
  { destruct Hm1 as [-> | ->]; reflexivity. }
  rewrite (span_to_exact host_end m2 (String "/" t) host_end_settled Hhost)
    by (right; exists "/"%char, t; split; [reflexivity | split; [apply Nat.ltb_lt; reflexivity | reflexivity]]).
  destruct m2; [contradiction |]. cbn [truthy negb].
  destruct (span_to path_end t) as [p after']. reflexivity.
Qed.

(** X1.  What [parseUrl] returns is well formed, and it is read off the
    text.  The protocol is [http:] or [https:]; the host is not empty and no
    position of it starts a colon, a slash or a character of white space; a
    port is a non-empty run of digits; the path starts with a slash and holds
    neither white space nor a question mark; a query starts with a question
    mark and holds no white space.  Put together again, the parts are the
    beginning of the text parsed: protocol, two slashes, host, the port after
    a colon if there is one, the path (or nothing, where the path [/] stands
    for a missing one) and the query.  A query runs to the next white space:
    what the text holds behind it is nothing, or starts with white space, so
    that the query takes a fragment with it. *)
Theorem parseUrl_shape (urlString : string) (r : ParsedUrl) :
  parseUrl urlString = Some r ->
  ((protocol r = "http:" ∨ protocol r = "https:")
   ∧ hostname r ≠ "" ∧ free_of host_end (hostname r) = true
   ∧ match port r with
     | Some p => p ≠ "" ∧ forallb is_digit p = true
     | None => True
     end
   ∧ startsWith (pathname r) "/" = true ∧ free_of path_end (pathname r) = true
   ∧ match search r with
     | Some q => startsWith q "?" = true ∧ free_of query_end q = true
     | None => True
     end)
  ∧ ∃ path rest : string,
      urlString
      = protocol r +:+ "//" +:+ hostname r
        +:+ match port r with Some p => ":" +:+ p | None => "" end
        +:+ path +:+ default "" (search r) +:+ rest
      ∧ (path = pathname r ∨ (path = "" ∧ pathname r = "/"))
      ∧ (search r = None ∨ rest = "" ∨ 0 < space_width rest).
Proof.
  intros Hparse.
  destruct (parseUrl_read _ _ Hparse)
    as (m1 & m2 & m3 & m4 & m5 & rest & Hurl & Hm1 & Hm2 & Hc2 & Hc3 & Hc4 & Hc5 & ->).
  cbn [protocol hostname port pathname search]. split.
  - split; [destruct Hm1 as [-> | ->]; auto |].
    split; [assumption |]. split; [assumption |].
    split; [destruct m3; cbn; [exact I | split; [discriminate | assumption]] |].
    split; [destruct Hc4 as [-> | (p & -> & Hp)]; reflexivity |].
    split; [destruct Hc4 as [-> | (p & -> & Hp)];
            [reflexivity | cbn [truthy free_of]; now rewrite path_end_slash] |].
    destruct Hc5 as [-> | (q & -> & Hq & _)]; cbn [group truthy free_of];
      [exact I | split; [reflexivity | now rewrite query_end_mark]].
  - exists m4, rest. split; [|split].
    + assert (default "" (group m5) = m5) as -> by now destruct m5.
      rewrite Hurl, text_assoc. now destruct m3.
    + destruct m4; auto.
    + destruct Hc5 as [-> | (q & -> & _ & [-> | Hrest])]; [by left | by right; left |].
      right; right. unfold query_end in Hrest. now apply Nat.ltb_lt.
Qed.

(** X2.  [parseUrl] answers [null] exactly for the texts that do not start
    with [http://] or [https://] followed by a character of a host: a
    character that is neither a colon, a slash nor white space. *)
Theorem parseUrl_fails_iff (urlString : string) :
  parseUrl urlString = None
  <-> ¬ ∃ m1 t : string,
          (m1 = "http" ∨ m1 = "https") ∧ t ≠ "" ∧ host_end t = false
          ∧ urlString = m1 +:+ "://" +:+ t.
Proof.
  split.
  - intros Hnone (m1 & t & Hm1 & Ht & Hc & ->).
    destruct (parseUrl_some m1 t Hm1 Ht Hc) as [r Hr]. congruence.
  - intros Hno. destruct (parseUrl urlString) as [r|] eqn:Hparse; [|reflexivity].
    exfalso. apply Hno. exact (parseUrl_head _ _ Hparse).
Qed.

Lemma parseUrl_shape_witness :
  let r := {| protocol := "https:"; hostname := "a.com"; port := Some "8080";
              pathname := "/x"; search := Some "?q=1#top" |} in
  ((protocol r = "http:" ∨ protocol r = "https:")
   ∧ hostname r ≠ "" ∧ free_of host_end (hostname r) = true
   ∧ match port r with
     | Some p => p ≠ "" ∧ forallb is_digit p = true
     | None => True
     end
   ∧ startsWith (pathname r) "/" = true ∧ free_of path_end (pathname r) = true
   ∧ match search r with
     | Some q => startsWith q "?" = true ∧ free_of query_end q = true
     | None => True
     end)
  ∧ ∃ path rest : string,
      "https://a.com:8080/x?q=1#top tail"
      = protocol r +:+ "//" +:+ hostname r
        +:+ match port r with Some p => ":" +:+ p | None => "" end
        +:+ path +:+ default "" (search r) +:+ rest
      ∧ (path = pathname r ∨ (path = "" ∧ pathname r = "/"))
      ∧ (search r = None ∨ rest = "" ∨ 0 < space_width rest).
Proof.
  apply (parseUrl_shape "https://a.com:8080/x?q=1#top tail"). reflexivity.
Defined.

(** White space outside ASCII ends a host as a blank does, and is no
    character of one. *)
Example parseUrl_no_break_space :
  parseUrl ("http://" +:+ Scenarios.no_break_space +:+ "x") = None
  ∧ hostname <$> parseUrl ("http://a" +:+ Scenarios.no_break_space +:+ "x/p")
    = Some "a".
Proof. split; reflexivity. Qed.

End UrlFacts.

(** ** [buildRequestSpec] *)

Module SpecFacts.

Import JsString SessionCreator UrlText TextFacts UrlFacts.


Lemma parseInt_nonneg (ds : string) :
  forallb is_digit ds = true -> (0 <= parseInt ds)%Z.
Proof.
  unfold parseInt.
  assert (∀ acc, (0 <= acc)%Z -> forallb is_digit ds = true ->
            (0 <= fold_left (fun acc d => (10 * acc + (charCode d - 48))%Z)
                            (list_ascii_of_string ds) acc)%Z) as H.
  { induction ds as [|d ds IH]; intros acc Hacc Hds; [exact Hacc |].
    cbn in Hds |- *. apply andb_true_iff in Hds as [Hd Hds].
    apply IH; [|exact Hds].
    unfold is_digit, between in Hd. apply andb_true_iff in Hd as [Hd _].
    apply Nat.leb_le in Hd. unfold charCode. lia. }
  apply H. lia.
Qed.



(** X4.  Every spec that [buildRequestSpec] returns is coherent: it keeps
    the method of the request; [tls] tells whether its url starts with
    [https://]; its url starts with the scheme and the host, which is not
    empty and holds no colon, slash or white space; the port is not negative,
    and it is 443 under TLS and 80 otherwise unless a colon follows the host
    in the url; the path starts with a slash; the query is empty or starts
    with a question mark. *)
Theorem buildRequestSpec_coherent (request : Req.Request Headers)
    (hostname : option string) (spec : Spec.RequestSpec) :
  buildRequestSpec request hostname = Some spec ->
  let origin :=
    (if Spec.tls spec then "https://" else "http://") +:+ Spec.host spec in
  Spec.method spec = Req.method request
  ∧ Spec.tls spec = startsWith (Spec.url spec) "https://"
  ∧ Spec.host spec ≠ "" ∧ forallb host_char (Spec.host spec) = true
  ∧ startsWith (Spec.url spec) origin = true
  ∧ (0 <= Spec.port spec)%Z
  ∧ (startsWith (drop (len origin) (Spec.url spec)) ":" = false ->
     Spec.port spec = if Spec.tls spec then 443%Z else 80%Z)
  ∧ startsWith (Spec.path spec) "/" = true
  ∧ (Spec.query spec = "" ∨ startsWith (Spec.query spec) "?" = true).
Proof.
  unfold buildRequestSpec. intros Hspec.
  destruct (parseUrl _) as [urlObj|] eqn:Hparse; [|discriminate].
  destruct (parseUrl_parts _ _ Hparse)
    as (m1 & m2 & m3 & m4 & m5 & rest & Hurl & Hm1 & Hm2 & Hc2 & Hc3 & Hc4 & Hc5 & ->).
  destruct (finalBody request) as [[body headers]|]; [|discriminate].
  injection Hspec as <-.
  cbn [Spec.host Spec.port Spec.tls Spec.url Spec.method Spec.path Spec.query
       SessionCreator.hostname port protocol pathname search].
  rewrite Hurl. clear Hurl Hparse.
  assert (String.eqb (m1 +:+ ":") "https:" = startsWith (m1 +:+ "://" +:+ m2) "https://"
          ∧ (if String.eqb (m1 +:+ ":") "https:" then "https://" else "http://")
            = m1 +:+ "://") as [Htls Horigin].
  { destruct Hm1 as [-> | ->]; split; reflexivity. }
  cbv zeta. rewrite Horigin, !text_assoc.
  set (tail := (if truthy m3 then ":" +:+ m3 else "") +:+ m4 +:+ m5 +:+ rest).
  assert ((m1 +:+ "://" +:+ m2) +:+ tail = m1 +:+ "://" +:+ m2 +:+ tail) as Happ.
  { now rewrite !text_assoc. }
  split; [reflexivity |].
  split.
  { destruct Hm1 as [-> | ->]; reflexivity. }
  split; [assumption |]. split; [assumption |].
  split.
  { rewrite <- Happ. apply startsWith_app. }
  split.
  { destruct m3 as [|d ds]; cbn [group truthy].
    - destruct (String.eqb _ _); lia.
    - now apply parseInt_nonneg. }
  split.
  { rewrite <- Happ, StringFacts.drop_app by reflexivity.
    assert (drop (len (m1 +:+ "://" +:+ m2)) (m1 +:+ "://" +:+ m2) = "") as ->.
    { generalize (m1 +:+ "://" +:+ m2). intros s.
      unfold len. induction s; [reflexivity | assumption]. }
    subst tail. destruct m3; [reflexivity |]. discriminate. }
  split.
  { destruct Hc4 as [-> | (p & -> & _)]; reflexivity. }
  destruct Hc5 as [-> | (q & -> & _)]; cbn; auto.
Qed.

Lemma buildRequestSpec_coherent_witness :
  let spec :=
    {| Spec.method := "get"; Spec.host := "a.com"; Spec.port := 8080%Z;
       Spec.path := "/x"; Spec.query := "?q=1"; Spec.headers := ∅;
       Spec.body := ""; Spec.tls := false; Spec.url := "http://a.com:8080/x?q=1" |} in
  let origin :=
    (if Spec.tls spec then "https://" else "http://") +:+ Spec.host spec in
  Spec.method spec = "get"
  ∧ Spec.tls spec = startsWith (Spec.url spec) "https://"
  ∧ Spec.host spec ≠ "" ∧ forallb host_char (Spec.host spec) = true
  ∧ startsWith (Spec.url spec) origin = true
  ∧ (0 <= Spec.port spec)%Z
  ∧ (startsWith (drop (len origin) (Spec.url spec)) ":" = false ->
     Spec.port spec = if Spec.tls spec then 443%Z else 80%Z)
  ∧ startsWith (Spec.path spec) "/" = true
  ∧ (Spec.query spec = "" ∨ startsWith (Spec.query spec) "?" = true).
Proof.
  apply (buildRequestSpec_coherent
           (Scenarios.request_of "get" "http://a.com:8080/x?q=1" ∅) None).
  reflexivity.
Defined.

Lemma hex_digit_form (n : nat) : n < 16 -> form_char (hex_digit n) = true.
Proof.
  intros Hn. do 16 (destruct n as [|n]; [reflexivity |]). lia.
Qed.

Lemma percent_form (n : nat) : n < 256 -> forallb form_char (percent n) = true.
Proof.
  intros Hn. unfold percent. cbn [forallb].
  rewrite !hex_digit_form; [reflexivity | |].
  - apply Nat.mod_upper_bound. lia.
  - apply Nat.Div0.div_lt_upper_bound. lia.
Qed.

Lemma encode_char_form (c : ascii) : forallb form_char (encode_char c) = true.
Proof.
  unfold encode_char.
  destruct (is_word c || char_in "-.!~*'()" c) eqn:E.
  - cbn. rewrite andb_true_r. unfold form_char.
    apply orb_true_iff in E as [-> | E]; [reflexivity |].
    apply orb_true_iff. right.
    revert E. destruct c as [[] [] [] [] [] [] [] []]; cbv; congruence.
  - apply percent_form. apply nat_ascii_bounded.
Qed.

Lemma pair_bytes_form (b c b' c' : ascii) :
  between 160 175 b = true -> between 176 191 b' = true ->
  forallb form_char (pair_bytes b c b' c') = true.
Proof.
  unfold between. intros Hb Hb'.
  apply andb_true_iff in Hb as [Hb1 Hb2]. apply andb_true_iff in Hb' as [Hb1' Hb2'].
  apply Nat.leb_le in Hb1, Hb2, Hb1', Hb2'.
  pose proof (nat_ascii_bounded c). pose proof (nat_ascii_bounded c').
  unfold pair_bytes. cbv zeta.
  set (point := 64 * 1024 + _ + _).
  assert (point < 1280 * 1024) as Hpoint by (subst point; lia).
  rewrite !forallb_app, !percent_form; [reflexivity | | | |].
  - pose proof (Nat.mod_upper_bound point 64). lia.
  - pose proof (Nat.mod_upper_bound (point / 64) 64). lia.
  - pose proof (Nat.mod_upper_bound (point / 4096) 64). lia.
  - assert (point / (64 * 4096) <= 4); [|lia].
    apply Nat.lt_succ_r, Nat.Div0.div_lt_upper_bound. lia.
Qed.

(** The induction on the text goes down by one byte or by the six of a pair
    of surrogates. *)
Lemma encodeURIComponent_form (s out : string) :
  encodeURIComponent s = Some out -> forallb form_char out = true.
Proof.
  remember (len s) as n eqn:Hn. revert s out Hn.
  induction n as [n IH] using lt_wf_ind. intros s out Hn.
  assert (∀ a s1 out, len s1 < n ->
            (rest ← encodeURIComponent s1; Some (encode_char a +:+ rest)) = Some out ->
            forallb form_char out = true) as Hplain.
  { intros a s1 out' Hlt Hout.
    destruct (encodeURIComponent s1) as [rest|] eqn:Hrest; [|discriminate].
    injection Hout as <-.
    now rewrite forallb_app, encode_char_form, (IH _ Hlt s1 rest eq_refl Hrest). }
  destruct s as [|a s1]; [intros [= <-]; reflexivity |].
  cbn [encodeURIComponent].
  destruct s1 as [|b [|c s3]];
    try (apply Hplain; subst n; unfold len; cbn [String.length]; lia).
  destruct (high_surrogate a b) eqn:Hhigh.
  - destruct s3 as [|a' [|b' [|c' s6]]]; try discriminate.
    destruct (low_surrogate a' b') eqn:Hlow; [|discriminate].
    destruct (encodeURIComponent s6) as [rest|] eqn:Hrest; [|discriminate].
    intros [= <-].
    unfold high_surrogate in Hhigh. unfold low_surrogate in Hlow.
    apply andb_true_iff in Hhigh as [_ Hb]. apply andb_true_iff in Hlow as [_ Hb'].
    rewrite forallb_app, (pair_bytes_form _ _ _ _ Hb Hb').
    apply (IH (len s6)) with (s := s6); [subst n; unfold len; cbn [String.length]; lia | reflexivity | exact Hrest].
  - destruct (low_surrogate a b); [discriminate |].
    apply Hplain. subst n. unfold len. cbn [String.length]. lia.
Qed.

Lemma join_form (sep : string) (parts : list string) :
  forallb form_char sep = true ->
  Forall (fun part => forallb form_char part = true) parts ->
  forallb form_char (join sep parts) = true.
Proof.
  intros Hsep. induction 1 as [|part parts Hpart Hparts IH]; [reflexivity |].
  cbn [join]. destruct parts as [|next parts]; [assumption |].
  now rewrite !forallb_app, Hpart, Hsep, IH.
Qed.

(** X5.  [buildRequestSpec] changes no header of the request other than
    [Content-Type].  The headers of the spec are those of the request, unless
    the request has a form body and no raw text: then [Content-Type] is set to
    [application/x-www-form-urlencoded] and the body holds only characters
    that [encodeURIComponent] leaves, percent escapes and the separators [=]
    and [&].  A request without a body, or with the body of an OpenAPI
    operation, gets an empty body. *)
Theorem buildRequestSpec_headers (request : Req.Request Headers)
    (hostname : option string) (spec : Spec.RequestSpec) :
  buildRequestSpec request hostname = Some spec ->
  (∀ k : string, k ≠ "Content-Type" ->
     Spec.headers spec !! k = Req.headers request !! k)
  ∧ (Spec.headers spec = Req.headers request
     ∨ (Spec.headers spec = <["Content-Type" := url_encoded]> (Req.headers request)
        ∧ forallb form_char (Spec.body spec) = true
        ∧ ∃ mode raw items,
            Req.body request = Some (Req.PostmanBody mode raw (Some items))
            ∧ Auth.given raw = false))
  ∧ match Req.body request with
    | Some (Req.PostmanBody _ raw _) =>
        Auth.given raw = true ->
        Spec.body spec = Auth.text raw ∧ Spec.headers spec = Req.headers request
    | Some (Req.OpenAPIBody _ _ _) | None =>
        Spec.body spec = "" ∧ Spec.headers spec = Req.headers request
    end.
Proof.
  unfold buildRequestSpec. intros Hspec.
  destruct (parseUrl _) as [urlObj|]; [|discriminate].
  unfold finalBody in Hspec.
  destruct (Req.body request) as [[mode raw formdata | ct schema example]|].
  - destruct (Auth.given raw) eqn:Hraw.
    + injection Hspec as <-. cbn. auto.
    + destruct formdata as [items|];
        [|injection Hspec as <-; cbn [Spec.headers Spec.body];
          split; [auto | split; [auto | discriminate]]].
      destruct (mapM _ items) as [formPairs|] eqn:Hpairs; [|discriminate].
      cbn [mbind option_bind] in Hspec. injection Hspec as <-.
      cbn [Spec.headers Spec.body].
      rewrite AuthFacts.set_header_plain by discriminate.
      split; [intros k Hk; now rewrite lookup_insert_ne |].
      split; [|discriminate]. right.
      split; [reflexivity |]. split; [|eauto].
      apply join_form; [reflexivity |].
      apply mapM_Some in Hpairs.
      induction Hpairs as [|item pair items pairs Hpair _ IH]; constructor; [|exact IH].
      destruct (encodeURIComponent (Req.key item)) as [k|] eqn:Hk; [|discriminate].
      destruct (encodeURIComponent (Auth.text (Req.value item))) as [v|] eqn:Hv;
        [|discriminate].
      injection Hpair as <-.
      now rewrite !forallb_app, (encodeURIComponent_form _ _ Hk),
        (encodeURIComponent_form _ _ Hv).
  - injection Hspec as <-. cbn. auto.
  - injection Hspec as <-. cbn. auto.
Qed.

Lemma buildRequestSpec_headers_witness :
  let request :=
    {| Req.id := "1"; Req.name := "login"; Req.method := "POST";
       Req.url := "https://a.com/login";
       Req.headers := {[ "Accept" := "*/*" ]} : Headers;
       Req.body :=
         Some (Req.PostmanBody "urlencoded" None
                 (Some [ {| Req.key := "user name"; Req.value := Some "a&b=c";
                            Req.type := "text" |} ]));
       Req.auth := None; Req.parameters := None |} in
  let spec :=
    {| Spec.method := "POST"; Spec.host := "a.com"; Spec.port := 443%Z;
       Spec.path := "/login"; Spec.query := "";
       Spec.headers := <["Content-Type" := url_encoded]> {[ "Accept" := "*/*" ]};
       Spec.body := "user%20name=a%26b%3Dc"; Spec.tls := true;
       Spec.url := "https://a.com/login" |} in
  (∀ k : string, k ≠ "Content-Type" ->
     Spec.headers spec !! k = Req.headers request !! k)
  ∧ (Spec.headers spec = Req.headers request
     ∨ (Spec.headers spec = <["Content-Type" := url_encoded]> (Req.headers request)
        ∧ forallb form_char (Spec.body spec) = true
        ∧ ∃ mode raw items,
            Req.body request = Some (Req.PostmanBody mode raw (Some items))
            ∧ Auth.given raw = false))
  ∧ match Req.body request with
    | Some (Req.PostmanBody _ raw _) =>
        Auth.given raw = true ->
        Spec.body spec = Auth.text raw ∧ Spec.headers spec = Req.headers request
    | Some (Req.OpenAPIBody _ _ _) | None =>
        Spec.body spec = "" ∧ Spec.headers spec = Req.headers request
    end.
Proof.
  intros request spec.
  apply (buildRequestSpec_headers request None spec).
  reflexivity.
Defined.

(** X6.  With a hostname override that, once trimmed, is made of characters
    of a host (none of its positions starts a colon, a slash or white space),
    for a url without a template, every spec that [buildRequestSpec] returns
    goes to the trimmed override on the default port of its scheme: a port
    written in the url of the request is dropped with the host it followed. *)
Theorem buildRequestSpec_override (request : Req.Request Headers)
    (hostname : option string) (spec : Spec.RequestSpec) :
  override hostname = true ->
  free_of host_end (trim (Auth.text hostname)) = true ->
  templated (Req.url request) = false ->
  buildRequestSpec request hostname = Some spec ->
  Spec.host spec = trim (Auth.text hostname)
  ∧ Spec.port spec = (if Spec.tls spec then 443 else 80)%Z.
Proof.
  unfold override, templated, buildRequestSpec, resolveTargetUrl.
  intros Hover Hhost Htemplated. rewrite Hover, Htemplated.
  apply andb_true_iff in Hover as [_ Hne].
  set (host := trim (Auth.text hostname)) in *.
  assert (host ≠ "") as Hhost_ne by (now destruct host).
  set (url := Req.url request) in *.
  destruct (startsWith url "/") eqn:Hroot.
  - destruct url as [|c t]; [discriminate |].
    cbn in Hroot. destruct (Ascii.eqb_spec c "/") as [->|]; [|discriminate].
    change (negb (startsWith ("https://" +:+ host +:+ String "/" t) "http"))
      with false. cbv iota.
    change ("https://" +:+ host +:+ String "/" t)
      with ("https" +:+ "://" +:+ host +:+ String "/" t).
    rewrite parseUrl_rooted by auto.
    destruct (finalBody request) as [[body headers]|]; [|discriminate].
    intros [= <-]. now cbn.
  - assert ((if negb (startsWith url "http") then "https://" +:+ url else url)
            = (if startsWith url "http" then url else "https://" +:+ url)) as Hsame
      by now destruct (startsWith url "http").
    destruct (parseUrl (if startsWith url "http" then url else "https://" +:+ url))
      as [urlObj|] eqn:Hparse.
    + destruct (parseUrl_parts _ _ Hparse)
        as (m1 & m2 & m3 & m4 & m5 & rest & _ & Hm1 & _ & _ & _ & Hc4 & Hc5 & ->).
      cbn [protocol pathname search].
      assert (∃ p, (if truthy m4 then m4 else "/") = String "/" p) as [p ->].
      { destruct Hc4 as [-> | (p & -> & _)]; eauto. }
      assert (default "" (group m5) = m5) as -> by now destruct m5.
      assert ((m1 +:+ ":") +:+ "//" +:+ host +:+ String "/" p +:+ m5
              = m1 +:+ "://" +:+ host +:+ String "/" (p +:+ m5)) as ->.
      { now rewrite text_assoc. }
      assert (startsWith (m1 +:+ "://" +:+ host +:+ String "/" (p +:+ m5)) "http"
              = true) as -> by (destruct Hm1 as [-> | ->]; reflexivity).
      cbn [negb]. rewrite parseUrl_rooted by auto.
      destruct (finalBody request) as [[body headers]|]; [|discriminate].
    intros [= <-]. now cbn.
    + rewrite Hsame, Hparse. discriminate.
Qed.

Lemma buildRequestSpec_override_witness :
  let spec :=
    {| Spec.method := "get"; Spec.host := "b.org"; Spec.port := 80%Z;
       Spec.path := "/x"; Spec.query := "?q=1"; Spec.headers := ∅;
       Spec.body := ""; Spec.tls := false; Spec.url := "http://b.org/x?q=1" |} in
  Spec.host spec = trim (Auth.text (Some " b.org "))
  ∧ Spec.port spec = (if Spec.tls spec then 443 else 80)%Z.
Proof.
  apply (buildRequestSpec_override
           (Scenarios.request_of "get" "http://a.com:8080/x?q=1" ∅) (Some " b.org "));
    reflexivity.
Defined.

(** An override is trimmed of white space outside ASCII too; and a form
    field with a surrogate without its partner leaves the request without a
    spec. *)
Example buildRequestSpec_corner_cases :
  Spec.host
  <$> buildRequestSpec (Scenarios.request_of "get" "http://a.com:8080/x" ∅)
        (Some ("b.org" +:+ Scenarios.no_break_space))
  = Some "b.org"
  ∧ encodeURIComponent Scenarios.lone_surrogate = None
  ∧ buildRequestSpec Scenarios.unencodable_request None = None.
Proof. repeat split. Qed.

End SpecFacts.

(** ** The branches of [applyAuthentication] *)

Module AuthCases.

Import JsString SessionCreator AuthScenarios TextFacts.

Section Reconciler.

Variable native_btoa : option (string -> option string).

Lemma given_some (s : string) : s ≠ "" -> Auth.given (Some s) = true.
Proof. now destruct s. Qed.

(** X7.  With an [apikey] configuration whose key and value are not empty, the
    returned request carries the value under the key, carries neither
    [Authorization] nor [authorization] (unless that is the key), and every
    other header is as in the request given. *)
Theorem applyAuthentication_apikey (request : Req.Request loc)
    (authConfig : Auth.AuthConfig) (h : Heap) (k v : string) :
  Auth.type authConfig = Auth.apikey ->
  Auth.key authConfig = Some k -> Auth.value authConfig = Some v ->
  k ≠ "" -> v ≠ "" -> k ≠ "__proto__" ->
  let '(processed, h') := applyAuthentication native_btoa request authConfig h in
  let before := headers_of h request in
  let after := headers_of h' processed in
  after !! k = Some v
  ∧ (k ≠ "Authorization" -> after !! "Authorization" = None)
  ∧ (k ≠ "authorization" -> after !! "authorization" = None)
  ∧ ∀ j : string,
      j ∉ [k; "Authorization"; "authorization"] -> after !! j = before !! j.
Proof.
  intros Htype Hkey Hvalue Hk Hv Hproto.
  pose proof (AuthFacts.headers_of_processed native_btoa request authConfig h) as Hrun.
  destruct (applyAuthentication native_btoa request authConfig h) as [processed h'].
  cbv zeta. rewrite Hrun. unfold reconcile. rewrite Htype, Hkey, Hvalue.
  rewrite !given_some by assumption. cbn [andb Auth.text default from_option id].
  rewrite AuthFacts.set_header_plain by assumption.
  repeat split.
  - apply lookup_insert_eq.
  - intros Hne. rewrite lookup_insert_ne by congruence.
    rewrite lookup_delete_ne by discriminate. apply lookup_delete_eq.
  - intros Hne. rewrite lookup_insert_ne by congruence. apply lookup_delete_eq.
  - intros j Hj. rewrite !not_elem_of_cons in Hj. destruct Hj as (H1 & H2 & H3 & _).
    rewrite lookup_insert_ne by congruence.
    now rewrite !lookup_delete_ne by congruence.
Qed.

(** X8.  With a [basic] configuration whose user name and password are not
    empty, the returned request carries none of the four API-key headers, its
    [Authorization] header is ["Basic "] followed by the base64 text of
    [username:password], and every other header is as in the request given. *)
Theorem applyAuthentication_basic (request : Req.Request loc)
    (authConfig : Auth.AuthConfig) (h : Heap) (user pass : string) :
  Auth.type authConfig = Auth.basic ->
  Auth.username authConfig = Some user -> Auth.password authConfig = Some pass ->
  user ≠ "" -> pass ≠ "" ->
  let '(processed, h') := applyAuthentication native_btoa request authConfig h in
  let before := headers_of h request in
  let after := headers_of h' processed in
  after !! "Authorization"
  = Some ("Basic " +:+ btoa native_btoa (user +:+ ":" +:+ pass))
  ∧ after !! "X-API-Key" = None
  ∧ after !! "x-api-key" = None
  ∧ after !! "X-Auth-Token" = None
  ∧ after !! "x-auth-token" = None
  ∧ ∀ j : string,
      j ∉ ["X-API-Key"; "x-api-key"; "X-Auth-Token"; "x-auth-token";
           "Authorization"] ->
      after !! j = before !! j.
Proof.
  intros Htype Huser Hpass Hu Hp.
  pose proof (AuthFacts.headers_of_processed native_btoa request authConfig h) as Hrun.
  destruct (applyAuthentication native_btoa request authConfig h) as [processed h'].
  cbv zeta. rewrite Hrun. unfold reconcile. rewrite Htype, Huser, Hpass.
  rewrite !given_some by assumption. cbn [andb Auth.text default from_option id].
  rewrite AuthFacts.set_header_plain by discriminate.
  repeat split.
  - apply lookup_insert_eq.
  - rewrite lookup_insert_ne by discriminate.
    rewrite !lookup_delete_ne by discriminate. apply lookup_delete_eq.
  - rewrite lookup_insert_ne by discriminate.
    rewrite !lookup_delete_ne by discriminate. apply lookup_delete_eq.
  - rewrite lookup_insert_ne by discriminate.
    rewrite lookup_delete_ne by discriminate. apply lookup_delete_eq.
  - rewrite lookup_insert_ne by discriminate. apply lookup_delete_eq.
  - intros j Hj. rewrite !not_elem_of_cons in Hj.
    destruct Hj as (H1 & H2 & H3 & H4 & H5 & _).
    rewrite lookup_insert_ne by congruence.
    now rewrite !lookup_delete_ne by congruence.
Qed.


(** X10.  [applyAuthentication] touches nothing but the headers: the request
    it returns has the id, name, method, url, body, auth and parameters of the
    request given, hence the same session name; and with the type [none], or
    with a type that is none of the five, its header map equals the input's. *)
Theorem applyAuthentication_frame (request : Req.Request loc)
    (authConfig : Auth.AuthConfig) (h : Heap) :
  let '(processed, h') := applyAuthentication native_btoa request authConfig h in
  Req.with_headers processed (Req.headers request) = request
  ∧ generateCompleteSessionName processed = generateCompleteSessionName request
  ∧ match Auth.type authConfig with
    | Auth.none | Auth.other _ =>
        headers_of h' processed = headers_of h request
    | _ => True
    end.
Proof.
  pose proof (AuthFacts.headers_of_processed native_btoa request authConfig h) as Hrun.
  rewrite AuthFacts.applyAuthentication_run in *.
  split; [now destruct request |]. split; [reflexivity |].
  unfold reconcile in *.
  destruct (Auth.type authConfig); cbn in Hrun |- *; auto.
Qed.

End Reconciler.

Lemma applyAuthentication_apikey_witness :
  let '(processed, h') :=
    applyAuthentication None Scenarios.scenario_request (with_type Auth.apikey)
      keyed_heap in
  let before := headers_of keyed_heap Scenarios.scenario_request in
  let after := headers_of h' processed in
  after !! "X-Key" = Some "secret"
  ∧ ("X-Key" ≠ "Authorization" -> after !! "Authorization" = None)
  ∧ ("X-Key" ≠ "authorization" -> after !! "authorization" = None)
  ∧ ∀ j : string,
      j ∉ ["X-Key"; "Authorization"; "authorization"] -> after !! j = before !! j.
Proof.
  apply (applyAuthentication_apikey None Scenarios.scenario_request
           (with_type Auth.apikey) keyed_heap "X-Key" "secret");
    (reflexivity || discriminate).
Defined.

Lemma applyAuthentication_basic_witness :
  let '(processed, h') :=
    applyAuthentication None Scenarios.scenario_request (with_type Auth.basic)
      keyed_heap in
  let before := headers_of keyed_heap Scenarios.scenario_request in
  let after := headers_of h' processed in
  after !! "Authorization"
  = Some ("Basic " +:+ btoa None ("user" +:+ ":" +:+ "pass"))
  ∧ after !! "X-API-Key" = None
  ∧ after !! "x-api-key" = None
  ∧ after !! "X-Auth-Token" = None
  ∧ after !! "x-auth-token" = None
  ∧ ∀ j : string,
      j ∉ ["X-API-Key"; "x-api-key"; "X-Auth-Token"; "x-auth-token";
           "Authorization"] ->
      after !! j = before !! j.
Proof.
  apply (applyAuthentication_basic None Scenarios.scenario_request
           (with_type Auth.basic) keyed_heap "user" "pass");
    (reflexivity || discriminate).
Defined.


End AuthCases.

(** ** The fallback of [btoa] *)

Module Base64Facts.

Import JsString SessionCreator AuthScenarios TextFacts.

(** Once the loop has read a group, its index is at most the length of the
    text, and both tests of the index succeed: the group is written without
    padding. *)
Lemma btoa_group_full (n i : nat) (a b c : Z) :
  i <= n -> btoa_group n i a b c = btoa_group 0 0 a b c.
Proof.
  intros Hi. unfold btoa_group.
  assert ((Z.of_nat i - 2 <? Z.of_nat n)%Z = true) as -> by (apply Z.ltb_lt; lia).
  assert ((Z.of_nat i - 1 <? Z.of_nat n)%Z = true) as -> by (apply Z.ltb_lt; lia).
  reflexivity.
Qed.

Lemma sextet_char (z : Z) :
  ∃ c, charAt base64_chars (Z.land z 63) = String c ""
       ∧ char_in base64_chars c = true.
Proof.
  change 63%Z with (Z.ones 6). rewrite Z.land_ones by lia.
  pose proof (Z.mod_pos_bound z (2 ^ 6) ltac:(lia)) as Hb.
  unfold charAt. set (k := Z.to_nat (z mod 2 ^ 6)).
  assert (k < 64) as Hk by (subst k; change (2 ^ 6)%Z with 64%Z in *; lia).
  clearbody k.
  do 64 (destruct k as [|k]; [eexists; split; reflexivity |]). lia.
Qed.

Lemma btoa_group_chars (a b c : Z) :
  forallb (char_in base64_chars) (btoa_group 0 0 a b c) = true
  ∧ len (btoa_group 0 0 a b c) = 4.
Proof.
  unfold btoa_group.
  change (Z.of_nat 0 - 2 <? Z.of_nat 0)%Z with true.
  change (Z.of_nat 0 - 1 <? Z.of_nat 0)%Z with true. cbv iota.
  set (bitmap := Z.lor _ c).
  destruct (sextet_char (Z.shiftr bitmap 18)) as (c1 & -> & H1).
  destruct (sextet_char (Z.shiftr bitmap 12)) as (c2 & -> & H2).
  destruct (sextet_char (Z.shiftr bitmap 6)) as (c3 & -> & H3).
  destruct (sextet_char bitmap) as (c4 & -> & H4).
  push_app. cbn [forallb]. now rewrite H1, H2, H3, H4.
Qed.

(** One round of [units]. *)
Lemma units_cons (a : ascii) (s1 : string) :
  units (String a s1)
  = let alone := code a :: units s1 in
    if nat_of_ascii a <? 192 then alone
    else if nat_of_ascii a <? 224 then
      match s1 with
      | String b s2 =>
          if continuation b
          then ((code a - 192) * 64 + (code b - 128))%Z :: units s2
          else alone
      | _ => alone
      end
    else if nat_of_ascii a <? 240 then
      match s1 with
      | String b (String c s3) =>
          if continuation b && continuation c
          then (((code a - 224) * 64 + (code b - 128)) * 64 + (code c - 128))%Z
               :: units s3
          else alone
      | _ => alone
      end
    else
      match s1 with
      | String b (String c (String d s4)) =>
          if continuation b && continuation c && continuation d then
            let point :=
              ((((code a - 240) * 64 + (code b - 128)) * 64 + (code c - 128)) * 64
               + (code d - 128))%Z in
            (55296 + (point - 65536) / 1024)%Z
            :: (56320 + (point - 65536) mod 1024)%Z
            :: units s4
          else alone
      | _ => alone
      end.
Proof. reflexivity. Qed.

(** A text that does not start with a continuation byte adds its own code
    units to those of the text before it. *)
Lemma units_app (t : string) :
  match t with String x _ => continuation x = false | EmptyString => True end ->
  ∀ s, units (s +:+ t) = units s ++ units t.
Proof.
  intros Ht s. remember (len s) as n eqn:Hn. revert s Hn.
  induction n as [n IH] using lt_wf_ind. intros s Hn.
  assert (∀ s', len s' < n -> units (s' +:+ t) = units s' ++ units t) as Hrec.
  { intros s' Hlt. exact (IH _ Hlt s' eq_refl). }
  clear IH. destruct s as [|a s1]; [reflexivity |].
  unfold len in Hn, Hrec. cbn [String.length] in Hn.
  push_app. rewrite (units_cons a (s1 +:+ t)), (units_cons a s1). cbv zeta.
  assert (code a :: units (s1 +:+ t) = (code a :: units s1) ++ units t) as Halone.
  { rewrite Hrec by lia. reflexivity. }
  rewrite Halone. clear Halone.
  destruct (nat_of_ascii a <? 192); [reflexivity |].
  destruct (nat_of_ascii a <? 224).
  { destruct s1 as [|b s2]; push_app.
    - destruct t as [|x t']; [reflexivity |]. now rewrite Ht.
    - destruct (continuation b); [|reflexivity].
      rewrite Hrec by (cbn [String.length] in Hn; lia). reflexivity. }
  destruct (nat_of_ascii a <? 240).
  { destruct s1 as [|b [|c s3]]; push_app.
    - destruct t as [|x [|y t']]; try reflexivity. now rewrite Ht.
    - destruct t as [|x t']; [reflexivity |]. now rewrite Ht, andb_false_r.
    - destruct (continuation b && continuation c); [|reflexivity].
      rewrite Hrec by (cbn [String.length] in Hn; lia). reflexivity. }
  destruct s1 as [|b [|c [|d s4]]]; push_app.
  - destruct t as [|x [|y [|z t']]]; try reflexivity. now rewrite Ht.
  - destruct t as [|x [|y t']]; try reflexivity. now rewrite Ht, andb_false_r.
  - destruct t as [|x t']; [reflexivity |]. now rewrite Ht, andb_false_r.
  - destruct (continuation b && continuation c && continuation d); [|reflexivity].
    rewrite Hrec by (cbn [String.length] in Hn; lia). reflexivity.
Qed.

Lemma units_zeros (k : nat) :
  units (string_of_list_ascii (replicate k Ascii.zero)) = replicate k 0%Z.
Proof.
  induction k as [|k IH]; [reflexivity |].
  cbn [replicate string_of_list_ascii]. rewrite units_cons. cbv zeta.
  change (nat_of_ascii Ascii.zero <? 192) with true. cbv iota. now rewrite IH.
Qed.

(** The code units of the padded text are those of the text, followed by
    zeros. *)
Lemma units_nul_padded (s : string) :
  units (nul_padded s)
  = units s ++ replicate ((3 - length (units s) mod 3) mod 3) 0%Z.
Proof.
  unfold nul_padded. rewrite units_app, units_zeros; [reflexivity |].
  now destruct ((3 - length (units s) mod 3) mod 3).
Qed.

Lemma btoa_loop_plain (rest : list Z) :
  ∀ n i n' i' : nat,
    i + length rest <= n ->
    i' + length rest + (3 - length rest mod 3) mod 3 <= n' ->
    btoa_loop n i rest
    = btoa_loop n' i' (rest ++ replicate ((3 - length rest mod 3) mod 3) 0%Z)
    ∧ forallb (char_in base64_chars) (btoa_loop n i rest) = true
    ∧ len (btoa_loop n i rest) = 4 * ((length rest + 2) / 3).
Proof.
  assert (∀ P : list Z -> Prop,
            P [] -> (∀ a, P [a]) -> (∀ a b, P [a; b]) ->
            (∀ a b c l, P l -> P (a :: b :: c :: l)) -> ∀ l, P l) as list_ind3.
  { intros P H0 H1 H2 H3.
    assert (∀ l, P l ∧ (∀ a, P (a :: l)) ∧ (∀ a b, P (a :: b :: l))) as H.
    { induction l as [|c l (IH0 & IH1 & IH2)]; [auto |].
      split; [apply IH1 |]. split; [intros a; apply IH2 |]. intros a b. now apply H3. }
    intros l. apply H. }
  induction rest as [|a|a b|a b c rest IH] using list_ind3;
    intros n i n' i' Hlen Hlen'.
  - repeat split.
  - cbn [length] in Hlen, Hlen' |- *. change ((3 - 1 mod 3) mod 3) with 2 in *.
    cbn [app replicate btoa_loop].
    rewrite (btoa_group_full n), (btoa_group_full n') by lia.
    split; [now rewrite text_empty_r |]. apply btoa_group_chars.
  - cbn [length] in Hlen, Hlen' |- *. change ((3 - 2 mod 3) mod 3) with 1 in *.
    cbn [app replicate btoa_loop].
    rewrite (btoa_group_full n), (btoa_group_full n') by lia.
    split; [now rewrite text_empty_r |]. apply btoa_group_chars.
  - cbn [length] in Hlen, Hlen' |- *.
    assert (S (S (S (length rest))) mod 3 = length rest mod 3) as Hmod.
    { change (S (S (S (length rest)))) with (3 + length rest).
      rewrite Nat.add_comm.
      now rewrite <- (Nat.Div0.mod_add (length rest) 1 3). }
    rewrite Hmod in *.
    cbn [app btoa_loop]. rewrite (btoa_group_full n), (btoa_group_full n') by lia.
    destruct (IH n (i + 3) n' (i' + 3)) as (Hpad & Hchars & Hcount); [lia | lia |].
    destruct (btoa_group_chars a b c) as [Hgroup Hfour].
    split; [now rewrite Hpad |]. split.
    + now rewrite forallb_app, Hgroup, Hchars.
    + rewrite StringFacts.len_app, Hfour, Hcount.
      replace (S (S (S (length rest))) + 2) with (length rest + 2 + 1 * 3) by lia.
      rewrite Nat.div_add by lia. lia.
Qed.

(** X11.  Where the host has no [btoa], the loop that stands in for it never
    writes the padding character: both tests of the index succeed in every
    round, the last included.  The text it returns is the one it returns for
    the input followed by NUL characters up to a multiple of three code
    units; it holds characters of the base64 alphabet only, four for each
    group of three code units begun. *)
Theorem btoa_fallback_unpadded (str : string) :
  btoa None str = btoa None (nul_padded str)
  ∧ forallb (char_in base64_chars) (btoa None str) = true
  ∧ char_in base64_chars "=" = false
  ∧ len (btoa None str) = 4 * ((length (units str) + 2) / 3).
Proof.
  unfold btoa. rewrite units_nul_padded.
  set (code_units := units str).
  set (k := (3 - length code_units mod 3) mod 3).
  destruct (btoa_loop_plain code_units (length code_units) 0
              (length (code_units ++ replicate k 0%Z)) 0)
    as (Hpad & Hchars & Hcount);
    [lia | rewrite length_app, length_replicate; subst k; lia |].
  auto.
Qed.

(** Two letters outside ASCII are two code units, hence one group. *)
Example btoa_fallback_accents :
  btoa None (String (ascii_of_nat 195) (String (ascii_of_nat 169)
              (String (ascii_of_nat 195) (String (ascii_of_nat 169) ""))))
  = "6ekA".
Proof. reflexivity. Qed.

End Base64Facts.

(** ** The shape of session names *)

Module NameFacts.

Import JsString SessionCreator TextFacts.

Lemma includes_cons (c : ascii) (s p : string) :
  includes (String c s) p = startsWith (String c s) p || includes s p.
Proof.
  unfold includes. cbn [indexOf].
  destruct (startsWith (String c s) p); [reflexivity |].
  now destruct (indexOf s p).
Qed.

(** A text contains a character exactly when the character is not absent
    from it. *)
Lemma includes_char (c : ascii) (s : string) :
  includes s (String c "") = negb (absent c s).
Proof.
  induction s as [|d s IH]; [reflexivity |].
  rewrite includes_cons, IH. cbn [startsWith absent].
  rewrite (Ascii.eqb_sym c d). now destruct (Ascii.eqb d c).
Qed.

Lemma absent_take (c : ascii) (s : string) (i : nat) :
  absent c s = true -> absent c (take i s) = true.
Proof.
  revert i. induction s as [|d s IH]; intros [|i] H; try reflexivity.
  cbn in H |- *. apply andb_true_iff in H as [-> H]. now apply IH.
Qed.

Lemma absent_before (c : ascii) (s : string) (i : nat) :
  indexOf s (String c "") = Some i -> absent c (take i s) = true.
Proof.
  revert i. induction s as [|d s IH]; intros i; cbn [indexOf startsWith].
  - discriminate.
  - destruct (Ascii.eqb_spec d c) as [->|Hne]; [now intros [= <-] |].
    destruct (indexOf s (String c "")) as [j|]; [|discriminate].
    intros [= <-]. cbn. rewrite (IH j eq_refl), andb_true_r.
    apply negb_true_iff, Ascii.eqb_neq. congruence.
Qed.

Lemma take_drop (s : string) (i : nat) : take i s +:+ drop i s = s.
Proof.
  revert i. induction s as [|c s IH]; intros [|i]; try reflexivity.
  cbn [take drop]. push_app. f_equal. apply IH.
Qed.

Lemma includes_take (s p : string) (i : nat) :
  includes s p = false -> includes (take i s) p = false.
Proof.
  intros H. destruct (includes (take i s) p) eqn:E; [|reflexivity].
  apply includes_iff in E as (a & b & E).
  assert (includes s p = true); [|congruence].
  apply includes_iff. exists a, (b +:+ drop i s).
  rewrite <- (take_drop s i) at 1. rewrite E. now rewrite !text_assoc.
Qed.

(** What [cut_at] leaves of a path that starts with a slash. *)
Lemma cut_at_rooted (c : ascii) (path : string) :
  c ≠ "/"%char -> startsWith path "/" = true ->
  startsWith (cut_at (String c "") path) "/" = true
  ∧ absent c (cut_at (String c "") path) = true
  ∧ ∀ d, absent d path = true -> absent d (cut_at (String c "") path) = true.
Proof.
  intros Hc Hroot. unfold cut_at.
  destruct (includes path (String c "")) eqn:Hin.
  - rewrite StringFacts.split_first. unfold includes in Hin.
    destruct (indexOf path (String c "")) as [i|] eqn:Hi; [|discriminate].
    cbn [default from_option id].
    assert (truthy (take i path) = true ∧ startsWith (take i path) "/" = true)
      as [-> Hroot'].
    { destruct path as [|d path]; [discriminate |]. cbn in Hroot.
      destruct (Ascii.eqb_spec d "/") as [->|]; [|discriminate].
      destruct i as [|i]; [|split; reflexivity].
      cbn [indexOf startsWith] in Hi.
      destruct (Ascii.eqb_spec "/" c); [congruence |].
      destruct (indexOf path (String c "")); cbn in Hi; discriminate. }
    split; [assumption |]. split; [now apply absent_before |].
    intros d. apply absent_take.
  - split; [assumption |]. rewrite includes_char in Hin.
    apply negb_false_iff in Hin. auto.
Qed.

Lemma collapse_absent (d : ascii) (s : string) (in_run : bool) :
  absent d s = true -> absent d (collapse_slashes_from in_run s) = true.
Proof.
  revert in_run. induction s as [|c s IH]; intros in_run H; [reflexivity |].
  cbn in H. apply andb_true_iff in H as [Hd H]. cbn [collapse_slashes_from].
  destruct (Ascii.eqb_spec c "/") as [->|].
  - destruct in_run; [now apply IH |]. cbn. now rewrite Hd, IH.
  - cbn. now rewrite Hd, IH.
Qed.

Lemma collapse_single (s : string) (in_run : bool) :
  includes (collapse_slashes_from in_run s) "//" = false
  ∧ (in_run = true -> startsWith (collapse_slashes_from in_run s) "/" = false).
Proof.
  revert in_run. induction s as [|c s IH]; intros in_run; [now split |].
  cbn [collapse_slashes_from].
  destruct (Ascii.eqb_spec c "/") as [->|Hne].
  - destruct (IH true) as [Hno Hstart]. destruct in_run; [now split |].
    split; [|discriminate]. rewrite includes_cons, Hno, orb_false_r.
    cbn [startsWith]. rewrite Ascii.eqb_refl.
    specialize (Hstart eq_refl).
    destruct (collapse_slashes_from true s) as [|e r]; [reflexivity |].
    cbn in Hstart |- *. now rewrite Hstart.
  - destruct (IH false) as [Hno _].
    assert (Ascii.eqb c "/" = false) as Hc by now apply Ascii.eqb_neq.
    split; [|intros _; cbn; now rewrite Hc].
    rewrite includes_cons, Hno, orb_false_r. cbn. now rewrite Hc.
Qed.

Lemma collapse_rooted (s : string) :
  startsWith s "/" = true -> startsWith (collapse_slashes s) "/" = true.
Proof.
  destruct s as [|c s]; [discriminate |]. cbn.
  now destruct (Ascii.eqb c "/").
Qed.

(** X12.  Where the path that a url is reduced to is not the root, the session
    name is the upper-case method, a blank and that path; the path starts
    with a slash and holds no question mark, no hash sign and no two slashes
    in a row. *)
Theorem sessionName_path {H} (request : Req.Request H) :
  separator_followed (Req.url request) = true ->
  cleanPath (Req.url request) ≠ "/" ->
  ∃ path : string,
    generateCompleteSessionName request
    = toUpperCase (Req.method request) +:+ " " +:+ path
    ∧ startsWith path "/" = true
    ∧ includes path "?" = false
    ∧ includes path "#" = false
    ∧ includes path "//" = false.
Proof.
  intros Hsep Hroot. exists (cleanPath (Req.url request)).
  unfold generateCompleteSessionName.
  assert (String.eqb (cleanPath (Req.url request)) "/" = false) as ->
    by now apply String.eqb_neq.
  cbn [andb]. split; [reflexivity |].
  unfold cleanPath.
  pose proof (NamingFacts.pathOfUrl_rooted _ Hsep) as H0.
  destruct (cut_at_rooted "?" (pathOfUrl (Req.url request)) ltac:(discriminate) H0)
    as (H1 & Hq & _).
  destruct (cut_at_rooted "#" _ ltac:(discriminate) H1) as (H2 & Hh & Hkeep).
  specialize (Hkeep "?"%char Hq).
  set (cut := cut_at "#" _) in *.
  pose proof (collapse_rooted cut H2) as H3. rewrite H3. cbn [negb].
  split; [assumption |].
  rewrite !includes_char. unfold collapse_slashes.
  rewrite !collapse_absent by assumption.
  repeat split. apply collapse_single.
Qed.

Lemma sessionName_path_witness :
  ∃ path : string,
    generateCompleteSessionName
      (Scenarios.request_of "get" "https://a.com//v1///items?x=1#top" ())
    = toUpperCase "get" +:+ " " +:+ path
    ∧ startsWith path "/" = true
    ∧ includes path "?" = false
    ∧ includes path "#" = false
    ∧ includes path "//" = false.
Proof.
  apply (sessionName_path
           (Scenarios.request_of "get" "https://a.com//v1///items?x=1#top" ()));
    [reflexivity | discriminate].
Defined.

(** A pattern that starts with a character absent from [s] is found in
    [s t] where it is found in [t]. *)
Lemma indexOf_skip (c : ascii) (s t p : string) :
  absent c s = true ->
  startsWith t (String c p) = true ->
  indexOf (s +:+ t) (String c p) = Some (len s).
Proof.
  intros Habs Ht. induction s as [|d s IH].
  - push_app. destruct t; cbn [indexOf]; now rewrite Ht.
  - cbn in Habs. apply andb_true_iff in Habs as [Hd Habs].
    push_app. cbn [indexOf startsWith].
    rewrite (Ascii.eqb_sym d c). apply negb_true_iff in Hd. rewrite Hd.
    now rewrite (IH Habs).
Qed.

Lemma lastIndexOf_end (s p : string) :
  p ≠ "" -> lastIndexOf p p = Some 0 -> lastIndexOf (s +:+ p) p = Some (len s).
Proof.
  intros Hp Hlast. induction s as [|c s IH]; [exact Hlast |].
  push_app. cbn [lastIndexOf]. now rewrite IH.
Qed.

Lemma collapse_id (s : string) (in_run : bool) :
  includes s "//" = false ->
  (in_run = true -> startsWith s "/" = false) ->
  collapse_slashes_from in_run s = s.
Proof.
  revert in_run. induction s as [|c s IH]; intros in_run Hno Hstart; [reflexivity |].
  rewrite includes_cons in Hno. apply orb_false_iff in Hno as [Hhead Hno].
  cbn [collapse_slashes_from].
  destruct (Ascii.eqb_spec c "/") as [->|Hne].
  - destruct in_run; [now specialize (Hstart eq_refl) |].
    f_equal. apply IH; [assumption |]. intros _.
    destruct s as [|d s]; [reflexivity |]. cbn in Hhead |- *.
    now destruct (Ascii.eqb d "/").
  - f_equal. apply IH; [assumption | discriminate].
Qed.

Lemma cut_at_id (sep path : string) :
  includes path sep = false -> cut_at sep path = path.
Proof. unfold cut_at. now intros ->. Qed.

(** No scheme separator in a text without two slashes in a row, nor in such a
    text behind a host. *)
Lemma no_separator (path : string) :
  includes path "//" = false -> includes path "://" = false.
Proof. apply (includes_false_part path ":" "//" ""). Qed.

Lemma no_separator_host (host path : string) :
  absent "/" host = true -> includes path "//" = false ->
  includes (host +:+ path) "://" = false.
Proof.
  intros Hhost Hpath. induction host as [|c host IH].
  - push_app. now apply no_separator.
  - cbn in Hhost. apply andb_true_iff in Hhost as [Hc Hhost].
    push_app. rewrite includes_cons, (IH Hhost), orb_false_r.
    cbn [startsWith]. destruct (Ascii.eqb c ":"); [|reflexivity].
    destruct host as [|d host].
    + push_app. destruct path as [|e path]; [reflexivity |].
      rewrite includes_cons in Hpath. apply orb_false_iff in Hpath as [Hpath _].
      exact Hpath.
    + push_app. cbn [absent] in Hhost. cbn [startsWith].
      apply andb_true_iff in Hhost as [Hd _].
      apply negb_true_iff in Hd. rewrite Ascii.eqb_sym in Hd. now rewrite Hd.
Qed.

(** The first part of the naming function finds the path of a url of each of
    the four shapes. *)
Lemma pathOfUrl_shaped (url path : string) :
  UrlShape.shaped url path -> includes path "//" = false ->
  pathOfUrl url = path.
Proof.
  intros Hshape Hclean. unfold pathOfUrl.
  destruct Hshape as [scheme host path Hscheme Hhost Hroot
                     | template path Hsep Hlast Hroot
                     | path Htemplate Hroot
                     | url Htemplate Hroot].
  - assert (indexOf (scheme +:+ "://" +:+ host +:+ path) "://" = Some (len scheme))
      as Hi by now apply indexOf_skip.
    unfold includes. rewrite Hi.
    rewrite (StringFacts.split_second _ "://" _ ltac:(discriminate) Hi).
    cbv zeta.
    assert (drop (len scheme + len "://") (scheme +:+ "://" +:+ host +:+ path)
            = host +:+ path) as ->.
    { clear. induction scheme as [|c s IH]; [reflexivity |]. apply IH. }
    pose proof (no_separator_host host path Hhost Hclean) as Hnone.
    unfold includes in Hnone.
    destruct (indexOf (host +:+ path) "://"); [discriminate |].
    assert (truthy (host +:+ path) = true) as ->.
    { destruct host; [|reflexivity]. push_app. now destruct path. }
    rewrite (indexOf_skip "/" host path "") by assumption.
    rewrite StringFacts.drop_app by reflexivity.
    assert (drop (len host) host = "") as ->; [|reflexivity].
    clear. induction host; [reflexivity | assumption].
  - rewrite Hsep.
    assert (includes (template +:+ "}}" +:+ path) "}}" = true) as ->
      by apply includes_intro.
    destruct path as [|c path]; [discriminate |].
    cbn in Hroot. destruct (Ascii.eqb_spec c "/") as [->|]; [|discriminate].
    rewrite <- text_assoc.
    rewrite StringFacts.lastIndexOf_extended;
      [| reflexivity | discriminate
       | unfold includes in Hlast; now destruct (indexOf (String "/" path) "}}")].
    rewrite lastIndexOf_end by (reflexivity || discriminate).
    rewrite StringFacts.drop_app by (rewrite StringFacts.len_app; cbn; lia).
    assert (drop (len template + 2) (template +:+ "}}") = "") as ->; [|reflexivity].
    clear. induction template; [reflexivity | assumption].
  - rewrite (no_separator _ Hclean), Htemplate. now rewrite Hroot.
  - change ("/" +:+ url) with (String "/" url) in *.
    rewrite includes_cons in Hclean. apply orb_false_iff in Hclean as [_ Hclean].
    now rewrite (no_separator _ Hclean), Htemplate, Hroot.
Qed.

(** X13.  For a url of each of the four shapes the session name keeps the
    whole path: when the path that the shape designates holds no query, no
    fragment and no run of slashes, and is not the root, the name is the
    upper-case method, a blank and that path, unchanged. *)
Theorem sessionName_shaped {H} (request : Req.Request H) (path : string) :
  UrlShape.shaped (Req.url request) path ->
  UrlShape.clean path ->
  path ≠ "/" ->
  generateCompleteSessionName request
  = toUpperCase (Req.method request) +:+ " " +:+ path.
Proof.
  intros Hshape (Hquery & Hhash & Hslashes) Hroot.
  unfold generateCompleteSessionName, cleanPath.
  rewrite (pathOfUrl_shaped _ _ Hshape Hslashes).
  rewrite (cut_at_id "?"), (cut_at_id "#") by assumption.
  unfold collapse_slashes. rewrite collapse_id by (assumption || discriminate).
  assert (startsWith path "/" = true) as -> by (destruct Hshape; auto).
  cbn [negb]. apply String.eqb_neq in Hroot. now rewrite Hroot.
Qed.

Lemma sessionName_shaped_witness :
  generateCompleteSessionName
    (Scenarios.request_of "post" "{{baseUrl}}/v1/items/{{id}}/tags" ())
  = toUpperCase "post" +:+ " " +:+ "/tags".
Proof.
  apply (sessionName_shaped
           (Scenarios.request_of "post" "{{baseUrl}}/v1/items/{{id}}/tags" ()) "/tags").
  - apply (UrlShape.shaped_templated "{{baseUrl}}/v1/items/{{id" "/tags");
      reflexivity.
  - repeat split.
  - discriminate.
Defined.

End NameFacts.

(** ** [createReplaySessions] *)

Module ReplayFacts.

Import JsString SessionCreator Replay.

Section Loop.

Variable native_btoa : option (string -> option string).
Variable authConfig : Auth.AuthConfig.

Lemma sendable_spec (request : Req.Request loc) (headers : Headers) :
  match buildRequestSpec (Req.with_headers request headers)
          (Auth.hostname authConfig) with
  | Some _ => sendable (Auth.hostname authConfig) request = true
  | None => sendable (Auth.hostname authConfig) request = false
  end.
Proof.
  unfold buildRequestSpec, sendable. cbn [Req.url Req.with_headers].
  destruct (parseUrl _); [|reflexivity].
  pose proof (ScenarioFacts.finalBody_encodable request
                (Req.with_headers request headers) eq_refl) as Hfinal.
  destruct (encodable request); [|now rewrite Hfinal].
  now destruct Hfinal as (b & hs & ->).
Qed.

(** One round of the loop. *)
Lemma process_step (request : Req.Request loc) (rest : list (Req.Request loc))
    (acc : list ProcessedRequest) (h : Heap) :
  let l := fresh (dom h) in
  let headers := reconcile native_btoa authConfig (headers_of h request) in
  let processed := Req.with_headers request l in
  process native_btoa (request :: rest) authConfig acc h
  = process native_btoa rest authConfig
      (acc ++ match buildRequestSpec (Req.with_headers request headers)
                      (Auth.hostname authConfig) with
              | Some spec =>
                  [ {| Replay.request := processed; spec := spec;
                       sessionName := generateCompleteSessionName request |} ]
              | None => []
              end)
      (<[l := headers]> h).
Proof.
  cbn [process]. unfold mbind, state_bind at 1.
  rewrite AuthFacts.applyAuthentication_run.
  unfold mbind, state_bind, buildRequestSpec_at.
  unfold headers_of at 1. cbn [Req.headers Req.with_headers].
  rewrite lookup_insert_eq. cbn [default from_option id].
  set (request' := Req.with_headers _ (reconcile _ _ _)).
  assert (request' = Req.with_headers request
                       (reconcile native_btoa authConfig (headers_of h request)))
    as -> by reflexivity.
  destruct (buildRequestSpec _ _); [reflexivity |].
  now rewrite app_nil_r.
Qed.

(** An entry made from a heap is an entry made from an earlier heap that
    held the header object of its original. *)
Lemma processed_from_earlier (h h1 h' : Heap)
    (entries : list ProcessedRequest) (originals : list (Req.Request loc)) :
  h ⊆ h1 ->
  Forall (fun r => is_Some (h !! Req.headers r)) originals ->
  Forall2 (processed_from native_btoa authConfig h1 h') entries originals ->
  Forall2 (processed_from native_btoa authConfig h h') entries originals.
Proof.
  intros Hgrow Hlive Hentries.
  induction Hentries as [|entry r entries rs Hentry Hentries IH];
    constructor.
  - apply Forall_cons in Hlive as [[m Hm] _].
    destruct Hentry as (E1 & E2 & E3 & E4 & E5).
    assert (headers_of h1 r = headers_of h r) as Hsame.
    { unfold headers_of. now rewrite (lookup_weaken _ _ _ _ Hm Hgrow), Hm. }
    unfold processed_from. rewrite <- Hsame.
    repeat split; try assumption.
    destruct (h !! Req.headers (Replay.request entry)) as [m'|] eqn:Hm';
      [|reflexivity].
    rewrite (lookup_weaken _ _ _ _ Hm' Hgrow) in E2. discriminate.
  - apply IH. now apply Forall_cons in Hlive as [_ Hlive].
Qed.

Lemma process_run (requests : list (Req.Request loc)) :
  ∀ (acc : list ProcessedRequest) (h : Heap),
    ∃ new h',
      process native_btoa requests authConfig acc h = (acc ++ new, h')
      ∧ h ⊆ h'
      ∧ map sessionName new
        = map generateCompleteSessionName
            (List.filter (sendable (Auth.hostname authConfig)) requests)
      ∧ (Forall (fun r => is_Some (h !! Req.headers r)) requests ->
         Forall2 (processed_from native_btoa authConfig h h') new
           (List.filter (sendable (Auth.hostname authConfig)) requests)).
Proof.
  induction requests as [|request rest IH]; intros acc h.
  - exists [], h. rewrite app_nil_r. repeat split; [reflexivity | constructor].
  - rewrite process_step. cbv zeta.
    set (l := fresh (dom h)).
    set (headers := reconcile native_btoa authConfig (headers_of h request)).
    set (h1 := <[l := headers]> h).
    assert (h !! l = None) as Hfresh by apply AuthFacts.fresh_not_allocated.
    assert (h ⊆ h1) as Hgrow by now apply insert_subseteq.
    pose proof (sendable_spec request headers) as Hsend.
    destruct (IH (acc ++ match buildRequestSpec
                                 (Req.with_headers request headers)
                                 (Auth.hostname authConfig) with
                         | Some spec =>
                             [ {| Replay.request := Req.with_headers request l;
                                  spec := spec;
                                  sessionName := generateCompleteSessionName request |} ]
                         | None => []
                         end) h1)
      as (new & h' & Hrun & Hsub & Hnames & Hentries).
    rewrite Hrun, <- app_assoc. eexists _, h'. split; [reflexivity |].
    split; [now transitivity h1 |].
    assert (Forall (fun r => is_Some (h !! Req.headers r)) rest ->
            Forall2 (processed_from native_btoa authConfig h h') new
              (List.filter (sendable (Auth.hostname authConfig)) rest)) as Hrest.
    { intros Hlive. apply (processed_from_earlier h h1); [assumption | |].
      - rewrite Forall_forall in Hlive |- *. intros r Hr. apply Hlive.
        apply list_elem_of_In in Hr. apply list_elem_of_In.
        apply filter_In in Hr. tauto.
      - apply Hentries. eapply Forall_impl; [exact Hlive |]. intros r [m Hm].
        exists m. exact (lookup_weaken _ _ _ _ Hm Hgrow). }
    cbn [List.filter].
    destruct (buildRequestSpec _ _) as [spec|] eqn:Hspec; rewrite Hsend.
    + split; [cbn; now rewrite Hnames |].
      intros Hlive. apply Forall_cons in Hlive as [Hlive0 Hlive].
      constructor; [|now apply Hrest].
      unfold processed_from. cbn [Replay.request Replay.spec sessionName].
      repeat split; try assumption.
      * now destruct request.
      * unfold headers_of. cbn [Req.headers Req.with_headers].
        assert (h1 !! l = Some headers) as Hl by apply lookup_insert_eq.
        now rewrite (lookup_weaken _ _ _ _ Hl Hsub).
    + split; [exact Hnames |].
      intros Hlive. apply Forall_cons in Hlive as [_ Hlive]. now apply Hrest.
Qed.


(** X15.  In a heap that holds the header object of every request, the
    entries that [createReplaySessions] returns stand one for one for the
    requests that can be sent.  Each entry carries the request it stands for
    with a header object of its own, allocated by the call; that object holds
    the headers of the original, reconciled with the authentication; and the
    spec of the entry is the one built from the request with those
    headers. *)
Theorem createReplaySessions_entries (requests : list (Req.Request loc))
    (name : string) (h : Heap) :
  Forall (fun r => is_Some (h !! Req.headers r)) requests ->
  let '(result, h') :=
    createReplaySessions native_btoa requests name authConfig h in
  Forall2 (processed_from native_btoa authConfig h h') (processedRequests result)
    (List.filter (sendable (Auth.hostname authConfig)) requests).
Proof.
  intros Hlive. unfold createReplaySessions, mbind, state_bind.
  destruct (process_run requests [] h) as (new & h' & -> & _ & _ & Hentries).
  cbn [mret state_ret processedRequests app]. now apply Hentries.
Qed.

End Loop.

Lemma createReplaySessions_entries_witness :
  let '(result, h') :=
    createReplaySessions None shared_requests "X" (AuthScenarios.with_type Auth.bearer)
      shared_heap in
  Forall2 (processed_from None (AuthScenarios.with_type Auth.bearer) shared_heap h')
    (processedRequests result)
    (List.filter (sendable (Auth.hostname (AuthScenarios.with_type Auth.bearer)))
       shared_requests).
Proof.
  apply (createReplaySessions_entries None (AuthScenarios.with_type Auth.bearer)
           shared_requests "X" shared_heap).
  repeat constructor; vm_compute; eauto.
Defined.

(** A request whose body cannot be written is left out. *)
Example unencodable_request_skipped :
  sendable None (Req.with_headers Scenarios.unencodable_request 1%positive) = false
  ∧ processedRequests
      (fst (createReplaySessions None
              [Req.with_headers Scenarios.unencodable_request 1%positive] "X"
              (AuthScenarios.with_type Auth.none) shared_heap))
    = [].
Proof. split; reflexivity. Qed.

End ReplayFacts.

(** ** File detection: names, verdicts and the gate of the import *)

Module SupportFacts.

Import JsString Js FileDetection FileSupport TextFacts.

(** A pattern that holds another adds nothing to a list of alternatives. *)
Lemma includes_whole (s x p y : string) :
  includes s (x +:+ p +:+ y) || includes s p = includes s p.
Proof.
  destruct (includes s p) eqn:E; [apply orb_true_r |].
  now rewrite (includes_false_part s x p y E).
Qed.

Section Classifier.

Variable toLowerCase : string -> string.
Variable JSON_parse : string -> completion Js.value.

(** X16.  [detectFromFilename] depends on the name, in the lower case that
    the host gives it, through a few tests only: a name that contains [env] is an environment, whatever else
    it contains; otherwise a name that contains [collection], [newman] or
    [requests] is a Postman collection; otherwise one of nine patterns or the
    extensions [.yaml] and [.yml] make it an OpenAPI document.  The other
    patterns of the function never decide. *)
Theorem detectFromFilename_cases (fileName : string) :
  detectFromFilename toLowerCase fileName = verdict_of_name (toLowerCase fileName).
Proof.
  unfold detectFromFilename, verdict_of_name.
  set (l := toLowerCase fileName). cbn [existsb].
  assert ((includes l "environment" || (includes l "env"
            || (includes l ".postman_environment." || (includes l "_environment."
            || (includes l "postman_env" || false)))))
          = includes l "env") as ->.
  { rewrite orb_false_r.
    rewrite <- (includes_whole l "" "env" "ironment").
    rewrite <- (includes_whole l ".postman_" "env" "ironment.").
    rewrite <- (includes_whole l "_" "env" "ironment.").
    rewrite <- (includes_whole l "postman_" "env" "").
    change ("" +:+ "env" +:+ "ironment") with "environment".
    change (".postman_" +:+ "env" +:+ "ironment.") with ".postman_environment.".
    change ("_" +:+ "env" +:+ "ironment.") with "_environment.".
    change ("postman_" +:+ "env" +:+ "") with "postman_env".
    destruct (includes l "environment"), (includes l "env"),
      (includes l ".postman_environment."), (includes l "_environment."),
      (includes l "postman_env"); reflexivity. }
  assert ((includes l "postman_collection" || (includes l "collection"
            || (includes l "newman" || (includes l ".postman_collection."
            || (includes l "_collection." || (includes l "api_collection"
            || (includes l "requests" || false)))))))
          = includes l "collection" || includes l "newman" || includes l "requests")
    as ->.
  { rewrite orb_false_r.
    rewrite <- (includes_whole l "postman_" "collection" "").
    rewrite <- (includes_whole l ".postman_" "collection" ".").
    rewrite <- (includes_whole l "_" "collection" ".").
    rewrite <- (includes_whole l "api_" "collection" "").
    change ("postman_" +:+ "collection" +:+ "") with "postman_collection".
    change (".postman_" +:+ "collection" +:+ ".") with ".postman_collection.".
    change ("_" +:+ "collection" +:+ ".") with "_collection.".
    change ("api_" +:+ "collection" +:+ "") with "api_collection".
    destruct (includes l "postman_collection"), (includes l "collection"),
      (includes l "newman"), (includes l ".postman_collection."),
      (includes l "_collection."), (includes l "api_collection"),
      (includes l "requests"); reflexivity. }
  destruct (includes l "env"); [reflexivity |].
  destruct (includes l "collection" || includes l "newman" || includes l "requests");
    [reflexivity |].
  destruct (includes l "openapi" || _); [reflexivity |].
  now rewrite <- orb_assoc.
Qed.

(** What [detectFileType] returns on a document that parsed, and on the
    exception of the parser. *)
Lemma detectFileType_cases (content fileName : string) :
  match JSON_parse content with
  | Return data =>
      ∃ r, detectFileType toLowerCase JSON_parse content fileName = Return r
           ∧ ((confidence r = confidence_high
               ∧ (type r = postman ∨ type r = openapi ∨ type r = environment)
               ∧ (type r = environment ->
                  Environment.environment_test toLowerCase data fileName = true))
              ∨ (confidence r = confidence_name
                 ∧ type r = detectFromFilename toLowerCase fileName ∧ type r ≠ unknown)
              ∨ (confidence r = confidence_none ∧ type r = unknown))
  | Throw e =>
      detectFileType toLowerCase JSON_parse content fileName
      = Return (failure_verdict toLowerCase content fileName e)
  | OutOfFuel => True
  end.
Proof.
  unfold detectFileType.
  destruct (JSON_parse content) as [data | e |] eqn:Hparse; [| |exact I].
  - cbn [bind].
    pose proof (DetectionFacts.isPostmanCollection_completes data) as Hcoll.
    destruct (isPostmanCollection data) as [[|] | e |]; cbn [bind try_catch];
      [| | |congruence].
    + eexists. split; [reflexivity |]. left. cbn.
      split; [reflexivity |]. split; [auto | discriminate].
    + destruct (isOpenAPISpec data).
      { eexists. split; [reflexivity |]. left. cbn.
        split; [reflexivity |]. split; [auto | discriminate]. }
      destruct (EnvironmentFacts.isPostmanEnvironment_parsed
                  toLowerCase JSON_parse content fileName data Hparse)
        as (isEnvFile & -> & Htruthy & _).
      cbn [bind]. rewrite Htruthy.
      destruct (Environment.environment_test toLowerCase data fileName) eqn:Henv.
      { eexists. split; [reflexivity |]. left. cbn.
        split; [reflexivity |]. split; [auto | auto]. }
      destruct (detectFromFilename toLowerCase fileName) eqn:Hname; cbn [negb];
        eexists; (split; [reflexivity |]); cbn;
        try (right; left; repeat split; discriminate).
      right. right. split; reflexivity.
    + rewrite DetectionFacts.catch_clause. eexists. split; [reflexivity |].
      right. right. split; reflexivity.
  - cbn [bind try_catch]. apply DetectionFacts.catch_clause.
Qed.

(** X17.  [detectFileType] returns a verdict whenever the parser completes,
    and the verdict is coherent: the confidence is 0.95, 0.6 or 0; it is 0
    exactly when the type is [unknown]; and at 0.6 the type is the one that
    the file name alone suggests. *)
Theorem detectFileType_verdict (content fileName : string) :
  JSON_parse content ≠ OutOfFuel ->
  ∃ r, detectFileType toLowerCase JSON_parse content fileName = Return r
       ∧ (confidence r = confidence_high ∨ confidence r = confidence_name
          ∨ confidence r = confidence_none)
       ∧ (type r = unknown <-> confidence r = confidence_none)
       ∧ (confidence r = confidence_name -> type r = detectFromFilename toLowerCase fileName).
Proof.
  intros Hparse. pose proof (detectFileType_cases content fileName) as Hcases.
  destruct (JSON_parse content) as [data | e |]; [| |congruence].
  - destruct Hcases as (r & Hr & Hverdict). exists r. split; [exact Hr |].
    destruct Hverdict as [(Hc & Ht & _) | [(Hc & Ht & Hne) | (Hc & Ht)]];
      rewrite Hc.
    + split; [auto |]. split; [|discriminate].
      split; [|discriminate]. intros Hu. rewrite Hu in Ht.
      destruct Ht as [? | [? | ?]]; discriminate.
    + split; [auto |]. split; [|auto]. split; [contradiction | discriminate].
    + split; [auto |]. split; [now split | discriminate].
  - eexists. split; [exact Hcases |]. cbn.
    split; [auto |]. split; [now split | discriminate].
Qed.

(** X18.  What the import accepts.  [processImportFile] goes on to a parser
    only if [validateFileTypeSupport] accepts the type that [detectFileType]
    found.  What it accepts is a file that parsed as JSON and whose type is
    known; an OpenAPI document under a name that ends in [.yaml] or [.yml]
    is refused, and so is every file that failed to parse. *)
Theorem import_accepts (content fileName : string) :
  JSON_parse content ≠ OutOfFuel ->
  ∃ r, detectFileType toLowerCase JSON_parse content fileName = Return r
       ∧ (supported (validateFileTypeSupport toLowerCase (type r) fileName) = true
          <-> (∃ data, JSON_parse content = Return data)
              ∧ type r ≠ unknown
              ∧ ¬ (type r = openapi ∧ yaml_extension toLowerCase fileName = true)).
Proof.
  intros Hparse. pose proof (detectFileType_cases content fileName) as Hcases.
  destruct (JSON_parse content) as [data | e |]; [| |congruence].
  - destruct Hcases as (r & Hr & _). exists r. split; [exact Hr |].
    unfold validateFileTypeSupport, yaml_extension.
    destruct (type r); cbn [supported].
    + split; [intros _ | reflexivity].
      split; [eauto |]. split; [discriminate | intros [[=] _]].
    + destruct (endsWith _ ".yaml" || endsWith _ ".yml"); cbn [supported].
      * split; [discriminate | intros (_ & _ & Hno)]. now destruct Hno.
      * split; [intros _ | reflexivity].
        split; [eauto |]. split; [discriminate | intros [_ [=]]].
    + split; [intros _ | reflexivity].
      split; [eauto |]. split; [discriminate | intros [[=] _]].
    + split; [discriminate | intros (_ & Hne & _)]. now destruct Hne.
  - eexists. split; [exact Hcases |]. cbn.
    split; [discriminate | intros ((data & [=]) & _)].
Qed.

End Classifier.

Lemma detectFileType_verdict_witness :
  ∃ r, detectFileType toLowerCase Json.parse "[1, 2]" "requests.json" = Return r
       ∧ (confidence r = confidence_high ∨ confidence r = confidence_name
          ∨ confidence r = confidence_none)
       ∧ (type r = unknown <-> confidence r = confidence_none)
       ∧ (confidence r = confidence_name ->
          type r = detectFromFilename toLowerCase "requests.json").
Proof.
  apply (detectFileType_verdict toLowerCase Json.parse "[1, 2]" "requests.json").
  vm_compute. discriminate.
Defined.

Lemma import_accepts_witness :
  ∃ r, detectFileType toLowerCase Json.parse Scenarios.circular_spec_text "api.yaml" = Return r
       ∧ (supported (validateFileTypeSupport toLowerCase (type r) "api.yaml") = true
          <-> (∃ data, Json.parse Scenarios.circular_spec_text = Return data)
              ∧ type r ≠ unknown
              ∧ ¬ (type r = openapi ∧ yaml_extension toLowerCase "api.yaml" = true)).
Proof.
  apply (import_accepts toLowerCase Json.parse Scenarios.circular_spec_text "api.yaml").
  vm_compute. discriminate.
Defined.

End SupportFacts.

(** ** The environment parser: outcomes *)

Module EnvironmentOutcomes.

Import JsString Js Environment EnvironmentText TextFacts.

Lemma omap_length {A B} (f : A -> option B) (l : list A) :
  length (omap f l) <= length l.
Proof.
  induction l as [|x l IH]; [reflexivity |]. cbn.
  destruct (f x); cbn; lia.
Qed.

Section Parser.

Variable toLowerCase : string -> string.
Variable JSON_parse : string -> completion Js.value.

Lemma variable_of_fields (item : Js.value) (v : EnvironmentVariable) :
  variable_of toLowerCase item = Some v ->
  get_prop item "key" = VStr (key v) ∧ get_prop item "value" = VStr (value v)
  ∧ isSecret v = shouldBeSecret toLowerCase (key v) (value v)
  ∧ truthy (type v) = true
  ∧ (enabled v = false <-> get_prop item "enabled" = VBool false).
Proof.
  unfold variable_of. destruct (truthy item && typeof_object item); [|discriminate].
  destruct (get_prop item "key") as [| | | |k| |]; try discriminate.
  destruct (get_prop item "value") as [| | | |val| |]; try discriminate.
  intros [= <-]. cbn [key value isSecret type enabled].
  repeat split.
  - unfold or_else. now destruct (truthy (get_prop item "type")) eqn:E.
  - destruct (get_prop item "enabled") as [| |[|]| | | |]; cbn; congruence.
  - now intros ->.
Qed.

(** X19.  The outcomes of [parsePostmanEnvironment].  When it returns, the
    name is the non-empty [name] of the document and the variables are, in
    order, the entries of [values] whose [key] and [value] are strings; there
    is one at least; each is enabled unless its entry says [enabled: false],
    and is secret exactly as [shouldBeSecret] tells of its key and value.
    When it throws, the error is one of its own five, whose messages start
    with [Invalid environment file:], unless the parser itself threw
    something other than a syntax error. *)
Theorem parsePostmanEnvironment_outcome (content : string) :
  match parsePostmanEnvironment toLowerCase JSON_parse content with
  | Return env =>
      ∃ data values,
        JSON_parse content = Return data
        ∧ get_prop data "name" = VStr (name env) ∧ name env ≠ ""
        ∧ get_prop data "values" = VArr values
        ∧ variables env = omap (variable_of toLowerCase) values
        ∧ variables env ≠ []
        ∧ length (variables env) <= length values
        ∧ Forall (fun v => isSecret v = shouldBeSecret toLowerCase (key v) (value v))
                 (variables env)
  | Throw e =>
      (∃ m, e = Error m ∧ m ∈ parse_errors)
      ∨ (JSON_parse content = Throw e ∧ ∀ m, e ≠ SyntaxError m)
  | OutOfFuel => JSON_parse content = OutOfFuel
  end.
Proof.
  unfold parsePostmanEnvironment, parse_errors.
  destruct (JSON_parse content) as [data | e |]; cbn [bind try_catch];
    [| |reflexivity].
  - destruct (negb (truthy data) || negb (typeof_object data));
      [cbn; left; eexists; split; [reflexivity | set_solver] |].
    destruct (EnvironmentFacts.nonempty_string (get_prop data "name")) as [Hname _].
    destruct (truthy (get_prop data "name")), (typeof_string (get_prop data "name"));
      cbn [negb orb];
      try (cbn; left; eexists; split; [reflexivity | set_solver]).
    destruct (Hname eq_refl) as (n & Hn & Hne). rewrite Hn in *. clear Hname.
    destruct (get_prop data "values") as [| | | | |values|] eqn:Hvalues;
      cbn [isArray negb];
      try (cbn; left; eexists; split; [reflexivity | set_solver]).
    cbn [elements].
    destruct (omap (variable_of toLowerCase) values) as [|v vs] eqn:Hvars; cbn [length Nat.eqb].
    + cbn. left. eexists. split; [reflexivity | set_solver].
    + cbn [try_catch name variables text].
      exists data, values. rewrite Hvars.
      repeat split; try assumption; try discriminate.
      * rewrite <- Hvars. apply omap_length.
      * rewrite <- Hvars. apply Forall_forall. intros x Hx.
        apply list_elem_of_omap in Hx as (item & _ & Hitem).
        now apply variable_of_fields in Hitem.
  - destruct e as [m | m | m].
    + left. eexists. split; [reflexivity | set_solver].
    + right. split; [reflexivity | discriminate].
    + right. split; [reflexivity | discriminate].
Qed.

(** X20.  A document that [isPostmanEnvironment] accepts passes the checks of
    [parsePostmanEnvironment] on its name and values: the parser returns an
    environment of that name, or fails for one reason only, that no entry of
    [values] has a string key and a string value. *)
Theorem detected_environment_parses (content fileName : string) :
  isPostmanEnvironment toLowerCase JSON_parse content fileName = Return (VBool true) ->
  (∃ env data,
     parsePostmanEnvironment toLowerCase JSON_parse content = Return env
     ∧ JSON_parse content = Return data
     ∧ get_prop data "name" = VStr (name env))
  ∨ parsePostmanEnvironment toLowerCase JSON_parse content
    = Throw (Error "Invalid environment file: no valid variables found").
Proof.
  intros Hdetected.
  destruct (JSON_parse content) as [data | e |] eqn:Hparse;
    [| unfold isPostmanEnvironment in Hdetected; rewrite Hparse in Hdetected;
       discriminate ..].
  destruct (EnvironmentFacts.isPostmanEnvironment_parsed
              toLowerCase JSON_parse content fileName data Hparse)
    as (v & Hv & Htest & _).
  rewrite Hv in Hdetected. injection Hdetected as ->.
  symmetry in Htest. cbn [truthy] in Htest.
  apply EnvironmentFacts.environment_test_true in Htest
    as (((n & Hn & Hne) & (values & Hvalues) & _) & _).
  unfold parsePostmanEnvironment. rewrite Hparse. cbn [bind].
  assert (truthy data = true ∧ typeof_object data = true) as [-> ->].
  { destruct data; try discriminate; auto. }
  rewrite Hn, Hvalues. destruct n; [contradiction |].
  cbn [negb orb truthy JsString.truthy typeof_string isArray elements].
  destruct (omap (variable_of toLowerCase) values) as [|v vs]; cbn [length Nat.eqb try_catch].
  - now right.
  - left. eexists _, data. repeat split. exact Hn.
Qed.

(** X21.  Half of the sixteen sensitive keywords never decide: a key is
    sensitive exactly when, in the lower case that the host gives it, it
    contains one of [token], [key],
    [secret], [auth], [bearer], [credential], [pass] or [pwd]. *)
Theorem sensitive_keywords_minimal (k value : string) :
  shouldBeSecret toLowerCase k value = true
  <-> (∃ keyword, keyword ∈ MINIMAL_KEYWORDS
                  ∧ includes (toLowerCase k) keyword = true)
      ∨ long_token value.
Proof.
  rewrite EnvironmentFacts.shouldBeSecret_iff. unfold sensitive_key.
  set (l := toLowerCase k).
  assert ((∃ keyword, In keyword SENSITIVE_KEYWORDS ∧ includes l keyword = true)
          <-> (∃ keyword, keyword ∈ MINIMAL_KEYWORDS ∧ includes l keyword = true))
    as ->; [|reflexivity].
  unfold MINIMAL_KEYWORDS. split.
  - intros (keyword & Hin & Hfound). cbn in Hin.
    repeat match type of Hin with
           | _ ∨ _ => destruct Hin as [<- | Hin]
           | False => destruct Hin
           end;
      try (exists "token"; split;
           [set_solver | first [ exact Hfound
                               | exact (includes_part l "access_" "token" "" Hfound)
                               | exact (includes_part l "refresh_" "token" "" Hfound)]]);
      try (exists "key"; split;
           [set_solver | first [ exact Hfound
                               | exact (includes_part l "api_" "key" "" Hfound)
                               | exact (includes_part l "api" "key" "" Hfound)
                               | exact (includes_part l "private_" "key" "" Hfound)]]);
      try (exists "secret"; split;
           [set_solver | first [ exact Hfound
                               | exact (includes_part l "client_" "secret" "" Hfound)]]);
      try (exists "auth"; split;
           [set_solver | first [ exact Hfound
                               | exact (includes_part l "" "auth" "orization" Hfound)]]);
      try (exists "pass"; split;
           [set_solver | first [ exact Hfound
                               | exact (includes_part l "" "pass" "word" Hfound)]]);
      try (eexists; split; [|exact Hfound]; set_solver).
  - intros (keyword & Hin & Hfound). exists keyword. split; [|exact Hfound].
    cbn. set_solver.
Qed.

End Parser.

Lemma detected_environment_parses_witness :
  (∃ env data,
     parsePostmanEnvironment toLowerCase Json.parse Scenarios.environment_text = Return env
     ∧ Json.parse Scenarios.environment_text = Return data
     ∧ get_prop data "name" = VStr (name env))
  ∨ parsePostmanEnvironment toLowerCase Json.parse Scenarios.environment_text
    = Throw (Error "Invalid environment file: no valid variables found").
Proof.
  apply (detected_environment_parses toLowerCase Json.parse Scenarios.environment_text
           "dev.postman_environment.json").
  vm_compute. reflexivity.
Defined.

End EnvironmentOutcomes.

(** ** The creation of environments *)

Module CreationFacts.

Import JsString EnvironmentCreation TextFacts.

Section Host.

Variable toLowerCase : string -> string.

(** [identifier_pattern.test(s)]: a first character of the first class, then
    characters of the second class up to the end. *)
Lemma test_identifier (s : string) :
  Regex.test identifier_pattern s
  = match s with
    | String c t => id_start c && forallb id_char t
    | EmptyString => false
    end.
Proof.
  unfold Regex.test, identifier_pattern. destruct s as [|c t]; [reflexivity |].
  cbn [Regex.search]. rewrite RegexFacts.anchored_search_later, orb_false_r.
  cbn [Regex.run]. f_equal.
  apply (RegexFacts.star_class_to_end id_char (len t) (String c "") t). lia.
Qed.

Lemma test_identifier_iff (s : string) :
  Regex.test identifier_pattern s = true <-> identifier s.
Proof.
  rewrite test_identifier. unfold identifier. split.
  - destruct s as [|c t]; [discriminate |]. intros H.
    apply andb_true_iff in H as [Hc Ht]. eauto.
  - intros (c & t & -> & Hc & Ht). now rewrite Hc, Ht.
Qed.

Lemma id_char_plain (c : ascii) :
  id_char c = true -> is_space c = false ∧ nat_of_ascii c < 128.
Proof.
  destruct c as [[] [] [] [] [] [] [] []]; cbv; try congruence;
    (split; [reflexivity | lia]).
Qed.

Lemma id_start_char (c : ascii) : id_start c = true -> id_char c = true.
Proof.
  unfold id_start, id_char. intros H.
  apply orb_true_iff in H as [H | H]; [|now rewrite H, orb_true_r].
  apply orb_true_iff in H as [-> | ->]; [reflexivity | now rewrite orb_true_r].
Qed.

Lemma rev_onto_class (p : ascii -> bool) (s acc : string) :
  forallb p (rev_onto acc s) = forallb p acc && forallb p s.
Proof.
  revert acc. induction s as [|c s IH]; intros acc; cbn [rev_onto forallb].
  - now rewrite andb_true_r.
  - rewrite IH. cbn [forallb]. now destruct (p c), (forallb p acc).
Qed.

Lemma rev_onto_len (s acc : string) : len (rev_onto acc s) = len acc + len s.
Proof.
  revert acc. unfold len. induction s as [|c s IH]; intros acc; cbn [rev_onto].
  - cbn. lia.
  - rewrite IH. cbn. lia.
Qed.

Lemma wide_space_head (a b c : ascii) :
  wide_space a b c = true -> 128 <= nat_of_ascii a.
Proof.
  unfold wide_space. cbv zeta.
  repeat rewrite ?orb_true_iff, ?andb_true_iff, ?Nat.eqb_eq, ?Nat.leb_le. lia.
Qed.

(** A character of ASCII that is no blank starts no white space, and ends
    none. *)
Lemma space_width_plain (c : ascii) (s : string) :
  is_space c = false -> nat_of_ascii c < 128 -> space_width (String c s) = 0.
Proof.
  intros Hblank Hc. cbn [space_width]. rewrite Hblank.
  destruct s as [|b [|d s]]; try reflexivity;
    (destruct (Nat.eqb_spec (nat_of_ascii c) 194) as [E|_]; [lia |]);
    cbn [andb]; [reflexivity |].
  destruct (wide_space c b d) eqn:E; [|reflexivity].
  apply wide_space_head in E. lia.
Qed.

Lemma space_width_end_plain (c : ascii) (r : string) :
  is_space c = false -> nat_of_ascii c < 128 -> space_width_end (String c r) = 0.
Proof.
  intros Hblank Hc. cbn [space_width_end]. rewrite Hblank.
  destruct r as [|b [|a r]]; try reflexivity;
    (destruct (Nat.eqb_spec (nat_of_ascii c) 160) as [E|_]; [lia |]);
    rewrite andb_false_r; [reflexivity |].
  destruct (wide_space a b c) eqn:E; [|reflexivity].
  apply UrlFacts.wide_space_bytes in E. lia.
Qed.

Lemma strip_none (width : string -> nat) (fuel : nat) (s : string) :
  width s = 0 -> strip width fuel s = s.
Proof. intros H. destruct fuel; cbn [strip]; [reflexivity | now rewrite H]. Qed.

(** Trimming leaves a text of letters, digits and underscores as long as it
    was. *)
Lemma trim_len (s : string) :
  forallb id_char s = true -> len (trim s) = len s.
Proof.
  intros Hs. unfold trim, trimStart, trimEnd.
  assert (strip space_width (len s) s = s) as ->.
  { apply strip_none. destruct s as [|c t]; [reflexivity |].
    cbn [forallb] in Hs. apply andb_true_iff in Hs as [Hc _].
    apply id_char_plain in Hc as [Hblank Hc]. now apply space_width_plain. }
  assert (strip space_width_end (len s) (rev s) = rev s) as ->.
  { apply strip_none.
    assert (forallb id_char (rev s) = true) as Hrev
      by (unfold rev; now rewrite rev_onto_class, Hs).
    destruct (rev s) as [|c r]; [reflexivity |].
    cbn [forallb] in Hrev. apply andb_true_iff in Hrev as [Hc _].
    apply id_char_plain in Hc as [Hblank Hc]. now apply space_width_end_plain. }
  unfold rev. rewrite !rev_onto_len. unfold len. cbn. lia.
Qed.

Lemma identifier_plain (s : string) :
  identifier s ->
  truthy s = true ∧ len (trim s) ≠ 0 ∧ includes s " " = false.
Proof.
  intros (c & t & -> & Hc & Ht).
  assert (forallb id_char (String c t) = true) as Hall.
  { cbn. now rewrite (id_start_char c Hc), Ht. }
  split; [reflexivity |]. split.
  - rewrite (trim_len _ Hall). unfold len. cbn. lia.
  - rewrite NameFacts.includes_char. apply negb_false_iff.
    clear -Hall. induction (String c t) as [|d s IH]; [reflexivity |].
    cbn [forallb] in Hall. cbn [absent].
    apply andb_true_iff in Hall as [Hd Hall].
    rewrite (IH Hall), andb_true_r.
    destruct (Ascii.eqb_spec " " d) as [<-|]; [discriminate | reflexivity].
Qed.

Lemma check_names_valid (variables : list CaidoEnvironmentVariable) :
  (valid (check_names variables) = true
   <-> Forall (fun v => identifier (name v)) variables)
  ∧ (valid (check_names variables) = true <-> reason (check_names variables) = None).
Proof.
  induction variables as [|v rest [IHv IHr]]; [cbn; split; split; auto |].
  cbn [check_names].
  destruct (Regex.test identifier_pattern (name v)) eqn:Htest.
  - apply test_identifier_iff in Htest.
    destruct (identifier_plain _ Htest) as (-> & Htrim & ->).
    apply Nat.eqb_neq in Htrim. rewrite Htrim. cbn [negb orb].
    rewrite Forall_cons. tauto.
  - assert (¬ identifier (name v)) as Hno.
    { rewrite <- test_identifier_iff. congruence. }
    destruct (negb (truthy (name v)) || (len (trim (name v)) =? 0)),
      (includes (name v) " "); cbn;
      (split; split; [discriminate | | discriminate | discriminate]);
      intros Hall; apply Forall_cons in Hall as [Hid _]; contradiction.
Qed.

(** A list has as many elements as the set of them exactly when it has no
    duplicates. *)
Lemma length_set_nodup (l : list string) :
  size (list_to_set l : gset string) <= length l
  ∧ (length l = size (list_to_set l : gset string) <-> NoDup l).
Proof.
  induction l as [|x l [IHle IHeq]]; [split; [reflexivity | split; [constructor | reflexivity]] |].
  cbn [list_to_set length].
  destruct (decide (x ∈ l)) as [Hin|Hout].
  - assert (({[x]} ∪ list_to_set l : gset string) = list_to_set l) as ->.
    { apply set_eq. intros y. rewrite elem_of_union, elem_of_singleton.
      rewrite !elem_of_list_to_set. split; [intros [-> | ?]; auto | auto]. }
    split; [lia |]. split; [lia |].
    intros Hnodup. apply NoDup_cons in Hnodup as [Hno _]. contradiction.
  - rewrite size_union by (rewrite disjoint_singleton_l, elem_of_list_to_set; exact Hout).
    rewrite size_singleton. split; [lia |].
    rewrite NoDup_cons. split.
    + intros Hlen. split; [assumption |]. apply IHeq. lia.
    + intros [_ Hnodup]. apply IHeq in Hnodup. lia.
Qed.

Lemma trim_blank (s : string) :
  negb (truthy s) || (len (trim s) =? 0) = true <-> trim s = "".
Proof.
  destruct s as [|c s]; [split; reflexivity |]. cbn [truthy negb orb].
  rewrite Nat.eqb_eq. unfold len. destruct (trim (String c s)); cbn; split;
    congruence.
Qed.

Lemma validate_iff (variables : list CaidoEnvironmentVariable)
    (environmentName : string) :
  (valid (validateEnvironmentCreation toLowerCase variables environmentName) = true
   <-> trim environmentName ≠ ""
       ∧ variables ≠ []
       ∧ NoDup (map (fun v => toLowerCase (name v)) variables)
       ∧ Forall (fun v => identifier (name v)) variables)
  ∧ (valid (validateEnvironmentCreation toLowerCase variables environmentName) = true
     <-> reason (validateEnvironmentCreation toLowerCase variables environmentName) = None).
Proof.
  unfold validateEnvironmentCreation.
  pose proof (trim_blank environmentName) as Hblank.
  destruct (negb (truthy environmentName) || (len (trim environmentName) =? 0)).
  { cbn. split; split; try discriminate. intros (Hne & _). exfalso. apply Hne, Hblank. reflexivity. }
  assert (trim environmentName ≠ "") as Hname.
  { intros E. apply Hblank in E. discriminate. }
  destruct variables as [|v rest] eqn:Hvars.
  { cbn. split; split; try discriminate. now intros (_ & Hne & _). }
  rewrite <- Hvars. assert (variables ≠ []) as Hsome by (subst; discriminate).
  assert ((length variables =? 0) = false) as -> by (subst; reflexivity).
  cbv zeta. rewrite length_map.
  destruct (length_set_nodup (map (fun v => toLowerCase (name v)) variables))
    as [_ Hdup]. rewrite length_map in Hdup.
  destruct (check_names_valid variables) as [Hnames Hreason].
  destruct (length variables =? size _) eqn:Hsize; cbn [negb].
  - apply Nat.eqb_eq in Hsize. apply Hdup in Hsize. clear Hvars. tauto.
  - apply Nat.eqb_neq in Hsize. cbn.
    split; split; try discriminate. intros (_ & _ & Hnodup & _).
    apply Hdup in Hnodup. contradiction.
Qed.

(** X22.  [validateEnvironmentCreation] accepts exactly when the trimmed
    environment name is not empty, there is a variable, no two names are
    equal up to case, and every name is an identifier: a letter or an
    underscore followed by letters, digits and underscores.  It gives a
    reason exactly when it refuses. *)
Theorem validateEnvironmentCreation_valid (variables : list CaidoEnvironmentVariable)
    (environmentName : string) :
  (valid (validateEnvironmentCreation toLowerCase variables environmentName) = true
   <-> trim environmentName ≠ ""
       ∧ variables ≠ []
       ∧ NoDup (map (fun v => toLowerCase (name v)) variables)
       ∧ Forall (fun v => identifier (name v)) variables)
  ∧ (valid (validateEnvironmentCreation toLowerCase variables environmentName) = true
     <-> reason (validateEnvironmentCreation toLowerCase variables environmentName) = None).
Proof. apply validate_iff. Qed.

Section WithSdk.

Variable Sdk : Type.
Variable setVar : string -> string -> bool -> string -> Sdk -> option string * Sdk.

(** The loop counts the calls that returned and reports those that threw. *)
Lemma set_variables_outcomes (environmentName : string)
    (variables : list CaidoEnvironmentVariable) :
  ∀ (createdCount : nat) (errors : list string) (sdk : Sdk),
    let '(outcomes, final) :=
      call_outcomes Sdk setVar variables environmentName sdk in
    set_variables Sdk setVar variables environmentName createdCount errors sdk
    = (createdCount + count_returned outcomes,
       errors ++ failure_reports variables outcomes, final)
    ∧ length outcomes = length variables
    ∧ count_returned outcomes + length (failure_reports variables outcomes)
      = length variables
    ∧ final = fold_left
                (fun s v =>
                   snd (setVar (name v) (value v) (secret v) environmentName s))
                variables sdk.
Proof.
  induction variables as [|v rest IH]; intros createdCount errors sdk.
  - cbn. now rewrite Nat.add_0_r, app_nil_r.
  - cbn [set_variables call_outcomes fold_left].
    destruct (setVar (name v) (value v) (secret v) environmentName sdk)
      as [[e|] sdk1]; cbn [snd].
    + match goal with
      | |- context [set_variables _ _ _ _ _ (errors ++ [?m]) _] =>
          specialize (IH createdCount (errors ++ [m]) sdk1)
      end.
      destruct (call_outcomes Sdk setVar rest environmentName sdk1)
        as [outcomes final].
      destruct IH as (-> & Hlen & Hsum & Hfinal).
      cbn [failure_reports length]. unfold count_returned in *.
      cbn [List.filter returned]. rewrite <- app_assoc.
      repeat split; [now rewrite Hlen | lia | exact Hfinal].
    + specialize (IH (S createdCount) errors sdk1).
      destruct (call_outcomes Sdk setVar rest environmentName sdk1)
        as [outcomes final].
      destruct IH as (-> & Hlen & Hsum & Hfinal).
      cbn [failure_reports length]. unfold count_returned in *.
      cbn [List.filter returned length].
      repeat split; [f_equal; f_equal; lia | now rewrite Hlen | lia | exact Hfinal].
Qed.

Lemma count_returned_all (outcomes : list (option string)) :
  count_returned outcomes = length outcomes
  <-> Forall (fun outcome => outcome = None) outcomes.
Proof.
  unfold count_returned. induction outcomes as [|o outcomes IH].
  - split; [constructor | reflexivity].
  - pose proof (filter_length_le returned outcomes) as Hle.
    rewrite Forall_cons. destruct o as [e|]; cbn [List.filter returned length].
    + split; [lia | intros [[=] _]].
    + rewrite <- IH. split; [intros H; split; [reflexivity | lia] | intros [_ H]; lia].
Qed.

(** What [createCaidoEnvironment] returns, and the state it leaves. *)
Lemma createCaidoEnvironment_run (variables : list CaidoEnvironmentVariable)
    (environmentName : string) (sdk : Sdk) :
  let '(result, sdk') :=
    createCaidoEnvironment Sdk setVar variables environmentName sdk in
  let '(outcomes, final) :=
    call_outcomes Sdk setVar variables environmentName sdk in
  let created := count_returned outcomes in
  length outcomes = length variables
  ∧ variablesCreated result = Some created
  ∧ created <= length variables
  ∧ success result = (0 <? created)
  ∧ error result
    = (if created =? length variables then None
       else Some (join "; " (failure_reports variables outcomes)))
  ∧ (error result = None <-> Forall (fun outcome => outcome = None) outcomes)
  ∧ EnvironmentCreation.environmentName result = Some environmentName
  ∧ sdk' = final
  ∧ sdk' = fold_left (fun s v =>
                        snd (setVar (name v) (value v) (secret v) environmentName s))
                     variables sdk
  ∧ (variables = [] ->
     success result = false
     ∧ message result = "Successfully added 0 variables to environment").
Proof.
  unfold createCaidoEnvironment.
  pose proof (set_variables_outcomes environmentName variables 0 [] sdk) as Hrun.
  destruct (call_outcomes Sdk setVar variables environmentName sdk)
    as [outcomes final].
  destruct Hrun as (-> & Hlen & Hsum & Hfinal).
  cbn [Nat.add app success variablesCreated error message
       EnvironmentCreation.environmentName].
  cbv zeta.
  assert (error_text :
            (if 0 <? length (failure_reports variables outcomes)
             then Some (join "; " (failure_reports variables outcomes)) else None)
            = (if count_returned outcomes =? length variables then None
               else Some (join "; " (failure_reports variables outcomes)))).
  { destruct (Nat.eqb_spec (count_returned outcomes) (length variables)) as [E|E].
    - assert (length (failure_reports variables outcomes) = 0) as -> by lia.
      reflexivity.
    - destruct (failure_reports variables outcomes); [cbn in Hsum; lia | reflexivity]. }
  split; [exact Hlen |]. split; [reflexivity |]. split; [lia |].
  split; [reflexivity |]. split; [exact error_text |].
  split; [rewrite error_text; split |].
  - destruct (Nat.eqb_spec (count_returned outcomes) (length variables));
      [intros _ | discriminate].
    apply count_returned_all. lia.
  - intros Hall. apply count_returned_all in Hall.
    rewrite <- Hlen, Hall, Nat.eqb_refl. reflexivity.
  - split; [reflexivity |]. split; [reflexivity |]. split; [exact Hfinal |].
    intros ->. cbn in Hsum.
    assert (count_returned outcomes = 0) as -> by lia. split; reflexivity.
Qed.

(** X23.  [createCaidoEnvironment] calls [setVar] once for each variable, in
    order, under the environment name it was given, each call in the state
    the calls before it left.  [variablesCreated] is the number of those
    calls that returned, which is at most the number of variables; [success]
    tells that it is not zero; [error] is absent exactly when every call
    returned, and otherwise joins the reports of the calls that threw, each
    with the name of its variable and the text thrown.  With no variable at
    all the message announces a success and [success] is false. *)
Theorem createCaidoEnvironment_counts (variables : list CaidoEnvironmentVariable)
    (environmentName : string) (sdk : Sdk) :
  let '(result, sdk') :=
    createCaidoEnvironment Sdk setVar variables environmentName sdk in
  let '(outcomes, final) :=
    call_outcomes Sdk setVar variables environmentName sdk in
  let created := count_returned outcomes in
  length outcomes = length variables
  ∧ variablesCreated result = Some created
  ∧ created <= length variables
  ∧ success result = (0 <? created)
  ∧ error result
    = (if created =? length variables then None
       else Some (join "; " (failure_reports variables outcomes)))
  ∧ (error result = None <-> Forall (fun outcome => outcome = None) outcomes)
  ∧ EnvironmentCreation.environmentName result = Some environmentName
  ∧ sdk' = final
  ∧ sdk' = fold_left (fun s v =>
                        snd (setVar (name v) (value v) (secret v) environmentName s))
                     variables sdk
  ∧ (variables = [] ->
     success result = false
     ∧ message result = "Successfully added 0 variables to environment").
Proof. apply createCaidoEnvironment_run. Qed.

(** X24.  [createEnvironmentVariables] looks at the enabled variables only.
    It calls the host exactly when their names pass the validation, and then
    once for each of them, in order; when the validation fails the host is
    left as it was and the result carries the reason.  The validation passes
    exactly when the trimmed environment name is not empty, some variable is
    enabled, and the keys of the enabled variables are identifiers, no two
    equal up to case. *)
Theorem createEnvironmentVariables_enabled
    (variables : list Environment.EnvironmentVariable)
    (environmentName : string) (sdk : Sdk) :
  let converted := convertToCaidoVariables variables in
  let accepted :=
    valid (validateEnvironmentCreation toLowerCase converted environmentName) in
  let '(result, sdk') :=
    createEnvironmentVariables toLowerCase Sdk setVar variables environmentName sdk in
  map name converted = enabled_keys variables
  ∧ (accepted = true
     <-> trim environmentName ≠ ""
         ∧ enabled_keys variables ≠ []
         ∧ NoDup (map toLowerCase (enabled_keys variables))
         ∧ Forall identifier (enabled_keys variables))
  ∧ (if accepted
     then sdk' = fold_left
                   (fun s v =>
                      snd (setVar (name v) (value v) (secret v) environmentName s))
                   converted sdk
          ∧ ∃ created, variablesCreated result = Some created
                       ∧ created <= length (enabled_keys variables)
     else sdk' = sdk ∧ success result = false
          ∧ variablesCreated result = None ∧ error result ≠ None).
Proof.
  cbv zeta. unfold createEnvironmentVariables.
  set (converted := convertToCaidoVariables variables).
  assert (map name converted = enabled_keys variables) as Hkeys.
  { unfold converted, convertToCaidoVariables, enabled_keys.
    rewrite map_map. reflexivity. }
  destruct (validate_iff converted environmentName) as [Hvalid Hreason].
  assert (valid (validateEnvironmentCreation toLowerCase converted environmentName) = true
          <-> trim environmentName ≠ ""
              ∧ enabled_keys variables ≠ []
              ∧ NoDup (map toLowerCase (enabled_keys variables))
              ∧ Forall identifier (enabled_keys variables)) as Hiff.
  { rewrite Hvalid, <- Hkeys, map_map, Forall_map.
    assert (converted ≠ [] <-> map name converted ≠ []) as ->; [|reflexivity].
    destruct converted; cbn; split; congruence. }
  destruct (valid (validateEnvironmentCreation toLowerCase converted environmentName)) eqn:Hv;
    cbn [negb].
  - pose proof (createCaidoEnvironment_run converted environmentName sdk) as Hrun.
    destruct (createCaidoEnvironment Sdk setVar converted environmentName sdk)
      as [result sdk'].
    destruct (call_outcomes Sdk setVar converted environmentName sdk)
      as [outcomes final].
    destruct Hrun as (_ & Hc & Hle & _ & _ & _ & _ & _ & Hsdk & _).
    split; [assumption |]. split; [assumption |]. split; [assumption |].
    eexists. split; [exact Hc |]. now rewrite <- Hkeys, length_map.
  - split; [assumption |]. split; [assumption |].
    cbn [success variablesCreated error]. repeat split.
    intros Hnone. apply Hreason in Hnone. congruence.
Qed.

End WithSdk.

End Host.

(** A run against a host that records the calls it receives and refuses the
    variable [base_url]: the disabled variable is not handed over, and one of
    the two calls fails. *)
Example createEnvironmentVariables_recorded :
  let '(result, calls) :=
    createEnvironmentVariables toLowerCase _ (recording_setVar "base_url")
      sample_variables "Dev" [] in
  calls = [("Dev", "api_token"); ("Dev", "base_url")]
  ∧ success result = true
  ∧ variablesCreated result = Some 1
  ∧ message result = "Partially added variables: 1/2 variables created".
Proof. vm_compute. repeat split. Qed.

(** An environment name of white space outside ASCII is blank. *)
Example blank_name_refused :
  validateEnvironmentCreation toLowerCase
    (convertToCaidoVariables sample_variables) Scenarios.no_break_space
  = invalid "Environment name cannot be empty".
Proof. reflexivity. Qed.

End CreationFacts.

(** ** Conversions of values to text *)

Module ConvertFacts.

Import JsString Js Convert.

Lemma type_errors_bind {A B} (Q : A -> Prop) (P : B -> Prop)
    (c : completion A) (k : A -> completion B) :
  type_errors Q c -> (∀ a, Q a -> type_errors P (k a)) ->
  type_errors P (bind c k).
Proof. destruct c; cbn; auto. Qed.

Lemma type_errors_completes {A} (P : A -> Prop) (c : completion A) :
  type_errors P c -> completes P c.
Proof. destruct c; cbn; auto. Qed.

Lemma to_string_bounded (n : nat) (v : value) :
  Js.size v < n -> type_errors (fun _ => True) (to_string v).
Proof.
  revert v. induction n as [|n IH]; intros v Hsize; [lia|].
  destruct v as [| | b | x | s | items | props]; try exact I.
  - cbn [to_string].
    assert (Forall (fun x => Js.size x < n) items) as Hitems.
    { cbn [Js.size] in Hsize. apply Forall_forall. intros x Hx.
      apply list_elem_of_In, in_split in Hx as (l1 & l2 & ->).
      rewrite map_app, list_sum_app in Hsize. cbn in Hsize. lia. }
    clear Hsize. induction Hitems as [|x items Hx _ IHitems]; [exact I|].
    eapply type_errors_bind with (Q := fun _ => True).
    + destruct x; try exact I; apply IH, Hx.
    + intros head _. destruct items as [|y items]; [exact I|].
      eapply type_errors_bind with (Q := fun _ => True); [exact IHitems|].
      intros; exact I.
  - cbn [to_string]. destruct (assoc "toString" props); cbn; eauto.
Qed.

(** A conversion returns a text or throws a [TypeError]. *)
Lemma to_string_throws (v : value) : type_errors (fun _ => True) (to_string v).
Proof. apply (to_string_bounded (S (Js.size v))). lia. Qed.

Lemma toString_of_throws (v : value) :
  type_errors (fun _ => True) (toString_of v).
Proof.
  destruct v; try apply to_string_throws.
  cbn [toString_of]. destruct (assoc "toString" props); cbn; eauto.
Qed.

Lemma to_string_completes (v : value) : completes (fun _ => True) (to_string v).
Proof. apply type_errors_completes, to_string_throws. Qed.

Lemma toString_of_completes (v : value) :
  completes (fun _ => True) (toString_of v).
Proof. apply type_errors_completes, toString_of_throws. Qed.

End ConvertFacts.

(** ** The Postman parser: requests, collections and authentication *)

Module PostmanFacts.

Import JsString Js Postman PostmanAuth PostmanText TextFacts.
Import Convert (type_errors, to_string).

Lemma get_return (v : value) (k : string) (d : value) :
  get v k = Return d -> d = get_prop v k.
Proof. destruct v; cbn; congruence. Qed.

Lemma get_completes (v : value) (k : string) :
  completes (fun d => d = get_prop v k) (get v k).
Proof. now destruct v. Qed.

(** The values of the properties of an object keep a property that the value
    assigned has. *)
Lemma set_prop_values (P : value -> Prop) (k : string) (v : value)
    (props : list (string * value)) :
  P v -> Forall (fun kv => P (snd kv)) props ->
  Forall (fun kv => P (snd kv)) (set_prop k v props).
Proof.
  intros Hv Hprops. unfold set_prop.
  assert (Forall (fun kv => P (snd kv)) (update k v props)) as Hupdate.
  { induction Hprops as [|[k' v'] props Hkv Hprops IH]; [constructor |].
    cbn [update]. destruct (String.eqb k' k); constructor; auto. }
  assert (Forall (fun kv => P (snd kv)) (add k v props)) as Hadd.
  { clear Hupdate.
    induction Hprops as [|[k' v'] props Hkv Hprops IH]; [repeat constructor; auto |].
    cbn [add]. destruct (parse_index k), (parse_index k');
      try destruct (_ <? _)%N; repeat constructor; auto. }
  destruct (assoc k props); [assumption |].
  now destruct (String.eqb k "__proto__").
Qed.

Lemma collect_headers_truthy (entries : list value) :
  ∀ headers : list (string * value),
    Forall (fun kv => truthy (snd kv) = true) headers ->
    completes (Forall (fun kv => truthy (snd kv) = true))
      (collect_headers entries headers).
Proof.
  induction entries as [|header rest IH]; intros headers Hheaders; [exact Hheaders |].
  cbn [collect_headers].
  apply (OpenAPIFacts.completes_bind (fun _ => True)); [now destruct header |].
  intros k _.
  destruct (truthy k); cbn [andb]; [|now apply IH].
  destruct (truthy (get_prop header "value")) eqn:Hvalue; cbn [andb];
    [|now apply IH].
  destruct (truthy (get_prop header "disabled")); cbn [negb]; [now apply IH |].
  apply IH. now apply (set_prop_values (fun v => truthy v = true)).
Qed.

Lemma filter_enabled_kept (items : list value) :
  completes (Forall (fun item => truthy (get_prop item "disabled") = false))
    (filter_enabled items).
Proof.
  induction items as [|item rest IH]; [constructor |]. cbn [filter_enabled].
  apply (OpenAPIFacts.completes_bind (fun d => d = get_prop item "disabled"));
    [apply get_completes |].
  intros d ->.
  apply (OpenAPIFacts.completes_bind
           (Forall (fun item => truthy (get_prop item "disabled") = false)));
    [exact IH |].
  intros kept Hkept. cbn.
  destruct (truthy (get_prop item "disabled")) eqn:Hd; [assumption |].
  now constructor.
Qed.

Lemma join_of_completes (v : value) (sep : string) :
  completes (fun _ => True) (join_of v sep).
Proof. now destruct v. Qed.

Lemma truthy_or_else (a b : value) : truthy b = true -> truthy (or_else a b) = true.
Proof. unfold or_else. now destruct (truthy a) eqn:E. Qed.

Lemma truthy_joined (s sep t : string) :
  sep ≠ "" -> JsString.truthy (s +:+ sep +:+ t) = true.
Proof. intros Hsep. destruct s; [now destruct sep | reflexivity]. Qed.

(** The body of [parsePostmanRequest], before its [catch] clause. *)
Lemma parsePostmanRequest_body (stamp : string) (item : value) :
  ∃ body,
    parsePostmanRequest stamp item = try_catch body (fun _ => Return None)
    ∧ completes (fun r => match r with
                          | Some request =>
                              well_formed request
                              ∧ truthy (get_prop item "request") = true
                          | None => True
                          end) body.
Proof.
  unfold parsePostmanRequest. eexists. split; [reflexivity |].
  apply (OpenAPIFacts.completes_bind (fun d => d = get_prop item "request"));
    [apply get_completes |].
  intros request ->.
  destruct (truthy (get_prop item "request")) eqn:Hrequest; cbn [negb]; [|exact I].
  set (request := get_prop item "request").
  apply (OpenAPIFacts.completes_bind (fun _ => True)).
  { destruct (typeof_string _); [exact I |].
    destruct (truthy (get_prop request "url") && truthy (get_prop _ "raw"));
      [exact I |].
    destruct (_ && truthy (get_prop _ "host")); [|exact I].
    apply (OpenAPIFacts.completes_bind (fun _ => True));
      [apply join_of_completes |].
    intros host _. destruct (truthy (get_prop _ "path")); [|exact I].
    apply (OpenAPIFacts.completes_bind (fun _ => True));
      [apply join_of_completes | now intros]. }
  intros url _.
  apply (OpenAPIFacts.completes_bind
           (Forall (fun kv => truthy (snd kv) = true))).
  { destruct (_ && _); [|constructor]. apply collect_headers_truthy. constructor. }
  intros headers Hheaders.
  apply (OpenAPIFacts.completes_bind (fun m => toUpperCase m = m)).
  { destruct (or_else _ _); cbn; auto. apply toUpperCase_idem. }
  intros method Hmethod.
  apply (OpenAPIFacts.completes_bind
           (fun b => match b with
                     | Some b =>
                         match formdata b with
                         | Some items =>
                             Forall (fun item =>
                                       truthy (get_prop item "disabled") = false)
                                    items
                         | None => True
                         end
                     | None => True
                     end)).
  { destruct (truthy (get_prop request "body")); [|exact I].
    apply (OpenAPIFacts.completes_bind
             (fun f => match f with
                       | Some items =>
                           Forall (fun item =>
                                     truthy (get_prop item "disabled") = false)
                                  items
                       | None => True
                       end)).
    - destruct (_ && _); [|exact I].
      apply (OpenAPIFacts.completes_bind
               (Forall (fun item => truthy (get_prop item "disabled") = false)));
        [apply filter_enabled_kept | now intros].
    - now intros. }
  intros body Hbody. cbn [completes]. split; [|reflexivity].
  unfold well_formed. cbn [Postman.method name id Postman.headers Postman.body].
  repeat split; try assumption.
  - apply truthy_or_else. cbn. now apply truthy_joined.
  - apply truthy_or_else. cbn. now apply truthy_joined.
Qed.

(** X25.  [parsePostmanRequest] never throws: it returns a request or [null].
    A request it returns comes from an item with a truthy [request]; its
    method is in upper case; its name and id are truthy; none of its headers
    has a falsy value; and no entry of its form data is disabled. *)
Theorem parsePostmanRequest_well_formed (stamp : string) (item : value) :
  ∃ r,
    parsePostmanRequest stamp item = Return r
    ∧ match r with
      | Some request =>
          well_formed request ∧ truthy (get_prop item "request") = true
      | None => True
      end.
Proof.
  destruct (parsePostmanRequest_body stamp item) as (body & -> & Hbody).
  destruct body as [r | e |]; cbn in *; [eauto | eauto | contradiction].
Qed.

Section Extract.

Variable stamps : nat -> string.

(** With fuel above the size of the items, [extractPostmanRequests] completes,
    and the requests it returns are well formed. *)
Lemma extract_well_formed (fuel : nat) :
  ∀ (items : value) (count : nat),
    Js.size items < fuel ->
    completes (fun out => Forall well_formed (fst out))
      (extractPostmanRequests stamps fuel items count).
Proof.
  induction fuel as [|fuel IH]; intros items count Hsize; [lia |].
  cbn [extractPostmanRequests].
  assert (∃ l, completes (fun l' => l' = l) (iterate items)
               ∧ ∀ x, x ∈ l -> truthy (get_prop x "item") = true ->
                   Js.size (get_prop x "item") < fuel) as (l & Hiter & Hparts).
  { destruct items as [| | | |s|l|]; try (exists []; split; [exact I | set_solver]).
    - eexists. split; [reflexivity |]. intros x Hx.
      apply list_elem_of_fmap in Hx as (c & -> & _). discriminate.
    - exists l. split; [reflexivity |]. intros x Hx _.
      apply OpenAPIFacts.element_part in Hx as [Hx _].
      pose proof (OpenAPIFacts.get_prop_size x "item").
      cbn -[list_sum] in Hsize. lia. }
  apply (OpenAPIFacts.completes_bind (fun l' => l' = l)); [exact Hiter |].
  intros ? ->. clear Hiter Hsize.
  match goal with
  | |- completes ?P (?loop l [] count) =>
      cut (∀ (count : nat) (requests : list ParsedRequest),
             Forall well_formed requests -> completes P (loop l requests count));
        [intros Hloop; apply Hloop; constructor |]
  end.
  clear count. induction l as [|item rest IHl]; intros count requests Hacc; [exact Hacc |].
  apply (OpenAPIFacts.completes_bind (fun _ => True)); [now destruct item |].
  intros request_ _.
  assert (∀ x, x ∈ rest -> truthy (get_prop x "item") = true ->
            Js.size (get_prop x "item") < fuel) as Hrest.
  { intros x Hx. apply Hparts. now right. }
  destruct (truthy request_).
  - destruct (parsePostmanRequest_body (stamps count) item) as (body & -> & Hbody).
    destruct body as [[r|] | e |]; cbn [try_catch bind] in *;
      try contradiction; try (now apply IHl).
    apply IHl; [assumption |]. apply Forall_app. split; [assumption |].
    constructor; [apply Hbody | constructor].
  - destruct (truthy (get_prop item "item")) eqn:Hfolder; [|now apply IHl].
    apply (OpenAPIFacts.completes_bind (fun out => Forall well_formed (fst out))).
    + apply IH. apply Hparts; [now left | assumption].
    + intros [folderRequests count'] Hfolder_requests.
      apply IHl; [assumption |]. now apply Forall_app.
Qed.

Variable JSON_parse : string -> completion value.

(** X26.  The outcomes of [parsePostmanCollection].  When it returns, the
    document parsed, the name of the collection is the truthy [info.name] of
    the document, and every request is well formed.  When it throws, the
    error is an [Error] whose message starts with [Failed to parse Postman
    collection:], whatever went wrong.  The recursion into folders always
    ends. *)
Theorem parsePostmanCollection_outcome (content : string) :
  match parsePostmanCollection stamps JSON_parse content with
  | Return collection =>
      ∃ data,
        JSON_parse content = Return data
        ∧ collection_name collection = get_prop (get_prop data "info") "name"
        ∧ truthy (collection_name collection) = true
        ∧ Forall well_formed (requests collection)
  | Throw e =>
      ∃ m, e = Error ("Failed to parse Postman collection: " +:+ m)
  | OutOfFuel => JSON_parse content = OutOfFuel
  end.
Proof.
  unfold parsePostmanCollection.
  destruct (JSON_parse content) as [data | e |]; cbn [bind try_catch];
    [| eauto | reflexivity].
  destruct (get data "info") as [info | e |] eqn:Hinfo; cbn [bind try_catch];
    [| eauto | now destruct data].
  apply get_return in Hinfo as ->.
  destruct (truthy (get_prop data "info")); cbn [negb orb try_catch]; [|eauto].
  destruct (truthy (get_prop (get_prop data "info") "name")) eqn:Hname;
    cbn [negb try_catch]; [|eauto].
  set (items := or_else (get_prop data "item") (VArr [])).
  pose proof (extract_well_formed (S (Js.size items)) items 0 ltac:(lia)) as Hrun.
  destruct (extractPostmanRequests stamps (S (Js.size items)) items 0)
    as [[requests count] | e |]; cbn [bind try_catch completes fst] in *;
    [| eauto | contradiction].
  exists data. repeat split; assumption.
Qed.

End Extract.

(** ** [detectPostmanAuth] *)

Section Detector.

Variable toLowerCase : string -> string.

Lemma scan_headers_found (entries : list (string * value)) :
  ∀ (found : bool) (authType : string),
    type_errors
      (fun r => fst r = found || existsb (fun kv => auth_key toLowerCase (fst kv)) entries)
      (scan_headers toLowerCase entries found authType).
Proof.
  induction entries as [|[key value] rest IH]; intros found authType.
  - cbn. now rewrite orb_false_r.
  - cbn [scan_headers existsb fst].
    destruct (auth_key toLowerCase key); cbn [orb]; [|apply IH].
    eapply ConvertFacts.type_errors_bind with (Q := fun _ => True).
    + destruct (includes (toLowerCase key) "bearer"); [exact I |].
      destruct value; cbn [toLowerCase_of bind type_errors]; eauto.
      destruct (startsWith _ _); [exact I |]. now destruct (includes _ "api").
    + intros t _. specialize (IH true t). now rewrite orb_true_r.
Qed.

(** X27.  [detectPostmanAuth] reports authentication exactly when the
    collection carries a truthy [auth], or one of its requests does, or the
    key of one of their headers contains, in the lower case that the host
    gives it, [authorization],
    [x-api-key], [x-auth-token] or [bearer].  The [auth] of the collection
    decides the type before anything else, and without authentication the
    type is [none].  It throws nothing but a [TypeError]: that of a header
    whose value is not a string, or of a type that has no text. *)
Theorem detectPostmanAuth_found (collection : PostmanCollection) :
  type_errors
    (fun info =>
       hasAuth info
       = truthy (collection_auth collection)
         || existsb (authenticated toLowerCase) (requests collection)
       ∧ (hasAuth info = false -> authType info = VStr "none")
       ∧ (truthy (collection_auth collection) = true ->
          authType info
          = or_else (get_prop (collection_auth collection) "type")
                    (VStr "unknown")))
    (detectPostmanAuth toLowerCase collection).
Proof.
  unfold detectPostmanAuth.
  destruct (truthy (collection_auth collection)) eqn:Hauth.
  { eapply ConvertFacts.type_errors_bind; [apply ConvertFacts.to_string_throws|].
    intros t _. cbn. repeat split. discriminate. }
  cbn [orb].
  assert (∀ rs found t,
            type_errors
              (fun info =>
                 hasAuth info = found || existsb (authenticated toLowerCase) rs
                 ∧ (hasAuth info = false -> authType info = VStr "none"))
              (scan_requests toLowerCase rs found t)) as Hscan.
  { induction rs as [|r rest IH]; intros found t.
    - cbn. destruct found; cbn; split; (reflexivity || discriminate).
    - cbn [scan_requests existsb]. unfold authenticated at 1.
      eapply ConvertFacts.type_errors_bind; [apply scan_headers_found|].
      intros [f' t'] Hf. cbn [fst] in Hf. subst f'.
      destruct (truthy (default VUndefined (auth r))); cbn [orb].
      + eapply ConvertFacts.type_errors_bind;
          [apply ConvertFacts.to_string_throws|].
        intros type _. cbn. rewrite orb_true_r.
        split; [reflexivity | discriminate].
      + specialize (IH (found || existsb (fun kv => auth_key toLowerCase (fst kv)) (headers r)) t').
        destruct (scan_requests toLowerCase rest _ t') as [info | e |]; [| assumption..].
        cbn in IH |- *. now rewrite orb_assoc. }
  specialize (Hscan (requests collection) false "header").
  destruct (scan_requests toLowerCase (requests collection) false "header") as [info | e |];
    [| assumption..].
  destruct Hscan as [Hfound Hnone]. cbn. repeat split; try assumption. discriminate.
Qed.

End Detector.

(** The collection of one folder: the requests of the folder are found, the
    disabled header is left out, and the header that remains tells the
    authentication. *)
Example folder_collection :
  ∃ collection,
    parsePostmanCollection string_of_nat Json.parse folder_text = Return collection
    ∧ map (fun r => (method r, url r, headers r)) (requests collection)
      = [("POST", VStr "{{base}}/a", []);
         ("GET", VStr "https://a.com/b", [("Authorization", VStr "Bearer t")])]
    ∧ detectPostmanAuth toLowerCase collection
      = Return {| hasAuth := true;
                  authType := VStr "bearer";
                  description := "Found bearer authentication in request headers" |}.
Proof. eexists. split; [vm_compute; reflexivity |]. split; reflexivity. Qed.

End PostmanFacts.

(** ** What a reference resolves to *)

Module ReferenceFacts.

Import JsString Js OpenAPI.






(** A reference to a member that every object inherits resolves to a method
    of the host, and one to the prototype of the prototype of objects to
    [null]. *)
Example inherited_reference :
  resolveSchemaRef 1 (VStr "#/components/toString")
    OpenAPIScenarios.circular_spec ∅
  = Return (Host HostFunction)
  ∧ resolveSchemaRef 1 (VStr "#/__proto__/__proto__")
      OpenAPIScenarios.circular_spec ∅
    = Return (Value VNull)
  ∧ resolveSchemaRef 1 (VStr "#/components/schemas/Node")
      OpenAPIScenarios.circular_spec ∅
    = Return (Value (get_prop (get_prop (get_prop OpenAPIScenarios.circular_spec
                                           "components") "schemas") "Node")).
Proof. repeat split. Qed.

End ReferenceFacts.
Module OpenAPIParserFacts.

Import JsString Js OpenAPI Convert OpenAPIParser.
Import OpenAPIFacts (completes_bind, completes_weaken).
Import ConvertFacts (type_errors_bind, to_string_throws, to_string_completes,
                     toString_of_completes).

(** *** The own properties of the header object *)

Lemma assoc_update (k k' : string) (v : value) (props : list (string * value)) :
  assoc k (update k' v props)
  = if String.eqb k' k then option_map (fun _ => v) (assoc k props)
    else assoc k props.
Proof.
  induction props as [|[k0 v0] props IH]; cbn [update assoc].
  - now destruct (String.eqb k' k).
  - destruct (String.eqb k0 k') eqn:E0.
    + apply String.eqb_eq in E0 as ->. cbn [assoc].
      destruct (String.eqb k' k) eqn:E; [reflexivity|reflexivity].
    + cbn [assoc]. destruct (String.eqb k0 k) eqn:E1.
      * apply String.eqb_eq in E1 as ->. now rewrite String.eqb_sym, E0.
      * exact IH.
Qed.

Lemma assoc_add (k k' : string) (v : value) (props : list (string * value)) :
  assoc k' props = None ->
  assoc k (add k' v props) = if String.eqb k' k then Some v else assoc k props.
Proof.
  induction props as [|[k0 v0] props IH]; cbn [add assoc]; intros Hnone.
  - now destruct (String.eqb k' k).
  - destruct (String.eqb k0 k') eqn:E0; [discriminate|].
    assert (assoc k ((k', v) :: (k0, v0) :: props)
            = if String.eqb k' k then Some v else assoc k ((k0, v0) :: props))
      as Hfront by reflexivity.
    assert (assoc k ((k0, v0) :: add k' v props)
            = if String.eqb k' k then Some v else assoc k ((k0, v0) :: props))
      as Hback.
    { cbn [assoc]. destruct (String.eqb k0 k) eqn:E1.
      - apply String.eqb_eq in E1 as ->. now rewrite String.eqb_sym, E0.
      - apply IH, Hnone. }
    destruct (parse_index k') as [i|], (parse_index k0) as [i0|];
      [destruct (i <? i0)%N | | |]; assumption.
Qed.

Lemma assoc_set_prop (k k' : string) (v : value) (props : list (string * value)) :
  k' ≠ "__proto__" ->
  assoc k (set_prop k' v props) = if String.eqb k' k then Some v else assoc k props.
Proof.
  intros Hproto. unfold set_prop. destruct (assoc k' props) as [x|] eqn:E.
  - rewrite assoc_update. destruct (String.eqb k' k) eqn:Ek; [|reflexivity].
    apply String.eqb_eq in Ek as <-. now rewrite E.
  - apply String.eqb_neq in Hproto. rewrite Hproto. now apply assoc_add.
Qed.

Lemma assoc_set_prop_other (k k' : string) (v : value) (props : list (string * value)) :
  k' ≠ k -> assoc k (set_prop k' v props) = assoc k props.
Proof.
  intros Hne. unfold set_prop. apply String.eqb_neq in Hne.
  destruct (assoc k' props) as [x|] eqn:E.
  - now rewrite assoc_update, Hne.
  - destruct (String.eqb k' "__proto__"); [reflexivity|].
    now rewrite assoc_add, Hne.
Qed.

(** The bodies of the two loops over headers: each completes, and leaves
    strings as the values of the headers. *)
Lemma collect_parameters_typed (params : list value)
    (parameters : list OperationParameter) (headers : list (string * value)) :
  Forall (fun kv => typeof_string (snd kv) = true) headers ->
  completes (fun r => Forall (fun kv => typeof_string (snd kv) = true) (snd r))
    (collect_parameters params parameters headers).
Proof.
  revert parameters headers.
  induction params as [|param rest IH]; intros parameters headers Htyped;
    [exact Htyped|].
  cbn [collect_parameters].
  eapply completes_bind with (Q := fun _ => True).
  { destruct param; exact I. }
  intros name _.
  eapply completes_bind
    with (Q := Forall (fun kv => typeof_string (snd kv) = true)).
  - destruct (_ && _); [|exact Htyped].
    eapply completes_bind with (Q := fun _ => True);
      [apply to_string_completes|].
    intros key _.
    eapply completes_bind with (Q := fun _ => True);
      [apply toString_of_completes|].
    intros text _. cbn.
    now apply (PostmanFacts.set_prop_values (fun v => typeof_string v = true)).
  - intros headers' Htyped'. now apply IH.
Qed.

Lemma not_content_type (headerName : string) :
  includes (toLowerCase headerName) "auth" = true -> headerName ≠ "Content-Type".
Proof. intros Hauth ->. vm_compute in Hauth. discriminate. Qed.

Lemma collect_response_headers_typed (entries : list (string * value))
    (headers : list (string * value)) :
  Forall (fun kv => typeof_string (snd kv) = true) headers ->
  completes
    (fun r => Forall (fun kv => typeof_string (snd kv) = true) r
              ∧ assoc "Content-Type" r = assoc "Content-Type" headers)
    (collect_response_headers entries headers).
Proof.
  revert headers.
  induction entries as [|[headerName headerSpec] rest IH]; intros headers Htyped;
    [now split|].
  cbn [collect_response_headers].
  destruct (_ && _) eqn:Hcond; [|now apply IH].
  apply andb_prop in Hcond as [_ Hauth]. apply not_content_type in Hauth.
  eapply completes_bind with (Q := fun _ => True);
    [apply toString_of_completes|].
  intros text _.
  eapply completes_weaken.
  - apply IH.
    now apply (PostmanFacts.set_prop_values (fun v => typeof_string v = true)).
  - intros r [Hr Hassoc]. split; [exact Hr|].
    rewrite Hassoc. now apply assoc_set_prop_other.
Qed.

Lemma first_supported_listed (content : value) (types : list string) :
  let '(contentType, _, _) := first_supported content types in
  JsString.truthy contentType = true -> contentType ∈ types.
Proof.
  induction types as [|type rest IH]; cbn [first_supported]; [discriminate|].
  destruct (truthy (get_prop content type)).
  - intros _. apply list_elem_of_here.
  - destruct (first_supported content rest) as [[contentType bodySchema] bodyExample].
    intros H. apply list_elem_of_further, IH, H.
Qed.

Lemma generate_bounded (string_positive : string -> bool) (schema spec : value) :
  completes (fun _ => True)
    (generateExampleFromSchema string_positive (depth_bound schema spec)
       schema spec ∅).
Proof.
  set (U := refs_of schema ∪ refs_of spec).
  assert (refs_of spec ⊆ U) as Hspec by set_solver.
  assert (base.size (U ∖ ∅) <= base.size U) as Hleft
    by (apply subseteq_size; set_solver).
  eapply completes_weaken.
  - apply (OpenAPIFacts.generate_completes spec U Hspec string_positive).
    + unfold depth_bound, remaining, largest_resolved. fold U. nia.
    + set_solver.
  - auto.
Qed.

Lemma catch_null {A} (P : option A -> Prop) (c : completion (option A)) :
  completes P c -> P None ->
  ∃ r, try_catch c (fun _ => Return None) = Return r ∧ P r.
Proof. destruct c as [r| |]; cbn; intros Hc Hnone; [eauto | eauto | tauto]. Qed.

Section Parser.

Variable string_positive : string -> bool.
Variable stamps : nat -> string.

(** [parseOpenAPIOperation] returns: a request that is well formed, for the
    method and under the address that it was given, or [null]. *)
Lemma parseOpenAPIOperation_result (stamp method path : string)
    (operation baseUrl spec : value) :
  method ∈ httpMethods ->
  ∃ r,
    parseOpenAPIOperation string_positive stamp method path operation baseUrl spec
    = Return r
    ∧ match r with
      | Some r =>
          well_formed r
          ∧ OpenAPIParser.method r = toUpperCase method
          ∧ url r = strip_trailing_slash (text baseUrl) +:+ path
      | None => True
      end.
Proof.
  intros Hmethod. unfold parseOpenAPIOperation.
  apply catch_null; [|exact I]. cbv zeta.
  eapply completes_bind
    with (Q := fun fullUrl =>
                 fullUrl = strip_trailing_slash (text baseUrl) +:+ path).
  { destruct baseUrl as [| | [] | x | [|c s] | items | props]; cbn;
      try exact I; try reflexivity.
    destruct (_ =? _)%Z; cbn; [reflexivity | exact I]. }
  intros fullUrl ->.
  eapply completes_bind
    with (Q := fun r => Forall (fun kv => typeof_string (snd kv) = true) (snd r)).
  { destruct (_ && _); [|constructor].
    apply collect_parameters_typed. constructor. }
  intros [parameters headers] Htyped. cbn [snd] in Htyped.
  eapply completes_bind
    with (Q := fun r =>
                 Forall (fun kv => typeof_string (snd kv) = true) (snd r)
                 ∧ match fst r with
                   | Some b =>
                       toUpperCase method ∈ ["POST"; "PUT"; "PATCH"]
                       ∧ contentType b ∈ supportedTypes
                       ∧ truthy (schema b) = true
                       ∧ assoc "Content-Type" (snd r) = Some (VStr (contentType b))
                   | None => True
                   end).
  { destruct (truthy (get_prop operation "requestBody")); [|now split].
    cbn [andb].
    destruct (existsb _ _) eqn:Hsends; [|now split].
    destruct (truthy (get_prop (get_prop operation "requestBody") "content"));
      [|now split].
    pose proof (first_supported_listed
                  (get_prop (get_prop operation "requestBody") "content")
                  supportedTypes) as Hlisted.
    destruct (first_supported _ _) as [[contentType bodySchema] bodyExample].
    destruct (JsString.truthy contentType) eqn:Htype; [|now split].
    cbn [andb]. destruct (truthy bodySchema) eqn:Hschema; [|now split].
    eapply completes_bind with (Q := fun _ => True).
    { destruct (_ && _); [|exact I].
      pose proof (generate_bounded string_positive bodySchema spec) as Hgen.
      destruct (generateExampleFromSchema _ _ _ _ _) as [[g vis]| |];
        [exact I | exact I | exact Hgen]. }
    intros example _. cbn. split.
    - now apply (PostmanFacts.set_prop_values (fun v => typeof_string v = true)).
    - split.
      { apply existsb_exists in Hsends as (m & Hm & Heq).
        apply String.eqb_eq in Heq as ->. now apply list_elem_of_In. }
      split; [now apply Hlisted|]. split; [exact Hschema|].
      now rewrite assoc_set_prop. }
  intros [body headers'] [Htyped' Hbody]. cbn [fst snd] in Htyped', Hbody.
  eapply completes_bind
    with (Q := fun r => Forall (fun kv => typeof_string (snd kv) = true) r
                        ∧ assoc "Content-Type" r = assoc "Content-Type" headers').
  { destruct (truthy (get_prop operation "responses")); [|now split].
    destruct (_ && _); [|now split].
    now apply collect_response_headers_typed. }
  intros headers'' [Htyped'' Hcontent]. unfold completes.
  split; [|now split].
  unfold well_formed.
  cbn [OpenAPIParser.method OpenAPIParser.name OpenAPIParser.id
       OpenAPIParser.headers OpenAPIParser.body].
  split. { apply list_elem_of_In, in_map, list_elem_of_In, Hmethod. }
  split. { apply PostmanFacts.truthy_or_else. cbn.
           apply (PostmanFacts.truthy_joined _ " "). discriminate. }
  split. { apply PostmanFacts.truthy_or_else. cbn.
           apply (PostmanFacts.truthy_joined _ "_"). discriminate. }
  split; [exact Htyped''|].
  destruct body as [b|]; [|exact I].
  destruct Hbody as (H1 & H2 & H3 & H4). rewrite Hcontent. auto.
Qed.

Lemma over_methods_result (P : OpenAPIRequest -> Prop) (methods : list string)
    (path : string) (pathItem baseUrl spec : value)
    (requests : list OpenAPIRequest) (count : nat) :
  (∀ m r, m ∈ methods -> truthy (get_prop pathItem m) = true ->
          well_formed r -> OpenAPIParser.method r = toUpperCase m ->
          url r = strip_trailing_slash (text baseUrl) +:+ path -> P r) ->
  methods ⊆ httpMethods ->
  Forall P requests ->
  completes (fun r => Forall P (fst r))
    (over_methods string_positive stamps methods path pathItem baseUrl spec
       requests count).
Proof.
  revert requests count.
  induction methods as [|m rest IH]; intros requests count HP Hsub Hreqs;
    [exact Hreqs|].
  cbn [over_methods].
  assert (rest ⊆ httpMethods) as Hrest by set_solver.
  assert (∀ m' r, m' ∈ rest -> truthy (get_prop pathItem m') = true ->
            well_formed r -> OpenAPIParser.method r = toUpperCase m' ->
            url r = strip_trailing_slash (text baseUrl) +:+ path -> P r) as HP'.
  { intros m' r Hin. apply HP. now apply list_elem_of_further. }
  eapply completes_bind; [apply PostmanFacts.get_completes|].
  intros operation ->.
  destruct (truthy _) eqn:Htruthy; [|now apply IH].
  destruct (parseOpenAPIOperation_result (stamps count) m path
              (get_prop pathItem m) baseUrl spec) as (r & -> & Hr);
    [set_solver|].
  cbn [bind]. apply IH; auto.
  destruct r as [r|]; [|exact Hreqs].
  destruct Hr as (Hwf & Hm & Hurl).
  apply Forall_app. split; [exact Hreqs|].
  repeat constructor. apply (HP m); auto. apply list_elem_of_here.
Qed.

Lemma over_paths_result (paths : value) (entries : list (string * value))
    (baseUrl spec : value) (requests : list OpenAPIRequest) (count : nat) :
  entries ⊆ Js.entries paths ->
  Forall (fun r => well_formed r ∧ from_operation paths baseUrl r) requests ->
  completes
    (fun r => Forall (fun r => well_formed r ∧ from_operation paths baseUrl r)
                     (fst r))
    (over_paths string_positive stamps entries baseUrl spec requests count).
Proof.
  revert requests count.
  induction entries as [|[path pathItem] rest IH]; intros requests count Hsub Hreqs;
    [exact Hreqs|].
  cbn [over_paths].
  eapply completes_bind.
  - apply (over_methods_result
             (fun r => well_formed r ∧ from_operation paths baseUrl r));
      [| reflexivity | exact Hreqs].
    intros m r Hm Htruthy Hwf Hmethod Hurl. split; [exact Hwf|].
    exists path, pathItem, m. repeat split; auto. set_solver.
  - intros [requests' count'] Hreqs'. apply IH; [set_solver | exact Hreqs'].
Qed.

Lemma extractOpenAPIRequests_result (paths baseUrl spec : value) :
  completes (Forall (fun r => well_formed r ∧ from_operation paths baseUrl r))
    (extractOpenAPIRequests string_positive stamps paths baseUrl spec).
Proof.
  unfold extractOpenAPIRequests.
  eapply completes_bind.
  - apply (over_paths_result paths); [reflexivity | constructor].
  - intros [requests count] Hreqs. exact Hreqs.
Qed.

(** The body of [parseOpenAPISpec] after [JSON.parse]. *)
Lemma parsed_document (data : value) (c : completion OpenAPISpec) :
  c = (let* openapi_ := get data "openapi" in
       if negb (truthy openapi_) && negb (truthy (get_prop data "swagger")) then
         Throw (Error "Invalid OpenAPI specification: missing openapi/swagger version")
       else
         let title :=
           or_else (get_opt (get_prop data "info") "title") (VStr "Untitled API") in
         let servers := get_prop data "servers" in
         let* baseUrl :=
           if truthy servers && gt_zero string_positive (get_prop servers "length")
           then get (get_prop servers "0") "url"
           else if truthy (get_prop data "host") then
             let* secure :=
               if truthy (get_prop data "schemes")
               then includes_of (get_prop data "schemes") "https"
               else Return false in
             let protocol := if secure then "https" else "http" in
             let* host := to_string (get_prop data "host") in
             let baseUrl := protocol +:+ "://" +:+ host in
             if truthy (get_prop data "basePath") then
               let* basePath := to_string (get_prop data "basePath") in
               Return (VStr (baseUrl +:+ basePath))
             else Return (VStr baseUrl)
           else Return (VStr "") in
         let* requests :=
           extractOpenAPIRequests string_positive stamps
             (or_else (get_prop data "paths") (VObj [])) baseUrl data in
         Return {| spec_name := title;
                   description := get_opt (get_prop data "info") "description";
                   version := or_else (get_opt (get_prop data "info") "version")
                                      (VStr "1.0.0");
                   baseUrl := baseUrl;
                   requests := requests;
                   securitySchemes :=
                     or_else (get_opt (get_prop data "components") "securitySchemes")
                             (get_prop data "securityDefinitions") |}) ->
  completes
    (fun spec =>
       truthy (get_prop data "openapi") || truthy (get_prop data "swagger") = true
       ∧ truthy (spec_name spec) = true
       ∧ truthy (version spec) = true
       ∧ Forall (fun r => well_formed r
                          ∧ from_operation (or_else (get_prop data "paths") (VObj []))
                              (baseUrl spec) r)
                (requests spec))
    c.
Proof.
  intros ->.
  eapply completes_bind with (Q := fun v => v = get_prop data "openapi").
  { apply PostmanFacts.get_completes. }
  intros openapi_ ->.
  destruct (negb _ && negb _) eqn:Hversion; [exact I|].
  cbv zeta.
  eapply completes_bind with (Q := fun _ => True).
  { clear Hversion. destruct (truthy (get_prop data "servers") && _).
    - eapply completes_weaken; [apply PostmanFacts.get_completes | auto].
    - destruct (truthy (get_prop data "host")); [|exact I].
      eapply completes_bind with (Q := fun _ => True).
      { destruct (truthy (get_prop data "schemes")); [|exact I].
        destruct (get_prop data "schemes"); exact I. }
      intros secure _.
      eapply completes_bind with (Q := fun _ => True);
        [apply to_string_completes|].
      intros host _.
      destruct (truthy (get_prop data "basePath")); [|exact I].
      eapply completes_bind with (Q := fun _ => True);
        [apply to_string_completes|].
      intros; exact I. }
  intros base _.
  eapply completes_bind; [apply extractOpenAPIRequests_result|].
  intros requests Hreqs. unfold completes.
  cbn [spec_name version OpenAPIParser.baseUrl OpenAPIParser.requests].
  split.
  { destruct (truthy (get_prop data "openapi")); [reflexivity|].
    destruct (truthy (get_prop data "swagger")); [reflexivity | discriminate]. }
  split; [now apply PostmanFacts.truthy_or_else|].
  split; [now apply PostmanFacts.truthy_or_else | exact Hreqs].
Qed.

End Parser.

(** X29.  [parseOpenAPISpec] and what it returns.  A YAML document is always
    refused, with the message that asks for JSON.  Every error it throws is an
    [Error] whose message starts with the prefix of a failed parse.  When it
    returns, the content was JSON with a truthy [openapi] or [swagger]
    member; the name and the version of the result are truthy; and every
    request is well formed and stands for an operation of [paths], under the
    base address without its final slash, followed by the path. *)
Theorem parseOpenAPISpec_outcome (string_positive : string -> bool)
    (stamps : nat -> string) (JSON_parse : string -> completion value)
    (content : string) (isYaml : bool) :
  match parseOpenAPISpec string_positive stamps JSON_parse content isYaml with
  | Return spec =>
      isYaml = false
      ∧ ∃ data,
          JSON_parse content = Return data
          ∧ truthy (get_prop data "openapi") || truthy (get_prop data "swagger")
            = true
          ∧ truthy (spec_name spec) = true
          ∧ truthy (version spec) = true
          ∧ Forall (fun r =>
                      well_formed r
                      ∧ from_operation
                          (or_else (get_prop data "paths") (VObj []))
                          (baseUrl spec) r)
                   (requests spec)
  | Throw e =>
      ∃ m, e = Error (failure_prefix +:+ m)
           ∧ (isYaml = true -> m = yaml_unsupported)
  | OutOfFuel => isYaml = false ∧ JSON_parse content = OutOfFuel
  end.
Proof.
  unfold parseOpenAPISpec. destruct isYaml.
  { cbn [bind try_catch]. eexists. split; [reflexivity | reflexivity]. }
  destruct (JSON_parse content) as [data|e|] eqn:Hparse; cbn [bind try_catch].
  - match goal with
    | |- match try_catch ?c _ with _ => _ end =>
        pose proof (parsed_document string_positive stamps data c eq_refl) as Hc;
        destruct c as [spec|e|]
    end; cbn [try_catch].
    + split; [reflexivity|]. exists data. split; [reflexivity | exact Hc].
    + eexists. split; [reflexivity | discriminate].
    + destruct Hc.
  - eexists. split; [reflexivity | discriminate].
  - now split.
Qed.


(** *** [detectOpenAPIAuth] *)

Lemma declared_schemes_result (entries : list (string * value))
    (schemes : list Scheme) :
  type_errors
    (fun out => ∃ new, out = schemes ++ new
                       ∧ map scheme_name new = map fst entries)
    (declared_schemes entries schemes).
Proof.
  revert schemes.
  induction entries as [|[name scheme] rest IH]; intros schemes.
  { exists []. now rewrite app_nil_r. }
  cbn [declared_schemes].
  eapply type_errors_bind with (Q := fun _ => True).
  { destruct scheme; cbn; eauto. }
  intros type _.
  eapply type_errors_bind with (Q := fun _ => True).
  { repeat match goal with
           | |- type_errors _ (if ?b then _ else _) => destruct b
           | |- type_errors _ (bind (to_string ?v) _) =>
               eapply type_errors_bind with (Q := fun _ => True);
               [apply to_string_throws | intros ? _]
           | |- type_errors _ (Return _) => exact I
           end. }
  intros description _.
  specialize (IH (schemes ++ [ {| scheme_name := name; scheme_type := type;
                                  scheme_description := description |} ])).
  destruct (declared_schemes rest _) as [out| |]; cbn in IH |- *; [|exact IH..].
  destruct IH as (new & -> & Hnames).
  eexists (_ :: new). rewrite <- app_assoc. split; [reflexivity|].
  cbn. now rewrite Hnames.
Qed.

Section Detector.

Variable toLowerCase : string -> string.

(** A scan finds one scheme at most: the one of the first header that names
    an authentication, unless a scheme of type [header] is there already. *)
Lemma scan_keys_saturated (keys : list string) (schemes : list Scheme) :
  existsb (fun s => is_string (scheme_type s) "header") schemes = true ->
  scan_keys toLowerCase keys schemes = schemes.
Proof.
  intros Hsat. induction keys as [|k rest IH]; [reflexivity|].
  cbn [scan_keys]. now rewrite Hsat, andb_false_r.
Qed.

Lemma scan_keys_cases (keys : list string) (schemes : list Scheme) :
  ∃ extra,
    scan_keys toLowerCase keys schemes = schemes ++ extra
    ∧ Forall (fun s => scheme_name s = "header-auth"
                       ∧ scheme_type s = VStr "header") extra
    ∧ length extra
      = (if existsb (auth_key toLowerCase) keys
            && negb (existsb (fun s => is_string (scheme_type s) "header") schemes)
         then 1 else 0).
Proof.
  induction keys as [|k rest IH].
  { exists []. now rewrite app_nil_r. }
  cbn [scan_keys existsb].
  destruct (existsb (fun s => is_string (scheme_type s) "header") schemes) eqn:Hsat.
  { rewrite !andb_false_r. destruct IH as (extra & -> & Hall & Hlen).
    rewrite andb_false_r in Hlen. now exists extra. }
  rewrite !andb_true_r in *.
  destruct (auth_key toLowerCase k); [|exact IH].
  cbn [orb]. rewrite scan_keys_saturated.
  - eexists [_]. repeat split; repeat constructor.
  - rewrite existsb_app. cbn. now rewrite orb_true_r.
Qed.

Lemma scan_requests_cases (requests : list OpenAPIRequest) (schemes : list Scheme) :
  ∃ extra,
    fold_left (fun schemes request => scan_keys toLowerCase (map fst (headers request)) schemes)
              requests schemes
    = schemes ++ extra
    ∧ Forall (fun s => scheme_name s = "header-auth"
                       ∧ scheme_type s = VStr "header") extra
    ∧ length extra
      = (if existsb (fun r => existsb (auth_key toLowerCase) (map fst (headers r))) requests
            && negb (existsb (fun s => is_string (scheme_type s) "header") schemes)
         then 1 else 0).
Proof.
  revert schemes.
  induction requests as [|r rest IH]; intros schemes.
  { exists []. now rewrite app_nil_r. }
  cbn [fold_left existsb].
  destruct (scan_keys_cases (map fst (headers r)) schemes)
    as (extra1 & -> & Hall1 & Hlen1).
  destruct (IH (schemes ++ extra1)) as (extra2 & -> & Hall2 & Hlen2).
  exists (extra1 ++ extra2). rewrite <- app_assoc. split; [reflexivity|].
  split; [now apply Forall_app|].
  rewrite length_app, Hlen1, Hlen2, existsb_app.
  destruct (existsb (fun s => is_string (scheme_type s) "header") schemes) eqn:Hsat.
  { now rewrite !andb_false_r. }
  rewrite !andb_true_r. cbn [orb negb].
  destruct (existsb (auth_key toLowerCase) (map fst (headers r))) eqn:Hr; cbn [orb].
  - destruct extra1 as [|s [|]]; try discriminate.
    apply Forall_inv in Hall1 as [_ Htype]. cbn. rewrite Htype. cbn.
    now rewrite andb_false_r.
  - destruct extra1; [|discriminate]. cbn [existsb orb negb].
    now rewrite andb_true_r.
Qed.

(** X30.  [detectOpenAPIAuth] throws nothing but the [TypeError] of a security
    scheme that cannot be read.  When it returns, the schemes are the declared
    ones, in the order and under the names of [securitySchemes], followed by
    one scheme [header-auth] at most, which is there when a request has a
    header whose name, in the lower case that the host gives it, names an
    authentication, and no declared scheme has the type [header]; authentication is reported exactly when there is a scheme, with
    the type of the first scheme. *)
Theorem detectOpenAPIAuth_outcome (spec : OpenAPISpec) :
  type_errors
    (fun info =>
       ∃ found extra,
         map scheme_name found = map fst (declared spec)
         ∧ Forall (fun s => scheme_name s = "header-auth"
                            ∧ scheme_type s = VStr "header") extra
         ∧ length extra
           = (if has_auth_header toLowerCase spec
                 && negb (existsb (fun s => is_string (scheme_type s) "header") found)
              then 1 else 0)
         ∧ hasAuth info = negb (Nat.eqb (length (found ++ extra)) 0)
         ∧ schemes info = found ++ extra
         ∧ authType info
           = default (VStr "none") (scheme_type <$> head (found ++ extra)))
    (detectOpenAPIAuth toLowerCase spec).
Proof.
  unfold detectOpenAPIAuth.
  eapply type_errors_bind
    with (Q := fun found => map scheme_name found = map fst (declared spec)).
  { unfold declared. destruct (truthy (securitySchemes spec)); [|reflexivity].
    pose proof (declared_schemes_result (entries (securitySchemes spec)) []) as H.
    destruct (declared_schemes _ _); cbn in H |- *; [|exact H..].
    now destruct H as (new & -> & Hnames). }
  intros found Hfound. cbv zeta.
  destruct (scan_requests_cases (requests spec) found) as (extra & -> & Hall & Hlen).
  destruct (found ++ extra) as [|first rest] eqn:Hschemes; cbn [type_errors];
    exists found, extra; rewrite Hschemes; repeat split; auto.
Qed.

End Detector.

(** The Swagger 2 document: the base address loses its final slash, the
    operation that cannot be read is left out, the body gets an example made
    from its schema, and the header parameter adds a scheme to the declared
    one. *)
Example pets_document :
  ∃ spec,
    parseOpenAPISpec (fun _ => false) string_of_nat Json.parse
      OpenAPIScenarios.pets_text false
    = Return spec
    ∧ baseUrl spec = VStr "https://api.example.com/v1/"
    ∧ map (fun r => (method r, url r, headers r, example <$> body r))
          (requests spec)
      = [("GET", "https://api.example.com/v1/pets",
          [("X-Auth-Token", VStr "12")], None);
         ("POST", "https://api.example.com/v1/pets",
          [("Content-Type", VStr "application/json")],
          Some (VObj [("name", VStr "string")]))]
    ∧ (let* info := detectOpenAPIAuth JsString.toLowerCase spec in Return (schemes info))
      = Return
          [ {| scheme_name := "key";
               scheme_type := VStr "apiKey";
               scheme_description := "API key in header: X-API-Key" |};
            {| scheme_name := "header-auth";
               scheme_type := VStr "header";
               scheme_description := "Authentication via X-Auth-Token header" |} ].
Proof. eexists. split; [vm_compute; reflexivity |]. repeat split. Qed.

End OpenAPIParserFacts.
